(** * Reels scraper: extraction, dedup cache, navigation and scrape loop

    A shallow embedding of the extraction-and-navigation core of the
    scraper (GraphQLExtractor, HashtagExtractor, DOMExtractor,
    ReelCollector, GraphQLHandler, NetworkInterceptor, ReelDataTransformer,
    ReelNavigator, the counters and the records of
    InstagramReelsScraper.scrapeReelsFeed, and the cells CSVStorage writes
    and reads), followed by the properties of the specification stated
    over it and by further properties the code shows.

    Conventions of the embedding.
    - A JavaScript value is a [value].  Numbers are the integer-valued
      doubles, exact below 2^53, carried as [Z]; the one product with a
      fraction, [maxWaitTime * 0.7], is rounded as the doubles round it.
      Strings are sequences of ASCII characters; a statement that would
      not carry over to other characters says so in a hypothesis.  [NaN]
      only arises from [parseInt] and is carried as [None].
    - An object is the list of its own properties in enumeration order; a
      property is read with the first binding of its key.
    - A call that may raise returns a [result]; code that runs against
      the browser threads an abstract world through a state-and-exception
      monad whose primitive operations are the Puppeteer calls. *)

From Stdlib Require Import ZArith List String Ascii Bool Lia DecimalString.
Import ListNotations.

Local Open Scope string_scope.
Local Open Scope list_scope.
Local Open Scope Z_scope.

Set Warnings "-register-all".

(** ** JavaScript values *)

Module JS.

Inductive value : Type :=
| VUndefined
| VNull
| VBool (b : bool)
| VNum (n : Z)
| VStr (s : string)
| VArr (items : list value)
| VObj (props : list (string * value)).

(** Outcome of a call that may raise. *)
Inductive result (A : Type) : Type :=
| Ok (a : A)
| Throw.

Arguments Ok {A} a.
Arguments Throw {A}.

Definition is_ok {A} (r : result A) : bool :=
  match r with Ok _ => true | Throw => false end.

(** ToBoolean. *)
Definition truthy (v : value) : bool :=
  match v with
  | VUndefined | VNull => false
  | VBool b => b
  | VNum n => negb (n =? 0)
  | VStr s => negb (String.eqb s EmptyString)
  | VArr _ | VObj _ => true
  end.

Definition nullish (v : value) : bool :=
  match v with
  | VUndefined | VNull => true
  | _ => false
  end.

(** [a || b] *)
Definition or_else (a b : value) : value := if truthy a then a else b.

Infix "|||" := or_else (at level 50, left associativity).

Fixpoint lookup (k : string) (props : list (string * value)) : value :=
  match props with
  | [] => VUndefined
  | (k', v) :: rest => if String.eqb k k' then v else lookup k rest
  end.

Fixpoint has_key (k : string) (props : list (string * value)) : bool :=
  match props with
  | [] => false
  | (k', _) :: rest => String.eqb k k' || has_key k rest
  end.

(** [v?.k] for a named (non-index, non-[length]) key [k]: the own property
    of an object, [undefined] on every other receiver.  On a receiver that
    is neither [null] nor [undefined] this is also [v.k]. *)
Definition get (v : value) (k : string) : value :=
  match v with
  | VObj props => lookup k props
  | _ => VUndefined
  end.

(** [v.k], which raises a TypeError on [null] and [undefined]. *)
Definition get_strict (v : value) (k : string) : result value :=
  if nullish v then Throw else Ok (get v k).

(** [v?.[0]] *)
Definition index0 (v : value) : value :=
  match v with
  | VArr items => hd VUndefined items
  | VStr (String c _) => VStr (String c EmptyString)
  | VObj props => lookup "0" props
  | _ => VUndefined
  end.

Definition isArray (v : value) : bool :=
  match v with VArr _ => true | _ => false end.

Definition isString (v : value) : bool :=
  match v with VStr _ => true | _ => false end.

(** [typeof v === 'object'] *)
Definition typeof_object (v : value) : bool :=
  match v with VNull | VArr _ | VObj _ => true | _ => false end.

(** [v.length > 0] on a receiver that is not nullish.  On an object it
    reads the own property [length], taken to be a number when there is
    one. *)
Definition length_positive (v : value) : bool :=
  match v with
  | VArr items => negb (Nat.eqb (List.length items) 0)
  | VStr s => negb (Nat.eqb (String.length s) 0)
  | VObj props =>
      match lookup "length" props with
      | VNum n => 0 <? n
      | _ => false
      end
  | _ => false
  end.

Definition chars (s : string) : list value :=
  map (fun c => VStr (String c EmptyString)) (list_ascii_of_string s).

(** The values a [for ... of] loop or a spread visits; iterating a value
    that is not iterable raises a TypeError. *)
Definition iterate (v : value) : result (list value) :=
  match v with
  | VArr items => Ok items
  | VStr s => Ok (chars s)
  | _ => Throw
  end.

(** Structural equality.  [===] and the SameValueZero comparison of [Set]
    and [Map] agree with it on primitives; on arrays and objects they
    compare identity, and the embedding identifies a composite value with
    its contents. *)
Fixpoint value_eqb (a b : value) {struct a} : bool :=
  match a, b with
  | VUndefined, VUndefined => true
  | VNull, VNull => true
  | VBool x, VBool y => Bool.eqb x y
  | VNum x, VNum y => x =? y
  | VStr x, VStr y => String.eqb x y
  | VArr xs, VArr ys =>
      (fix go (xs ys : list value) : bool :=
         match xs, ys with
         | [], [] => true
         | x :: xs', y :: ys' => value_eqb x y && go xs' ys'
         | _, _ => false
         end) xs ys
  | VObj ps, VObj qs =>
      (fix go (ps qs : list (string * value)) : bool :=
         match ps, qs with
         | [], [] => true
         | (k, x) :: ps', (l, y) :: qs' =>
             String.eqb k l && value_eqb x y && go ps' qs'
         | _, _ => false
         end) ps qs
  | _, _ => false
  end.

(** Induction over values that reaches inside arrays and objects. *)
Section ValueInduction.
Variable P : value -> Prop.
Hypothesis HUndefined : P VUndefined.
Hypothesis HNull : P VNull.
Hypothesis HBool : forall b, P (VBool b).
Hypothesis HNum : forall n, P (VNum n).
Hypothesis HStr : forall s, P (VStr s).
Hypothesis HArr : forall items, Forall P items -> P (VArr items).
Hypothesis HObj :
  forall props, Forall (fun kv => P (snd kv)) props -> P (VObj props).

Fixpoint value_nested_ind (v : value) : P v :=
  match v with
  | VUndefined => HUndefined
  | VNull => HNull
  | VBool b => HBool b
  | VNum n => HNum n
  | VStr s => HStr s
  | VArr items =>
      HArr items
        ((fix all (l : list value) : Forall P l :=
            match l with
            | [] => Forall_nil P
            | x :: rest => Forall_cons x (value_nested_ind x) (all rest)
            end) items)
  | VObj props =>
      HObj props
        ((fix all (l : list (string * value))
            : Forall (fun kv => P (snd kv)) l :=
            match l with
            | [] => Forall_nil _
            | kv :: rest =>
                Forall_cons kv (value_nested_ind (snd kv)) (all rest)
            end) props)
  end.

End ValueInduction.

(** The values compared by value: everything but arrays and objects. *)
Definition primitive (v : value) : bool :=
  match v with
  | VArr _ | VObj _ => false
  | _ => true
  end.

(** Insertion into a [Set]: first occurrence wins, order is kept.  The
    sets of the program hold strings only, which a [Set] compares by
    value. *)
Fixpoint mem (v : value) (l : list value) : bool :=
  match l with
  | [] => false
  | x :: rest => value_eqb v x || mem v rest
  end.

Definition set_add (l : list value) (v : value) : list value :=
  if mem v l then l else l ++ [v].

(** *** Strings *)

(** [s.toLowerCase()] on ASCII text: the letters [A]-[Z] are mapped, the
    length is kept.  (Beyond ASCII the method maps further characters, a
    few of them to ASCII letters.) *)
Definition lower_char (c : ascii) : ascii :=
  let n := nat_of_ascii c in
  if (Nat.leb 65 n && Nat.leb n 90)%bool then ascii_of_nat (n + 32) else c.

Fixpoint toLowerCase (s : string) : string :=
  match s with
  | EmptyString => EmptyString
  | String c rest => String (lower_char c) (toLowerCase rest)
  end.

(** [s.replace(/^#/, '')] *)
Definition strip_hash (s : string) : string :=
  match s with
  | String "#"%char rest => rest
  | _ => s
  end.

Fixpoint startsWith (p s : string) : bool :=
  match p, s with
  | EmptyString, _ => true
  | String a p', String b s' => Ascii.eqb a b && startsWith p' s'
  | String _ _, EmptyString => false
  end.

Fixpoint includes (needle s : string) : bool :=
  startsWith needle s ||
  match s with
  | EmptyString => false
  | String _ rest => includes needle rest
  end.

Fixpoint drop (n : nat) (s : string) : string :=
  match n, s with
  | O, _ => s
  | S n', String _ rest => drop n' rest
  | S _, EmptyString => EmptyString
  end.

(** The ASCII characters matched by [\s]. *)
Definition is_space (c : ascii) : bool :=
  let n := nat_of_ascii c in
  (Nat.leb 9 n && Nat.leb n 13)%bool || Nat.eqb n 32.

Fixpoint skip_spaces (s : string) : string :=
  match s with
  | String c rest => if is_space c then skip_spaces rest else s
  | EmptyString => EmptyString
  end.

(** *** parseInt *)

Definition digit_of (radix : Z) (c : ascii) : option Z :=
  let n := Z.of_nat (nat_of_ascii c) in
  let d :=
    if (48 <=? n) && (n <=? 57) then Some (n - 48)
    else if (97 <=? n) && (n <=? 122) then Some (n - 87)
    else if (65 <=? n) && (n <=? 90) then Some (n - 55)
    else None in
  match d with
  | Some k => if k <? radix then Some k else None
  | None => None
  end.

(** Longest prefix of digits of [s], read in [radix]; [None] without a
    digit. *)
Fixpoint digits (radix : Z) (acc : option Z) (s : string) : option Z :=
  match s with
  | EmptyString => acc
  | String c rest =>
      match digit_of radix c with
      | Some d =>
          digits radix
            (Some (match acc with Some a => a * radix + d | None => d end))
            rest
      | None => acc
      end
  end.

Definition parseInt_unsigned (s : string) : option Z :=
  if startsWith "0x" s || startsWith "0X" s
  then digits 16 None (drop 2 s)
  else digits 10 None s.

Definition parseInt_string (s : string) : option Z :=
  match skip_spaces s with
  | String "-"%char rest => option_map Z.opp (parseInt_unsigned rest)
  | String "+"%char rest => parseInt_unsigned rest
  | t => parseInt_unsigned t
  end.

(** The integers a double represents exactly, each printed by its decimal
    digits: up to [Number.MAX_SAFE_INTEGER] in magnitude. *)
Definition safe_integer (n : Z) : bool := Z.abs n <=? 9007199254740991.

(** *** The product with 0.7

    Arithmetic on doubles rounds every result to the nearest number with
    53 significant bits, a tie going to the even one.
    [round53_nonneg p] is that rounding of an integer [p >= 0]; no
    exponent limit comes into play for the magnitudes at hand. *)
Definition round53_nonneg (p : Z) : Z :=
  let s := Z.log2 p - 52 in
  if s <=? 0 then p
  else
    let q := Z.shiftr p s in
    let r := Z.land p (Z.ones s) in
    let half := Z.shiftl 1 (s - 1) in
    Z.shiftl (if (half <? r) || ((r =? half) && Z.odd q) then q + 1 else q) s.

Definition round53 (p : Z) : Z := Z.sgn p * round53_nonneg (Z.abs p).

(** The double written [0.7] is [seven_tenths / 2^52], a little below
    7/10. *)
Definition seven_tenths : Z := 3152519739159347.

(** [y > x * 0.7] for integers [x] and [y] below 2^53 in magnitude: the
    product is the double [round53 (x * seven_tenths) / 2^52], and the
    comparison of two doubles is exact. *)
Definition gt_times_0_7 (y x : Z) : bool :=
  round53 (x * seven_tenths) <? y * 2 ^ 52.

(** [parseInt(v)]: the argument is first converted to a string.  An array
    prints as its elements joined by commas, so only its first element
    can contribute digits; [null], [undefined], booleans and plain
    objects print as text without a leading digit.  The result is exact
    for a [safe_integer]; beyond, JavaScript rounds, and prints a number
    from 10^21 on with an exponent. *)
Fixpoint parseInt (v : value) : option Z :=
  match v with
  | VNum n => Some n
  | VStr s => parseInt_string s
  | VArr (x :: _) => parseInt x
  | _ => None
  end.

(** [parseInt(v) || 0] *)
Definition parseInt_or_0 (v : value) : value :=
  match parseInt v with
  | Some n => VNum n
  | None => VNum 0
  end.

(** *** Character classes, trimming and printing *)

(** The ASCII characters matched by [\w]. *)
Definition is_word (c : ascii) : bool :=
  let n := nat_of_ascii c in
  ((Nat.leb 48 n && Nat.leb n 57) || (Nat.leb 65 n && Nat.leb n 90)
   || (Nat.leb 97 n && Nat.leb n 122) || Nat.eqb n 95)%bool.

(** Every character of [s] satisfies [p]. *)
Fixpoint every (p : ascii -> bool) (s : string) : bool :=
  match s with
  | EmptyString => true
  | String c rest => p c && every p rest
  end.

(** [s.trimEnd()] *)
Fixpoint trimEnd (s : string) : string :=
  match s with
  | EmptyString => EmptyString
  | String c rest =>
      match trimEnd rest with
      | EmptyString => if is_space c then EmptyString else String c EmptyString
      | t => String c t
      end
  end.

(** [s.trim()] *)
Definition trim (s : string) : string := trimEnd (skip_spaces s).

(** [String(v)].  A number prints by its decimal digits (see
    [safe_integer]); an array prints its elements joined by commas, with
    nothing for [null] and [undefined]; a plain object prints as
    [[object Object]]. *)
Fixpoint toString (v : value) : string :=
  match v with
  | VUndefined => "undefined"
  | VNull => "null"
  | VBool true => "true"
  | VBool false => "false"
  | VNum n => NilZero.string_of_int (Z.to_int n)
  | VStr s => s
  | VArr items =>
      String.concat ","
        (map (fun x => if nullish x then EmptyString else toString x) items)
  | VObj _ => "[object Object]"
  end.

End JS.

(** ** HashtagExtractor (src/utils/hashtag-extractor.js) *)

Module HashtagExtractor.
Import JS.

(** One entry of [hashtag_metadata]. *)
Definition entry (hashtag : string) (hashtag_id post_count : value)
    (position : nat) (extraction_method : string) : value :=
  VObj [ ("hashtag", VStr hashtag);
         ("hashtag_id", hashtag_id);
         ("post_count", post_count);
         ("position", VNum (Z.of_nat position));
         ("extraction_method", VStr extraction_method) ].

(** The [hashtags] set and the [metadata] array under construction. *)
Record acc : Type := mkAcc { hashtags : list value; metadata : list value }.

(** [name.toLowerCase().replace(/^#/, '')]; only a string has the method. *)
Definition normalized_of (name : value) : result string :=
  match name with
  | VStr s => Ok (strip_hash (toLowerCase s))
  | _ => Throw
  end.

(** [metadata.find(m => m.hashtag === normalized)] is defined. *)
Definition known (normalized : string) (metadata : list value) : bool :=
  existsb (fun m => value_eqb (get m "hashtag") (VStr normalized)) metadata.

(** [forEach((x, index) => ...)] with an early exit on the first raise. *)
Fixpoint forEach_from (f : acc -> nat -> value -> result acc)
    (index : nat) (l : list value) (a : acc) : result acc :=
  match l with
  | [] => Ok a
  | x :: rest =>
      match f a index x with
      | Ok a' => forEach_from f (S index) rest a'
      | Throw => Throw
      end
  end.

(** Method 1: body of the loop over [edge_media_to_hashtag.edges]. *)
Definition edge_step (a : acc) (index : nat) (edge : value) : result acc :=
  match get_strict edge "node" with
  | Throw => Throw
  | Ok node =>
      if truthy node then
        let hashtagName := get node "name" ||| get node "hashtag" in
        if truthy hashtagName then
          match normalized_of hashtagName with
          | Throw => Throw
          | Ok normalized =>
              Ok (mkAcc (set_add (hashtags a) (VStr normalized))
                    (metadata a ++
                     [entry normalized
                        (get node "id" ||| VNull)
                        (get (get node "edge_hashtag_to_media") "count"
                           ||| get node "media_count" ||| VNull)
                        (index + 1) "graphql_edge"]))
          end
        else Ok a
      else Ok a
  end.

(** Methods 2 and 3: body of the loop over a bare tag array.  Method 3
    records no [post_count]. *)
Definition tag_step (extraction_method : string) (with_count : bool)
    (a : acc) (index : nat) (tag : value) : result acc :=
  let hashtagName :=
    if isString tag then Ok tag
    else match get_strict tag "name" with
         | Throw => Throw
         | Ok name => Ok (name ||| get tag "hashtag")
         end in
  match hashtagName with
  | Throw => Throw
  | Ok hashtagName =>
      if truthy hashtagName then
        match normalized_of hashtagName with
        | Throw => Throw
        | Ok normalized =>
            let hashtags' := set_add (hashtags a) (VStr normalized) in
            if known normalized (metadata a) then Ok (mkAcc hashtags' (metadata a))
            else
              Ok (mkAcc hashtags'
                    (metadata a ++
                     [entry normalized
                        (if typeof_object tag then get tag "id" else VNull)
                        (if with_count && typeof_object tag
                         then get tag "media_count" else VNull)
                        (index + 1) extraction_method]))
        end
      else Ok a
  end.

Definition when_array (v : value) (f : acc -> nat -> value -> result acc)
    (a : acc) : result acc :=
  match v with
  | VArr l => forEach_from f 0 l a
  | _ => Ok a
  end.

(** [extractFromGraphQL(items)]: the three methods in turn. *)
Definition extractFromGraphQL (items : value) : result acc :=
  match when_array (get (get items "edge_media_to_hashtag") "edges")
          edge_step (mkAcc [] []) with
  | Throw => Throw
  | Ok a1 =>
      match when_array (get items "hashtags")
              (tag_step "graphql_array" true) a1 with
      | Throw => Throw
      | Ok a2 =>
          when_array (get (get items "caption") "hashtags")
            (tag_step "caption_object" false) a2
      end
  end.

(** [metadata.find(m => m.hashtag === normalized)] over a caller-supplied
    array: reading [m.hashtag] raises on a nullish element. *)
Fixpoint find_entry (normalized : string) (metadata : list value)
  : result (option value) :=
  match metadata with
  | [] => Ok None
  | m :: rest =>
      match get_strict m "hashtag" with
      | Throw => Throw
      | Ok h =>
          if value_eqb h (VStr normalized) then Ok (Some m)
          else find_entry normalized rest
      end
  end.

(** The receiver of [forEach] / [find] after [|| []]: an array, or a
    value without that method. *)
Definition array_or_empty (v : value) : result (list value) :=
  if truthy v then
    match v with VArr l => Ok l | _ => Throw end
  else Ok [].

(** Body of the loop of [merge] over the tags of one source. *)
Definition merge_tag (metadata : value) (a : acc) (tag : value) : result acc :=
  match normalized_of tag with
  | Throw => Throw
  | Ok normalized =>
      if mem (VStr normalized) (hashtags a) then Ok a
      else
        match array_or_empty metadata with
        | Throw => Throw
        | Ok entries =>
            match find_entry normalized entries with
            | Throw => Throw
            | Ok (Some tagMetadata) =>
                Ok (mkAcc (hashtags a ++ [VStr normalized])
                      (HashtagExtractor.metadata a ++ [tagMetadata]))
            | Ok None =>
                Ok (mkAcc (hashtags a ++ [VStr normalized])
                      (HashtagExtractor.metadata a ++
                       [entry normalized VNull VNull
                          (List.length (HashtagExtractor.metadata a) + 1)
                          "merged"]))
            end
        end
  end.

Fixpoint fold_result {A B : Type} (f : A -> B -> result A) (l : list B)
    (a : A) : result A :=
  match l with
  | [] => Ok a
  | x :: rest =>
      match f a x with
      | Ok a' => fold_result f rest a'
      | Throw => Throw
      end
  end.

Definition merge_source (a : acc) (source : value) : result acc :=
  match get_strict source "hashtags" with
  | Throw => Throw
  | Ok hs =>
      match array_or_empty hs with
      | Throw => Throw
      | Ok tags =>
          fold_result (merge_tag (get source "metadata" ||| VArr [])) tags a
      end
  end.

(** [merge(sources)] *)
Definition merge (sources : list value) : result value :=
  match fold_result merge_source sources (mkAcc [] []) with
  | Throw => Throw
  | Ok a => Ok (VObj [("hashtags", VArr (hashtags a));
                      ("metadata", VArr (metadata a))])
  end.

(** Longest prefix matching [[\w]*]. *)
Fixpoint word_prefix (s : string) : string :=
  match s with
  | String c rest => if is_word c then String c (word_prefix rest) else EmptyString
  | EmptyString => EmptyString
  end.

(** [text.match(/#[\w]+/g)], each match without its [#].  The matches are
    found from left to right and do not overlap: [consumed] says that the
    position lies inside the match found last. *)
Fixpoint hashtagMatches (consumed : bool) (text : string) : list string :=
  match text with
  | EmptyString => []
  | String c rest =>
      if consumed && is_word c then hashtagMatches true rest
      else if Ascii.eqb c "#"%char then
        match word_prefix rest with
        | EmptyString => hashtagMatches false rest
        | w => w :: hashtagMatches true rest
        end
      else hashtagMatches false rest
  end.

(** [extractFromText(text)] *)
Definition extractFromText (text : value) : list value :=
  match text with
  | VStr s => map (fun m => VStr (toLowerCase m)) (hashtagMatches false s)
  | _ => []
  end.

(** [cleaned.length > 0 && cleaned.length <= 100 && /^[\w]+$/.test(cleaned)] *)
Definition well_formed (cleaned : string) : bool :=
  (Nat.ltb 0 (String.length cleaned) && Nat.leb (String.length cleaned) 100
   && every is_word cleaned)%bool.

(** Body of the loop of [normalize]. *)
Definition normalize_tag (normalized : list value) (tag : value) : list value :=
  match tag with
  | VStr s =>
      if truthy tag then
        let cleaned := trim (toLowerCase (strip_hash s)) in
        if well_formed cleaned then set_add normalized (VStr cleaned)
        else normalized
      else normalized
  | _ => normalized
  end.

(** [normalize(hashtags)] *)
Definition normalize (hashtags : value) : list value :=
  match hashtags with
  | VArr tags => fold_left normalize_tag tags []
  | _ => []
  end.

(** [validate(hashtag)] *)
Definition validate (hashtag : value) : bool :=
  match hashtag with
  | VStr s => truthy hashtag && well_formed (trim (strip_hash s))
  | _ => false
  end.

(** [extractFromDOM(page)]: [evaluated] is the outcome of the script run
    in the page; when it raises, the [catch] answers with two empty
    arrays. *)
Definition extractFromDOM (evaluated : result value) : value :=
  match evaluated with
  | Ok r => r
  | Throw => VObj [("hashtags", VArr []); ("metadata", VArr [])]
  end.

End HashtagExtractor.

(** ** GraphQLExtractor (src/extraction/graphql-extractor.js) *)

Module GraphQLExtractor.
Import JS.

(** The object literal of [extractReelDataFromItem], with the tag set and
    its metadata already assigned. *)
Definition reelData_of (items : value) (h : HashtagExtractor.acc) : value :=
  VObj [ ("post_id", get items "shortcode" ||| get items "code" ||| VNull);
         ("author_username",
            get (get items "owner") "username"
              ||| get (get items "user") "username" ||| VNull);
         ("caption",
            get (get (index0 (get (get items "edge_media_to_caption") "edges"))
                   "node") "text"
              ||| get (get items "caption") "text"
              ||| get items "caption" ||| VNull);
         ("hashtags", VArr (HashtagExtractor.hashtags h));
         ("hashtag_metadata", VArr (HashtagExtractor.metadata h));
         ("likes_count",
            get (get items "edge_media_preview_like") "count"
              ||| get items "like_count"
              ||| get (get items "edge_liked_by") "count" ||| VNum 0);
         ("comments_count",
            get (get items "edge_media_to_comment") "count"
              ||| get items "comment_count" ||| VNum 0);
         ("view_count",
            get items "video_view_count" ||| get items "video_play_count"
              ||| get items "view_count" ||| get items "play_count"
              ||| VNum 0);
         ("media_type", VStr "reel");
         ("video_url",
            get (index0 (get items "video_versions")) "url"
              ||| get items "video_url" ||| VNull);
         ("thumbnail_url",
            get items "thumbnail_src" ||| get items "display_url"
              ||| get (index0 (get (get items "image_versions2") "candidates"))
                    "url"
              ||| get (index0 (get items "display_resources")) "src"
              ||| VNull);
         ("created_at",
            get items "taken_at_timestamp" ||| get items "taken_at"
              ||| VNull) ].

(** [extractReelDataFromItem(items)].  The first property read raises on
    a nullish [items] and the tag extraction may raise; the [catch]
    turns either into [null]. *)
Definition extractReelDataFromItem (items : value) : value :=
  match get_strict items "shortcode" with
  | Throw => VNull
  | Ok _ =>
      match HashtagExtractor.extractFromGraphQL items with
      | Throw => VNull
      | Ok h =>
          let reelData := reelData_of items h in
          if truthy (get reelData "post_id") then reelData else VNull
      end
  end.

Definition extractReelFromGraphQLItem (items : value) : value :=
  if negb (truthy items) then VNull else extractReelDataFromItem items.

(** Structures 3 and 4: the media of the first edge.  Reading [.node] of
    a nullish first edge raises. *)
Definition first_edge_media (edges : value) : result value :=
  if length_positive edges then
    match get_strict (index0 edges) "node" with
    | Throw => Throw
    | Ok node =>
        let media := get node "media" in
        Ok (if truthy media then media else VNull)
    end
  else Ok VNull.

(** The ordered shape matchers of [extractReelFromGraphQL]. *)
Definition select_items (data : value) : result value :=
  let d := get data "data" in
  if truthy (get d "xdt_shortcode_media") then
    Ok (get d "xdt_shortcode_media")
  else if truthy (get d "shortcode_media") then
    Ok (get d "shortcode_media")
  else if truthy
            (get (get d "xdt_api__v1__clips__home__connection_v2") "edges")
  then
    first_edge_media
      (get (get d "xdt_api__v1__clips__home__connection_v2") "edges")
  else if truthy
            (get (get d "xdt_api__v1__clips__user__connection_v2") "edges")
  then
    first_edge_media
      (get (get d "xdt_api__v1__clips__user__connection_v2") "edges")
  else if isArray (get data "items") then
    Ok (index0 (get data "items"))
  else if isArray (get d "items") then
    Ok (index0 (get d "items"))
  else Ok VNull.

Definition extractReelFromGraphQL (data : value) : value :=
  match select_items data with
  | Throw => VNull
  | Ok items =>
      if negb (truthy items) then VNull else extractReelDataFromItem items
  end.

End GraphQLExtractor.

(** ** ReelCollector (src/extraction/reel-collector.js) *)

Module ReelCollector.
Import JS.

(** [collectedReels] is a [Map]: its entries in insertion order.
    [networkReels] is the array beside it. *)
Record t : Type := mk {
  collectedReels : list (value * value);
  networkReels : list value
}.

(** [new ReelCollector()] *)
Definition empty : t := mk [] [].

Fixpoint map_has (k : value) (m : list (value * value)) : bool :=
  match m with
  | [] => false
  | (k', _) :: rest => value_eqb k k' || map_has k rest
  end.

Fixpoint map_get (k : value) (m : list (value * value)) : value :=
  match m with
  | [] => VUndefined
  | (k', v) :: rest => if value_eqb k k' then v else map_get k rest
  end.

(** [Map.prototype.set]: a present key keeps its place. *)
Fixpoint map_set (k v : value) (m : list (value * value))
  : list (value * value) :=
  match m with
  | [] => [(k, v)]
  | (k', v') :: rest =>
      if value_eqb k k' then (k', v) :: rest else (k', v') :: map_set k v rest
  end.

(** [addReel(reelData)]: the method has no [return] with a value, so every
    call evaluates to [undefined]. *)
Definition addReel (reelData : value) (c : t) : value * t :=
  if negb (truthy reelData) || negb (truthy (get reelData "post_id")) then
    (VUndefined, c)
  else
    let post_id := get reelData "post_id" in
    if negb (map_has post_id (collectedReels c)) then
      (VUndefined,
       mk (map_set post_id reelData (collectedReels c))
          (networkReels c ++ [reelData]))
    else (VUndefined, c).

Definition getReel (postId : value) (c : t) : value :=
  map_get postId (collectedReels c) ||| VNull.

Definition hasReel (postId : value) (c : t) : bool :=
  map_has postId (collectedReels c).

Definition getAllReels (c : t) : list value := map snd (collectedReels c).

Definition getNetworkReels (c : t) : list value := networkReels c.

Definition clear (c : t) : t := mk [] [].

Definition size (c : t) : nat := List.length (collectedReels c).

(** The two mutators, as the operations of a session. *)
Inductive op : Type :=
| AddReel (reelData : value)
| Clear.

Definition step (c : t) (o : op) : t :=
  match o with
  | AddReel reelData => snd (addReel reelData c)
  | Clear => clear c
  end.

Definition run (ops : list op) (c : t) : t := fold_left step ops c.

End ReelCollector.

(** ** Node-side state shared by the interceptor and the handler *)

Module Storage.
Import JS.

(** The two append-only files the interception path writes: every relayed
    packet as received, queued for saving, and every media object handed
    to the extractor.  Both writers catch their own errors and return
    nothing.  [appendErrors] scripts the calls of [fs.appendFileSync] on
    the media file that are still to come: [true] stands for a call that
    raises; once the script is used up the calls succeed. *)
Record t : Type := mk {
  rawInterceptedPackets : list value;
  mediaPackets : list (value * value * value);
  appendErrors : list bool
}.

Definition saveRawInterceptedPacket (interceptedData : value) (s : t) : t :=
  mk (rawInterceptedPackets s ++ [interceptedData]) (mediaPackets s)
     (appendErrors s).

(** [saveRawPacket(persona, url, method, rawData)]: the packet is
    appended to the media file inside a [try]; when the append raises,
    the [catch] logs the error and the file is as it was. *)
Definition saveRawPacket (url method rawData : value) (s : t) : t :=
  match appendErrors s with
  | true :: rest => mk (rawInterceptedPackets s) (mediaPackets s) rest
  | false :: rest =>
      mk (rawInterceptedPackets s) (mediaPackets s ++ [(url, method, rawData)])
         rest
  | [] =>
      mk (rawInterceptedPackets s) (mediaPackets s ++ [(url, method, rawData)])
         []
  end.

End Storage.

Module Node.
Import JS.

(** What the callback of the interceptor can reach: the storage (or
    [null]), the collector of the session (or [null]) and whether a
    GraphQL handler is attached. *)
Record t : Type := mk {
  storage : option Storage.t;
  reelCollector : option ReelCollector.t;
  graphqlHandler : bool
}.

(** [if (this.storage) this.storage.saveRawPacket(...)] *)
Definition saveRawPacket (url method rawData : value) (n : t) : t :=
  match storage n with
  | Some s =>
      mk (Some (Storage.saveRawPacket url method rawData s))
         (reelCollector n) (graphqlHandler n)
  | None => n
  end.

(** [if (this.reelCollector) this.reelCollector.addReel(reelData)] *)
Definition addReel (reelData : value) (n : t) : t :=
  match reelCollector n with
  | Some c =>
      mk (storage n) (Some (snd (ReelCollector.addReel reelData c)))
         (graphqlHandler n)
  | None => n
  end.

End Node.

(** ** GraphQLHandler (src/network/graphql-handler.js) *)

Module GraphQLHandler.
Import JS.

(** [obj.__typename === 'XDTMediaDict' || obj.code || obj.shortcode ||
    obj.pk], and then the video-type discriminator. *)
Definition is_media (obj : value) : bool :=
  (value_eqb (get obj "__typename") (VStr "XDTMediaDict")
   || truthy (get obj "code") || truthy (get obj "shortcode")
   || truthy (get obj "pk"))
  && (value_eqb (get obj "product_type") (VStr "clips")
      || value_eqb (get obj "media_type") (VNum 2)).

(** [obj[key]] for every [key in obj]. *)
Definition children (obj : value) : list value :=
  match obj with
  | VObj props => map (fun k => lookup k props) (map fst props)
  | VArr items => items
  | _ => []
  end.

(** [findMediaObjects(obj, depth)] with [fuel = 6 - depth]: the search
    stops when [depth > 5]. *)
Fixpoint findMediaObjects_from (fuel : nat) (obj : value) : list value :=
  match fuel with
  | O => []
  | S fuel' =>
      if negb (truthy obj) || negb (typeof_object obj) then []
      else
        (if is_media obj then [obj] else []) ++
        flat_map
          (fun child =>
             match child with
             | VArr items => flat_map (findMediaObjects_from fuel') items
             | _ =>
                 if truthy child && typeof_object child
                 then findMediaObjects_from fuel' child
                 else []
             end)
          (children obj)
  end.

Definition findMediaObjects (obj : value) (depth : nat) : list value :=
  findMediaObjects_from (6 - depth) obj.

(** Save the raw media object, extract it, and add the record when it has
    a [post_id]. *)
Definition collect (url method media : value) (n : Node.t) : Node.t :=
  let n1 := Node.saveRawPacket url method media n in
  let reelData := GraphQLExtractor.extractReelFromGraphQLItem media in
  if truthy reelData && truthy (get reelData "post_id")
  then Node.addReel reelData n1
  else n1.

(** The loop over the edges of the feed connection.  Reading [edge.node]
    raises on a nullish edge; what was collected before stays. *)
Fixpoint collect_edges (url method : value) (edges : list value) (n : Node.t)
  : result unit * Node.t :=
  match edges with
  | [] => (Ok tt, n)
  | edge :: rest =>
      match get_strict edge "node" with
      | Throw => (Throw, n)
      | Ok node =>
          let media := get node "media" in
          collect_edges url method rest
            (if truthy media then collect url method media n else n)
      end
  end.

Definition processGraphQLResponse (parsedData url method : value) (n : Node.t)
  : result unit * Node.t :=
  let data := get parsedData "data" in
  if negb (truthy parsedData) || negb (truthy data) then (Ok tt, n)
  else if truthy (get data "xdt_api__v1__clips__home__connection_v2") then
    match iterate
            (get (get data "xdt_api__v1__clips__home__connection_v2") "edges"
               ||| VArr []) with
    | Throw => (Throw, n)
    | Ok edges => collect_edges url method edges n
    end
  else if truthy (get data "xdt_shortcode_media")
          || truthy (get data "shortcode_media") then
    let mediaItem := get data "xdt_shortcode_media" ||| get data "shortcode_media" in
    let n1 := if truthy mediaItem
              then Node.saveRawPacket url method mediaItem n else n in
    let reelData := GraphQLExtractor.extractReelFromGraphQL parsedData in
    (Ok tt,
     if truthy reelData && truthy (get reelData "post_id")
     then Node.addReel reelData n1 else n1)
  else if truthy data && typeof_object data then
    (Ok tt, fold_left (fun n' media => collect url method media n')
              (findMediaObjects data 0) n)
  else (Ok tt, n).

End GraphQLHandler.

(** ** NetworkInterceptor: the [sendDataToNode] callback *)

Module NetworkInterceptor.
Import JS.

(** The two built-ins of the platform the callback relies on.
    [JSON_parse] raises a SyntaxError on text that is not JSON;
    [JSON_stringify] yields [undefined] for a value without a JSON
    form. *)
Class Json : Type := {
  JSON_parse : string -> result value;
  JSON_stringify : value -> option string
}.

Definition prefix : string := "for (;;);".

(** [cleanData.replace(/^for \(;;\);\s*/, '')] when [cleanData] starts
    with the prefix. *)
Definition strip_prefix (cleanData : string) : string :=
  if startsWith prefix cleanData
  then skip_spaces (drop (String.length prefix) cleanData)
  else cleanData.

(** The inner [try] block.  [undefined.startsWith] raises. *)
Definition process_body `{Json} (url method data : value) (n : Node.t)
  : result unit * Node.t :=
  let cleanData :=
    match data with
    | VStr s => Some s
    | _ => JSON_stringify data
    end in
  match cleanData with
  | None => (Throw, n)
  | Some text =>
      match JSON_parse (strip_prefix text) with
      | Throw => (Throw, n)
      | Ok parsedData =>
          if negb (truthy parsedData) || negb (truthy (get parsedData "data"))
          then (Ok tt, n)
          else if Node.graphqlHandler n
               then GraphQLHandler.processGraphQLResponse parsedData url method n
               else (Ok tt, n)
      end
  end.

(** The callback exposed to the page.  Destructuring a nullish argument
    and calling [substring] on a [url] that is not a string raise inside
    the outer [try]; the inner [catch] absorbs whatever the body raises.
    The raw packet is queued for saving before anything else happens. *)
Definition sendDataToNode `{Json} (interceptedData : value) (n : Node.t)
  : result unit * Node.t :=
  if nullish interceptedData then (Ok tt, n)
  else
    let url := get interceptedData "url" in
    let method := get interceptedData "method" in
    let data := get interceptedData "data" in
    let n1 :=
      match Node.storage n with
      | Some s =>
          if truthy data
          then Node.mk (Some (Storage.saveRawInterceptedPacket interceptedData s))
                 (Node.reelCollector n) (Node.graphqlHandler n)
          else n
      | None => n
      end in
    match url with
    | VStr u =>
        if includes "/graphql/query" u && value_eqb method (VStr "POST") then
          match process_body url method data n1 with
          | (_, n2) => (Ok tt, n2)
          end
        else (Ok tt, n1)
    | _ => (Ok tt, n1)
    end.

(** A packet as the page sends it. *)
Definition packet (url method body : string) : value :=
  VObj [("url", VStr url); ("method", VStr method); ("data", VStr body);
        ("contentType", VStr "application/json")].

End NetworkInterceptor.

(** ** ReelDataTransformer (src/extraction/reel-data-transformer.js) *)

Module ReelDataTransformer.
Import JS.

(** [transform(reelData, source)]; [now] is [new Date().toISOString()]. *)
Definition transform (now : string) (reelData : value) (source : string)
  : value :=
  if negb (truthy reelData) then VNull
  else
    VObj [ ("post_id", get reelData "post_id" ||| VNull);
           ("author_username", get reelData "author_username" ||| VNull);
           ("caption", get reelData "caption" ||| VNull);
           ("hashtags",
              if isArray (get reelData "hashtags")
              then get reelData "hashtags" else VArr []);
           ("hashtag_metadata",
              if isArray (get reelData "hashtag_metadata")
              then get reelData "hashtag_metadata" else VArr []);
           ("likes_count", parseInt_or_0 (get reelData "likes_count"));
           ("comments_count", parseInt_or_0 (get reelData "comments_count"));
           ("view_count", parseInt_or_0 (get reelData "view_count"));
           ("media_type", get reelData "media_type" ||| VStr "reel");
           ("video_url", get reelData "video_url" ||| VNull);
           ("thumbnail_url", get reelData "thumbnail_url" ||| VNull);
           ("created_at", get reelData "created_at" ||| VNull);
           ("screenshot_path", get reelData "screenshot_path" ||| VStr EmptyString);
           ("source", VStr source);
           ("extracted_at", VStr now) ].

(** Own enumerable properties copied by an object spread.  An array or a
    string would contribute properties named by indices only, which
    [transform] never reads; they are left out. *)
Definition own_props (v : value) : list (string * value) :=
  match v with
  | VObj props => props
  | _ => []
  end.

(** Definition of a property on the object under construction. *)
Fixpoint define (k : string) (v : value) (props : list (string * value))
  : list (string * value) :=
  match props with
  | [] => [(k, v)]
  | (k', v') :: rest =>
      if String.eqb k k' then (k', v) :: rest else (k', v') :: define k v rest
  end.

Definition spread (src : value) (props : list (string * value))
  : list (string * value) :=
  fold_left (fun acc kv => define (fst kv) (lookup (fst kv) (own_props src)) acc)
    (own_props src) props.

(** [validate(reelData)]; [typeof x === 'number'] *)
Definition is_number (v : value) : bool :=
  match v with VNum _ => true | _ => false end.

Definition validate (reelData : value) : bool :=
  truthy reelData
  && truthy (get reelData "post_id")
  && is_number (get reelData "likes_count")
  && is_number (get reelData "comments_count")
  && is_number (get reelData "view_count").

End ReelDataTransformer.

(** ** DOMExtractor (src/extraction/dom-extractor.js) *)

Module DOMExtractor.
Import JS.

(** [extractReelData(page)], on the Node side.  [evaluated] is the outcome
    of the script that reads the record off the page, [evaluatedTags] the
    outcome of the one [HashtagExtractor.extractFromDOM] runs.  Whatever
    raises on the way is caught and gives [null]. *)
Definition extractReelData (evaluated evaluatedTags : result value) : value :=
  match evaluated with
  | Throw => VNull
  | Ok domData =>
      if negb (truthy domData) then VNull
      else
        let domHashtags := HashtagExtractor.extractFromDOM evaluatedTags in
        match get_strict domHashtags "hashtags" with
        | Throw => VNull
        | Ok tags =>
            let captionHashtags :=
              if truthy (get domData "caption")
              then HashtagExtractor.extractFromText (get domData "caption")
              else [] in
            match HashtagExtractor.merge
                    [ VObj [("hashtags", tags);
                            ("metadata", get domHashtags "metadata")];
                      VObj [("hashtags", VArr captionHashtags);
                            ("metadata", VArr [])] ] with
            | Throw => VNull
            | Ok allHashtags =>
                VObj (ReelDataTransformer.define "hashtag_metadata"
                        (get allHashtags "metadata")
                        (ReelDataTransformer.define "hashtags"
                           (get allHashtags "hashtags")
                           (ReelDataTransformer.spread domData [])))
            end
        end
  end.

End DOMExtractor.

(** ** ReelNavigator (src/browser/reel-navigator.js) *)

Module ReelNavigator.
Import JS.

(** The Puppeteer page the navigator is constructed with.  Every call may
    change the world and may raise; [page_url] only reads.  [swipe_up] is
    the mouse gesture of [navigateWithSwipe] (move, down, move in ten
    steps, up, with its two short delays) on a bounding box.  Logging,
    including [logCurrentSite], which catches its own errors, leaves the
    world as it is and is not represented. *)
Class Page : Type := {
  World : Type;
  ElementHandle : Type;
  BoundingBox : Type;
  page_url : World -> result string;
  page_focus : string -> World -> result unit * World;
  keyboard_press : string -> World -> result unit * World;
  page_query : string -> World -> result (option ElementHandle) * World;
  scrollIntoView : ElementHandle -> World -> result unit * World;
  click : ElementHandle -> World -> result unit * World;
  boundingBox : ElementHandle -> World -> result (option BoundingBox) * World;
  swipe_up : BoundingBox -> World -> result unit * World;
  randomDelay : Z -> Z -> World -> World
}.

(** *** State and exception monad over the world *)

Section Monad.
Context `{Page}.

Definition M (A : Type) : Type := World -> result A * World.

Definition ret {A} (a : A) : M A := fun w => (Ok a, w).

Definition bind {A B} (m : M A) (k : A -> M B) : M B :=
  fun w =>
    match m w with
    | (Ok a, w') => k a w'
    | (Throw, w') => (Throw, w')
    end.

(** [try { m } catch (e) { h }] *)
Definition try_catch {A} (m : M A) (h : M A) : M A :=
  fun w =>
    match m w with
    | (Ok a, w') => (Ok a, w')
    | (Throw, w') => h w'
    end.

Definition delay (min max : Z) : M unit := fun w => (Ok tt, randomDelay min max w).

(** [if (c) await randomDelay(min, max)] *)
Definition delay_if (c : bool) (min max : Z) : M unit :=
  if c then delay min max else ret tt.

End Monad.

Notation "x <- m ;; k" := (bind m (fun x => k))
  (at level 61, m at next level, right associativity).
Notation "m ;;; k" := (bind m (fun _ => k))
  (at level 61, right associativity).

(** *** The current reel id *)

Definition is_id_char (c : ascii) : bool :=
  negb (Ascii.eqb c "/"%char) && negb (Ascii.eqb c "?"%char).

(** Longest prefix matching [[^\/\?]*]. *)
Fixpoint id_prefix (s : string) : string :=
  match s with
  | String c rest => if is_id_char c then String c (id_prefix rest) else EmptyString
  | EmptyString => EmptyString
  end.

Definition nonempty (s : string) : option string :=
  match s with
  | EmptyString => None
  | _ => Some s
  end.

(** A match of [\/(?:reels?)\/([^\/\?]+)] anchored at the start of [s]. *)
Definition reel_id_here (s : string) : option string :=
  if startsWith "/reels/" s then nonempty (id_prefix (drop 7 s))
  else if startsWith "/reel/" s then nonempty (id_prefix (drop 6 s))
  else None.

(** [url.match(/\/(?:reels?)\/([^\/\?]+)/)]: the leftmost match. *)
Fixpoint reel_id_of (url : string) : option string :=
  match reel_id_here url with
  | Some id => Some id
  | None =>
      match url with
      | String _ rest => reel_id_of rest
      | EmptyString => None
      end
  end.

Section Navigator.
Context `{Page}.

(** [getCurrentReelId()] *)
Definition getCurrentReelId : M (option string) :=
  fun w =>
    match page_url w with
    | Ok url => (Ok (reel_id_of url), w)
    | Throw => (Ok None, w)
    end.

(** [currentUrl.match(/\/reels\/[^\/]+/)] finds a match. *)
Fixpoint matches_reels_path (url : string) : bool :=
  (startsWith "/reels/" url
   && match drop 7 url with
      | String c _ => negb (Ascii.eqb c "/"%char)
      | EmptyString => false
      end)
  || match url with
     | String _ rest => matches_reels_path rest
     | EmptyString => false
     end.

(** The condition of [isOnReelPage], as the truth value the caller
    tests. *)
Definition on_reel_page (currentUrl : string) : bool :=
  includes "instagram.com" currentUrl
  && (includes "/reel/" currentUrl
      || (includes "/reels/" currentUrl && matches_reels_path currentUrl)).

(** [isOnReelPage()] *)
Definition isOnReelPage : M bool :=
  fun w =>
    match page_url w with
    | Ok currentUrl => (Ok (on_reel_page currentUrl), w)
    | Throw => (Ok false, w)
    end.

(** *** verifyNavigation *)

Definition checkInterval : Z := 300.

(** Number of passes through [while (waitedTime < maxWaitTime)] that are
    still to come when the counter stands at [waitedTime]. *)
Definition polls_left (maxWaitTime waitedTime : Z) : nat :=
  Z.to_nat ((maxWaitTime - waitedTime + checkInterval - 1) / checkInterval).

(** [newReelId && newReelId !== currentReelId] *)
Definition changed (currentReelId : string) (newReelId : option string) : bool :=
  match newReelId with
  | Some id => negb (String.eqb id currentReelId)
  | None => false
  end.

(** The video check of one pass; an error of the query is ignored.  The
    bound is an integer number of milliseconds, and
    [waitedTime > maxWaitTime * 0.7] is decided on the rounded product,
    as the code computes it. *)
Definition video_accepts (maxWaitTime waitedTime : Z) : M bool :=
  try_catch
    (videoEl <- page_query "video[src], video[srcset]" ;;
     ret (match videoEl with
          | Some _ => (2000 <? waitedTime) && gt_times_0_7 waitedTime maxWaitTime
          | None => false
          end))
    (ret false).

(** One pass of the loop, entered with the counter at [waitedTime]:
    whether it returns [true]. *)
Definition poll (currentReelId : string) (maxWaitTime waitedTime : Z) : M bool :=
  delay checkInterval (checkInterval + 100) ;;;
  newReelId <- getCurrentReelId ;;
  if changed currentReelId newReelId then ret true
  else video_accepts maxWaitTime (waitedTime + checkInterval).

Fixpoint verify_polls (n : nat) (currentReelId : string)
    (maxWaitTime waitedTime : Z) : M bool :=
  match n with
  | O => ret false
  | S n' =>
      accepted <- poll currentReelId maxWaitTime waitedTime ;;
      if accepted then ret true
      else verify_polls n' currentReelId maxWaitTime (waitedTime + checkInterval)
  end.

Definition verifyNavigation (currentReelId : string) (maxWaitTime : Z) : M bool :=
  verify_polls (polls_left maxWaitTime 0) currentReelId maxWaitTime 0.

Definition defaultMaxWaitTime : Z := 8000.

(** *** The five strategies *)

(** One attempt of a key strategy: the body of the [try]. [Some true] is
    [return true]; [None] falls through to the next attempt. *)
Definition key_attempt (key : string) (currentReelId : string)
    (attempt maxRetries : nat) : M (option bool) :=
  try_catch
    (page_focus "body" ;;;
     delay 100 200 ;;;
     keyboard_press key ;;;
     ok <- verifyNavigation currentReelId defaultMaxWaitTime ;;
     if ok then ret (Some true)
     else delay_if (Nat.ltb attempt maxRetries) 1000 2000 ;;; ret None)
    (delay_if (Nat.ltb attempt maxRetries) 1000 2000 ;;; ret None).

(** [for (let attempt = ...; attempt <= maxRetries; attempt++)], with
    [remaining] passes to go. *)
Fixpoint attempts (body : nat -> M (option bool)) (remaining attempt : nat)
  : M bool :=
  match remaining with
  | O => ret false
  | S remaining' =>
      r <- body attempt ;;
      match r with
      | Some b => ret b
      | None => attempts body remaining' (S attempt)
      end
  end.

Definition navigateWithArrowDown (currentReelId : string) (maxRetries : nat)
  : M bool :=
  attempts (fun attempt => key_attempt "ArrowDown" currentReelId attempt maxRetries)
    maxRetries 1.

Definition navigateWithArrowRight (currentReelId : string) (maxRetries : nat)
  : M bool :=
  attempts (fun attempt => key_attempt "ArrowRight" currentReelId attempt maxRetries)
    maxRetries 1.

(** The double quote of the attribute selectors. *)
Definition dq : string := String (ascii_of_nat 34) EmptyString.

(** [aria-label*="text"] *)
Definition aria_label (text : string) : string :=
  String.append "[aria-label*="
    (String.append dq (String.append text (String.append dq "]"))).

Definition buttonSelectors : list string :=
  [ String.append "button" (aria_label "Next");
    String.append "button" (aria_label "next");
    String.append "button" (aria_label "Next reel");
    String.append "button" (aria_label "next reel");
    String.append "svg" (aria_label "Next");
    String.append
      (String.append "div[role=" (String.append dq (String.append "button" (String.append dq "]"))))
      (aria_label "Next") ].

(** The loop over the selector candidates: the first one that resolves
    wins; a query that raises is skipped. *)
Fixpoint find_button (selectors : list string) : M (option ElementHandle) :=
  match selectors with
  | [] => ret None
  | selector :: rest =>
      found <- try_catch (page_query selector) (ret None) ;;
      match found with
      | Some button => ret (Some button)
      | None => find_button rest
      end
  end.

Definition button_attempt (currentReelId : string) (attempt maxRetries : nat)
  : M (option bool) :=
  try_catch
    (nextButton <- find_button buttonSelectors ;;
     clicked <-
       match nextButton with
       | Some button =>
           scrollIntoView button ;;;
           delay 200 400 ;;;
           click button ;;;
           verifyNavigation currentReelId defaultMaxWaitTime
       | None => ret false
       end ;;
     if clicked then ret (Some true)
     else delay_if (Nat.ltb attempt maxRetries) 1500 2500 ;;; ret None)
    (delay_if (Nat.ltb attempt maxRetries) 1500 2500 ;;; ret None).

Definition navigateWithButtonClick (currentReelId : string) (maxRetries : nat)
  : M bool :=
  attempts (fun attempt => button_attempt currentReelId attempt maxRetries)
    maxRetries 1.

Definition navigateWithSwipe (currentReelId : string) : M bool :=
  try_catch
    (videoEl <- page_query "video" ;;
     match videoEl with
     | Some video =>
         box <- boundingBox video ;;
         match box with
         | Some b =>
             swipe_up b ;;;
             verifyNavigation currentReelId defaultMaxWaitTime
         | None => ret false
         end
     | None => ret false
     end)
    (ret false).

Definition navigateWithPageDown (currentReelId : string) : M bool :=
  try_catch
    (page_focus "body" ;;;
     delay 100 200 ;;;
     keyboard_press "PageDown" ;;;
     verifyNavigation currentReelId 6000)
    (ret false).

(** *** navigateToNextReel *)

(** The loop over the strategies: the first one that returns [true] ends
    it; one that raises is logged and the loop goes on. *)
Fixpoint try_strategies (strategies : list (M bool)) : M bool :=
  match strategies with
  | [] => ret false
  | strategy :: rest =>
      success <- try_catch strategy (ret false) ;;
      if success then ret true else try_strategies rest
  end.

Definition strategies_of (currentReelId : string) (maxRetries : nat)
  : list (M bool) :=
  [ navigateWithArrowDown currentReelId maxRetries;
    navigateWithArrowRight currentReelId maxRetries;
    navigateWithButtonClick currentReelId maxRetries;
    navigateWithSwipe currentReelId;
    navigateWithPageDown currentReelId ].

Definition navigateToNextReel (maxRetries : nat) : M bool :=
  currentReelId <- getCurrentReelId ;;
  match currentReelId with
  | None => ret false
  | Some id => try_strategies (strategies_of id maxRetries)
  end.

End Navigator.

End ReelNavigator.

(** ** InstagramReelsScraper.scrapeReelsFeed: the counters of the loop *)

Module Scraper.
Import JS.

Record counters : Type := mk {
  reelsCollected : Z;
  navigationFailures : Z;
  consecutiveNavigationFailures : Z
}.

Definition maxFailures : Z := 5.
Definition maxConsecutiveNavigationFailures : Z := 3.

(** The values the three counters are declared with. *)
Definition initial : counters := mk 0 0 0.

(** The condition of the [while]. *)
Definition continues (reelsToCollect : Z) (c : counters) : bool :=
  (reelsCollected c <? reelsToCollect)
  && (navigationFailures c <? maxFailures)
  && (consecutiveNavigationFailures c <? maxConsecutiveNavigationFailures).

(** What the collaborators answer during one pass of the loop.
    - [isOnReelPage]: the check at the top of the pass;
    - [suspension]: [LoginFlow.checkForSuspension], which may itself
      raise;
    - [recovered]: [navigateToReelsFeed] returned instead of raising;
    - [unsaved]: for each cached reel not yet in [reels], whether there
      is a storage, the reel has a [post_id] and [savePost] stored it;
    - [resolved]: [reelData && reelData.post_id];
    - [seen]: [reels] already holds a record with that [post_id];
    - [saved]: there is a storage and [savePost] stored the current
      record;
    - [navigated], [retryNavigated]: results of [navigateToNextReel(3)]
      and of the retry [navigateToNextReel(5)]. *)
Record events : Type := mkEvents {
  isOnReelPage : bool;
  suspension : result bool;
  recovered : bool;
  unsaved : list bool;
  resolved : bool;
  seen : bool;
  saved : bool;
  navigated : bool;
  retryNavigated : bool
}.

(** The record of the current reel: the cached one when the cache has
    the id read from the URL; otherwise what [DOMExtractor.extractReelData]
    returns, added to the cache when it has a [post_id].  [domData] is the
    outcome of that call, whose error, if any, is caught and leaves
    [reelData] at [null]. *)
Definition resolveReelData (currentReelId : value) (domData : result value)
    (c : ReelCollector.t) : value * ReelCollector.t :=
  if truthy currentReelId && ReelCollector.hasReel currentReelId c then
    (ReelCollector.getReel currentReelId c, c)
  else
    match domData with
    | Throw => (VNull, c)
    | Ok reelData =>
        if truthy reelData && truthy (get reelData "post_id")
        then (reelData, snd (ReelCollector.addReel reelData c))
        else (reelData, c)
    end.

(** The argument of [savePost] for a cached reel of the batch saved ahead
    of the current one, when the call is made: [storage] says whether
    there is a storage, [room] is [reelsCollected < reelsToCollect]. *)
Definition offered_unsaved (storage : bool) (unsavedReel : value) (room : bool)
  : option value :=
  if storage && truthy (get unsavedReel "post_id") && room
  then Some unsavedReel else None.

(** The argument of [savePost] for the current reel, when the call is
    made: [seen] says whether [reels] already holds its [post_id]. *)
Definition offered_current (storage : bool) (reelData : value) (seen : bool)
  : option value :=
  if truthy reelData && truthy (get reelData "post_id") then
    if negb seen then
      if storage then Some reelData else None
    else None
  else None.

(** [baseDelay * Math.pow(2, consecutiveNavigationFailures - 1)], capped
    at [maxDelay]: the delay before the jitter is added. *)
Definition baseDelay : Z := 2000.
Definition maxDelay : Z := 15000.

Definition backoffDelay (consecutiveNavigationFailures : Z) : Z :=
  Z.min (baseDelay * 2 ^ (consecutiveNavigationFailures - 1)) maxDelay.

(** The batch of cached reels saved ahead of the current one. *)
Definition drain (reelsToCollect : Z) (e : events) (c : counters) : counters :=
  let n := Z.of_nat (List.length (unsaved e)) in
  let maxUnsavedToProcess := Z.min 3 (reelsToCollect - reelsCollected c) in
  if (0 <? n) && (n <=? maxUnsavedToProcess) then
    fold_left
      (fun c' stored =>
         if (reelsCollected c' <? reelsToCollect) && stored
         then mk (reelsCollected c' + 1) (navigationFailures c')
                (consecutiveNavigationFailures c')
         else c')
      (unsaved e) c
  else c.

(** Saving the current record. *)
Definition resolve (e : events) (c : counters) : counters :=
  if resolved e then
    if negb (seen e) then
      if saved e then mk (reelsCollected c + 1) 0 0
      else mk (reelsCollected c) 0 (consecutiveNavigationFailures c)
    else c
  else mk (reelsCollected c) (navigationFailures c + 1)
         (consecutiveNavigationFailures c).

(** Advancing to the next reel; the second component is the backoff delay
    when one is computed. *)
Definition advance (reelsToCollect : Z) (e : events) (c : counters)
  : counters * option Z :=
  if reelsCollected c <? reelsToCollect then
    if negb (navigated e) then
      let consecutive := consecutiveNavigationFailures c + 1 in
      let failures := navigationFailures c + 1 in
      if consecutive <? maxConsecutiveNavigationFailures then
        (if retryNavigated e
         then mk (reelsCollected c) (Z.max 0 (failures - 1)) 0
         else mk (reelsCollected c) failures consecutive,
         Some (backoffDelay consecutive))
      else (mk (reelsCollected c) failures consecutive, None)
    else (mk (reelsCollected c) (navigationFailures c) 0, None)
  else (c, None).

(** The [catch] of the pass. *)
Definition on_error (c : counters) : counters :=
  mk (reelsCollected c) (navigationFailures c + 1)
     (consecutiveNavigationFailures c + 1).

(** One pass: the counters after it and whether the loop was left with
    [break].  Off the reel page, a detected suspension is thrown inside
    the [try] of the pass, so it lands in its [catch] like an error of
    the check itself.  On the reel page every collaborator call catches
    its own errors or sits in a [try] of its own, and the pass runs to
    its end. *)
Definition iteration (reelsToCollect : Z) (e : events) (c : counters)
  : counters * bool :=
  if negb (isOnReelPage e) then
    match suspension e with
    | Throw | Ok true => (on_error c, false)
    | Ok false =>
        if recovered e
        then (mk (reelsCollected c) (navigationFailures c)
                (consecutiveNavigationFailures c + 1), false)
        else (mk (reelsCollected c) (navigationFailures c + 1)
                (consecutiveNavigationFailures c), true)
    end
  else
    (fst (advance reelsToCollect e (resolve e (drain reelsToCollect e c))), false).

(** The backoff delay (before jitter) the pass waits for, when it comes
    to computing one. *)
Definition backoff (reelsToCollect : Z) (e : events) (c : counters)
  : option Z :=
  if negb (isOnReelPage e) then None
  else snd (advance reelsToCollect e (resolve e (drain reelsToCollect e c))).

(** The loop over the passes of a session: the state is the counters and
    whether the loop is still running. *)
Definition pass (reelsToCollect : Z) (st : counters * bool) (e : events)
  : counters * bool :=
  let (c, running) := st in
  if running && continues reelsToCollect c then
    let (c', broke) := iteration reelsToCollect e c in (c', negb broke)
  else (c, false).

Definition run (reelsToCollect : Z) (es : list events) : counters * bool :=
  fold_left (pass reelsToCollect) es (initial, true).

(** The check made before the loop: the page already shows a reel. *)
Definition isAlreadyOnReel (currentUrl : string) : bool :=
  includes "/reel/" currentUrl
  || (includes "/reels/" currentUrl
      && negb (String.eqb currentUrl "https://www.instagram.com/reels/")).

End Scraper.

(** ** InstagramReelsScraper.scrapeReelsFeed: the records of the loop *)

Module Session.
Import JS.

(** What one pass of the loop meets.
    - [answers]: what the page and the navigator answer, as in
      [Scraper.events]; the pass reads [isOnReelPage], [suspension],
      [recovered], [navigated] and [retryNavigated] of it, the records
      below decide the rest;
    - [arrived]: the records the interceptor has handed to [addReel]
      since the pass before consulted the cache;
    - [currentReelId]: what [getCurrentReelId] returns, a string or
      [null];
    - [arrivedLate]: the records handed to [addReel] while the fallback
      [DOMExtractor.extractReelData] is awaited;
    - [domData]: the outcome of that fallback. *)
Record inputs : Type := mkInputs {
  answers : Scraper.events;
  arrived : list value;
  currentReelId : value;
  arrivedLate : list value;
  domData : result value
}.

Definition post_id (reelData : value) : value := get reelData "post_id".

(** The calls of [addReel] made by the interceptor. *)
Definition interceptor_adds (records : list value) (c : ReelCollector.t)
  : ReelCollector.t :=
  fold_left (fun c' reelData => snd (ReelCollector.addReel reelData c')) records c.

(** The record of the current reel, from the cache or from the page. *)
Definition resolve (i : inputs) (c : ReelCollector.t) : value * ReelCollector.t :=
  if truthy (currentReelId i) && ReelCollector.hasReel (currentReelId i) c then
    (ReelCollector.getReel (currentReelId i) c, c)
  else
    let c' := interceptor_adds (arrivedLate i) c in
    match domData i with
    | Throw => (VNull, c')
    | Ok reelData =>
        if truthy reelData && truthy (post_id reelData)
        then (reelData, snd (ReelCollector.addReel reelData c'))
        else (reelData, c')
    end.

Section Records.

(** The CSV storage of the session.  [savePost] checks for a duplicate,
    appends the row and catches its own errors: it answers whether the
    record was stored. *)
Variable Store : Type.
Variable savePost : value -> Store -> bool * Store.

(** The variables of the loop.  The list [reels] is carried as the
    [post_id] of each of its records, in order: the pass reads nothing
    else of them.  The [screenshot_path] the pass writes into the current
    record changes no [post_id] and is not represented. *)
Record state : Type := mkState {
  reels : list value;
  counters : Scraper.counters;
  reelCollector : ReelCollector.t;
  storage : option Store
}.

Definition with_counters (st : state) (c : Scraper.counters) : state :=
  mkState (reels st) c (reelCollector st) (storage st).

Definition with_collector (st : state) (c : ReelCollector.t) : state :=
  mkState (reels st) (counters st) c (storage st).

(** The cached reels without a record in [reels]. *)
Definition unsavedReels (reels : list value) (c : ReelCollector.t) : list value :=
  filter (fun capturedReel => negb (mem (post_id capturedReel) reels))
    (ReelCollector.getAllReels c).

(** Body of the loop over the unsaved reels. *)
Definition save_unsaved (reelsToCollect : Z) (st : state) (unsavedReel : value)
  : state :=
  match storage st with
  | Some s =>
      if truthy (post_id unsavedReel)
         && (Scraper.reelsCollected (counters st) <? reelsToCollect)
      then
        let (saved, s') := savePost unsavedReel s in
        if saved then
          mkState (reels st ++ [post_id unsavedReel])
            (Scraper.mk (Scraper.reelsCollected (counters st) + 1)
               (Scraper.navigationFailures (counters st))
               (Scraper.consecutiveNavigationFailures (counters st)))
            (reelCollector st) (Some s')
        else mkState (reels st) (counters st) (reelCollector st) (Some s')
      else st
  | None => st
  end.

(** The batch of cached reels saved ahead of the current one. *)
Definition drain (reelsToCollect : Z) (st : state) : state :=
  if Nat.ltb 0 (ReelCollector.size (reelCollector st))
     && (Scraper.reelsCollected (counters st) <? reelsToCollect)
  then
    let unsaved := unsavedReels (reels st) (reelCollector st) in
    let maxUnsavedToProcess :=
      Z.min 3 (reelsToCollect - Scraper.reelsCollected (counters st)) in
    if (0 <? Z.of_nat (List.length unsaved))
       && (Z.of_nat (List.length unsaved) <=? maxUnsavedToProcess)
    then fold_left (save_unsaved reelsToCollect) unsaved st
    else st
  else st.

(** Collecting and saving the current record. *)
Definition save_current (reelData : value) (st : state) : state :=
  if truthy reelData && truthy (post_id reelData) then
    if negb (mem (post_id reelData) (reels st)) then
      let reels' := reels st ++ [post_id reelData] in
      match storage st with
      | Some s =>
          let (saved, s') := savePost reelData s in
          if saved then
            mkState reels'
              (Scraper.mk (Scraper.reelsCollected (counters st) + 1) 0 0)
              (reelCollector st) (Some s')
          else
            mkState reels'
              (Scraper.mk (Scraper.reelsCollected (counters st)) 0
                 (Scraper.consecutiveNavigationFailures (counters st)))
              (reelCollector st) (Some s')
      | None =>
          mkState reels'
            (Scraper.mk (Scraper.reelsCollected (counters st)) 0
               (Scraper.consecutiveNavigationFailures (counters st)))
            (reelCollector st) None
      end
    else st
  else
    with_counters st
      (Scraper.mk (Scraper.reelsCollected (counters st))
         (Scraper.navigationFailures (counters st) + 1)
         (Scraper.consecutiveNavigationFailures (counters st))).

(** One pass: the variables after it and whether the loop was left with
    [break].  As in [Scraper.iteration], on the reel page every
    collaborator call catches its own errors or sits in a [try] of its
    own (the persona of the session being an object, the engagement
    calls do not raise), and the pass runs to its end. *)
Definition iteration (reelsToCollect : Z) (i : inputs) (st : state)
  : state * bool :=
  let st0 :=
    with_collector st (interceptor_adds (arrived i) (reelCollector st)) in
  let c := counters st0 in
  if negb (Scraper.isOnReelPage (answers i)) then
    match Scraper.suspension (answers i) with
    | Throw | Ok true => (with_counters st0 (Scraper.on_error c), false)
    | Ok false =>
        if Scraper.recovered (answers i)
        then (with_counters st0
                (Scraper.mk (Scraper.reelsCollected c)
                   (Scraper.navigationFailures c)
                   (Scraper.consecutiveNavigationFailures c + 1)), false)
        else (with_counters st0
                (Scraper.mk (Scraper.reelsCollected c)
                   (Scraper.navigationFailures c + 1)
                   (Scraper.consecutiveNavigationFailures c)), true)
    end
  else
    let (reelData, c1) := resolve i (reelCollector st0) in
    let st1 :=
      save_current reelData (drain reelsToCollect (with_collector st0 c1)) in
    (with_counters st1
       (fst (Scraper.advance reelsToCollect (answers i) (counters st1))),
     false).

Definition pass (reelsToCollect : Z) (st : state * bool) (i : inputs)
  : state * bool :=
  let (s, running) := st in
  if running && Scraper.continues reelsToCollect (counters s) then
    let (s', broke) := iteration reelsToCollect i s in (s', negb broke)
  else (s, false).

(** The loop from its start: [reels] empty, the counters at 0 and the
    cache cleared. *)
Definition run (reelsToCollect : Z) (storage0 : option Store)
    (passes : list inputs) : state * bool :=
  fold_left (pass reelsToCollect) passes
    (mkState [] Scraper.initial ReelCollector.empty storage0, true).

End Records.

Arguments mkState {Store}.
Arguments reels {Store}.
Arguments counters {Store}.
Arguments reelCollector {Store}.
Arguments storage {Store}.
Arguments with_counters {Store}.
Arguments with_collector {Store}.
Arguments save_unsaved {Store}.
Arguments drain {Store}.
Arguments save_current {Store}.
Arguments iteration {Store}.
Arguments pass {Store}.
Arguments run {Store}.

End Session.

(** ** CSVStorage: the cells of a row *)

Module CSVStorage.
Import JS.

Definition CR : ascii := ascii_of_nat 13.
Definition LF : ascii := ascii_of_nat 10.
Definition quote : ascii := ascii_of_nat 34.

(** [str.replace(/\r\n/g, ' ')] *)
Fixpoint replace_crlf (str : string) : string :=
  match str with
  | EmptyString => EmptyString
  | String c rest =>
      match rest with
      | String d rest' =>
          if Ascii.eqb c CR && Ascii.eqb d LF
          then String " " (replace_crlf rest')
          else String c (replace_crlf rest)
      | EmptyString => String c EmptyString
      end
  end.

(** [str.replace(/c/g, replacement)] for a single character [c]. *)
Fixpoint replace_all (c : ascii) (replacement : string) (str : string)
  : string :=
  match str with
  | EmptyString => EmptyString
  | String x rest =>
      if Ascii.eqb x c
      then String.append replacement (replace_all c replacement rest)
      else String x (replace_all c replacement rest)
  end.

(** [str.replace(/\s+/g, ' ')]: [inRun] says that the character before
    was matched by [\s]. *)
Fixpoint collapse_spaces (inRun : bool) (str : string) : string :=
  match str with
  | EmptyString => EmptyString
  | String c rest =>
      if is_space c then
        if inRun then collapse_spaces true rest
        else String " " (collapse_spaces true rest)
      else String c (collapse_spaces false rest)
  end.

(** The text of a cell before it is quoted. *)
Definition normalized (str : string) : string :=
  trim (collapse_spaces false
          (replace_all LF " " (replace_all CR " " (replace_crlf str)))).

Definition dq : string := String quote EmptyString.

(** The last step of [escapeCSV]. *)
Definition quoted (str : string) : string :=
  if includes "," str || includes dq str
  then String.append dq
         (String.append (replace_all quote (String.append dq dq) str) dq)
  else str.

(** [escapeCSV(field)] *)
Definition escapeCSV (field : value) : string :=
  if nullish field then EmptyString
  else quoted (normalized (toString field)).

(** The loop of [parseCSVLine] over the characters still to read. *)
Fixpoint parse_from (line current : string) (inQuotes : bool)
    (result : list string) : list string :=
  match line with
  | EmptyString => result ++ [current]
  | String char rest =>
      if Ascii.eqb char quote then
        if inQuotes then
          match rest with
          | String nextChar rest' =>
              if Ascii.eqb nextChar quote
              then parse_from rest' (String.append current dq) inQuotes result
              else parse_from rest current (negb inQuotes) result
          | EmptyString => parse_from rest current (negb inQuotes) result
          end
        else parse_from rest current (negb inQuotes) result
      else if Ascii.eqb char ","%char && negb inQuotes then
        parse_from rest EmptyString inQuotes (result ++ [current])
      else
        parse_from rest (String.append current (String char EmptyString))
          inQuotes result
  end.

(** [parseCSVLine(line)] *)
Definition parseCSVLine (line : string) : list string :=
  parse_from line EmptyString false [].

(** The first ten cells of the row [savePost] appends for [postData]:
    the timestamp [now] (an ISO date), the five cells of the persona,
    the feed type, and the id, author and caption of the post.  The cells
    that follow are joined to them by commas. *)
Definition row_head (now : string) (persona feedType postData : value)
  : list string :=
  [ now;
    escapeCSV (get persona "persona_id" ||| VStr "unknown");
    escapeCSV (get (get persona "demographics") "gender"
                 ||| get persona "gender" ||| VStr "unknown");
    escapeCSV (get (get persona "demographics") "age"
                 ||| get persona "age" ||| VStr "unknown");
    escapeCSV (get persona "region" ||| VStr "unknown");
    escapeCSV (get persona "political_spectrum" ||| VStr "unknown");
    escapeCSV feedType;
    escapeCSV (get postData "post_id" ||| VStr EmptyString);
    escapeCSV (get postData "author_username" ||| VStr EmptyString);
    escapeCSV (get postData "caption" ||| VStr EmptyString) ].

(** The id [getExistingPostIds] takes from one data line: the cell at
    index 7, or at index 5 for a line of the older schema, trimmed, when
    it is not empty. *)
Definition line_post_id (line : string) : option string :=
  let parts := parseCSVLine line in
  let postId :=
    if Nat.leb 8 (List.length parts) then Some (nth 7 parts EmptyString)
    else if Nat.leb 6 (List.length parts) then Some (nth 5 parts EmptyString)
    else None in
  match postId with
  | Some p =>
      if negb (String.eqb p EmptyString)
         && negb (String.eqb (trim p) EmptyString)
      then Some (trim p) else None
  | None => None
  end.

End CSVStorage.

(** * Reference definitions and sample data *)

(** ** What the dedup cache is expected to hold *)

Module CollectorSpec.
Import JS.

Definition post_id (reelData : value) : value := get reelData "post_id".

(** A record [addReel] does not ignore. *)
Definition admissible (reelData : value) : bool :=
  truthy reelData && truthy (post_id reelData).

(** The arguments of the [addReel] calls made since the last [clear]. *)
Definition since_clear (ops : list ReelCollector.op) : list value :=
  fold_left
    (fun adds o =>
       match o with
       | ReelCollector.AddReel reelData => adds ++ [reelData]
       | ReelCollector.Clear => []
       end)
    ops [].

(** The records passed to [addReel] carry ids that a [Map] compares by
    value. *)
Definition primitive_ids (ops : list ReelCollector.op) : Prop :=
  Forall
    (fun o =>
       match o with
       | ReelCollector.AddReel reelData => primitive (post_id reelData) = true
       | ReelCollector.Clear => True
       end)
    ops.

(** The admissible records of [adds] whose [post_id] was not added
    before, in the order they were added; [seen] holds the ids already
    met. *)
Fixpoint firsts_from (seen : list value) (adds : list value) : list value :=
  match adds with
  | [] => []
  | r :: rest =>
      if admissible r && negb (mem (post_id r) seen)
      then r :: firsts_from (seen ++ [post_id r]) rest
      else firsts_from seen rest
  end.

Definition firsts (adds : list value) : list value := firsts_from [] adds.

(** The first admissible record of [adds] with the id [k]. *)
Fixpoint first_added (k : value) (adds : list value) : option value :=
  match adds with
  | [] => None
  | r :: rest =>
      if admissible r && value_eqb k (post_id r) then Some r
      else first_added k rest
  end.

(** Number of entries of the cache stored under the id [k]. *)
Definition entries_for (k : value) (c : ReelCollector.t) : nat :=
  List.length
    (filter (fun e => value_eqb k (fst e)) (ReelCollector.collectedReels c)).

Definition listed_for (k : value) (c : ReelCollector.t) : nat :=
  List.length
    (filter (fun r => value_eqb k (post_id r)) (ReelCollector.networkReels c)).

(** A non-negative integer count. *)
Definition is_count (v : value) : bool :=
  match v with
  | VNum n => 0 <=? n
  | _ => false
  end.

(** The validity invariant of the specification on a cached record. *)
Definition valid_record (r : value) : bool :=
  truthy (post_id r)
  && is_count (get r "likes_count")
  && is_count (get r "comments_count")
  && is_count (get r "view_count").

(** Every cached record carries an id. *)
Definition all_have_id (c : ReelCollector.t) : Prop :=
  Forall (fun r => truthy (post_id r) = true) (ReelCollector.getAllReels c)
  /\ Forall (fun r => truthy (post_id r) = true) (ReelCollector.networkReels c).

End CollectorSpec.

(** ** Sample records and payloads *)

Module Samples.
Import JS.

Definition reel (id : string) (likes : Z) : value :=
  VObj [("post_id", VStr id); ("likes_count", VNum likes)].

(** A media item as the platform sends it. *)
Definition item (code : string) : value :=
  VObj [("code", VStr code); ("product_type", VStr "clips")].

Definition item_negative_likes : value :=
  VObj [("shortcode", VStr "X"); ("like_count", VNum (-5))].

Definition single (media : value) : value :=
  VObj [("data", VObj [("shortcode_media", media)])].

Definition feed (medias : list value) : value :=
  VObj [("data",
         VObj [("xdt_api__v1__clips__home__connection_v2",
                VObj [("edges",
                       VArr (map (fun m => VObj [("node", VObj [("media", m)])])
                               medias))])])].

Definition bare_items (media : value) : value := VObj [("items", VArr [media])].

(** [item] below the keys of [path], outermost first. *)
Definition nest (path : list string) (media : value) : value :=
  fold_right (fun k v => VObj [(k, v)]) media path.

(** An unrecognized shape: the item two objects below [data]. *)
Definition drifted (media : value) : value :=
  VObj [("data", nest ["xdt_viewer"; "timeline"] media)].

(** The item six objects below [data]. *)
Definition buried (media : value) : value :=
  VObj [("data", nest ["a"; "b"; "c"; "d"; "e"; "f"] media)].

(** An item with the id X whose tag array holds [null]. *)
Definition item_null_tag : value :=
  VObj [("shortcode", VStr "X"); ("hashtags", VArr [VNull])].

(** A feed connection whose first edge is [null]. *)
Definition feed_null_edge (media : value) : value :=
  VObj [("data",
         VObj [("xdt_api__v1__clips__home__connection_v2",
                VObj [("edges",
                       VArr [VNull;
                             VObj [("node", VObj [("media", media)])]])])])].

Definition graphql_url : value :=
  VStr "https://www.instagram.com/graphql/query".

Definition fresh_node : Node.t :=
  Node.mk (Some (Storage.mk [] [] [])) (Some ReelCollector.empty) true.

End Samples.

(** ** What holds of the node-side state *)

Module PipelineSpec.
Import JS.

(** Every record of the cache of the node carries an id. *)
Definition node_ok (n : Node.t) : Prop :=
  match Node.reelCollector n with
  | Some c => CollectorSpec.all_have_id c
  | None => True
  end.

(** The cache of the node, when there is one. *)
Definition cache (n : Node.t) : ReelCollector.t :=
  match Node.reelCollector n with
  | Some c => c
  | None => ReelCollector.empty
  end.

(** What a packet leaves behind apart from its own raw copy: the cache
    and the media objects handed to the extractor. *)
Definition records (n : Node.t)
  : option ReelCollector.t * option (list (value * value * value)) :=
  (Node.reelCollector n, option_map Storage.mediaPackets (Node.storage n)).

End PipelineSpec.

(** ** What the shape parser is expected to yield *)

Module ParserSpec.
Import JS.

(** The identifier of a media item: [shortcode], else [code]. *)
Definition item_id (item : value) : value :=
  get item "shortcode" ||| get item "code".

(** The video-type discriminator the deep search looks for. *)
Definition discriminated (item : value) : bool :=
  value_eqb (get item "product_type") (VStr "clips")
  || value_eqb (get item "media_type") (VNum 2).

(** Every entry of the cache is stored under the id of its record. *)
Definition keyed (c : ReelCollector.t) : Prop :=
  Forall (fun e => fst e = CollectorSpec.post_id (snd e))
    (ReelCollector.collectedReels c).

(** The node has a cache, and the cache is keyed. *)
Definition collecting (n : Node.t) : Prop :=
  exists c, Node.reelCollector n = Some c /\ keyed c.

(** The cache of the node holds a record whose [post_id] is [x]. *)
Definition yields (x : string) (n : Node.t) : Prop :=
  ReelCollector.hasReel (VStr x) (PipelineSpec.cache n) = true
  /\ CollectorSpec.post_id
       (ReelCollector.getReel (VStr x) (PipelineSpec.cache n)) = VStr x.

(** An item that carries the identifier [x] and whose tag fields do not
    make the tag extraction raise. *)
Definition identified (item : value) (x : string) : Prop :=
  item_id item = VStr x /\ x <> EmptyString
  /\ is_ok (HashtagExtractor.extractFromGraphQL item) = true.

(** An edge of a feed connection around a media item. *)
Definition edge_of (media : value) : value :=
  VObj [("node", VObj [("media", media)])].

End ParserSpec.

(** ** The interception callback: reference definitions and a sample platform *)

Module InterceptSpec.
Import JS.

(** Two node states that differ at most in the raw copies of the relayed
    packets. *)
Definition similar (n n' : Node.t) : Prop :=
  Node.reelCollector n = Node.reelCollector n'
  /\ option_map (fun s => (Storage.mediaPackets s, Storage.appendErrors s))
       (Node.storage n)
     = option_map (fun s => (Storage.mediaPackets s, Storage.appendErrors s))
         (Node.storage n')
  /\ Node.graphqlHandler n = Node.graphqlHandler n'.

Definition quoted (s : string) : string :=
  String.append ReelNavigator.dq (String.append s ReelNavigator.dq).

(** The JSON text of a single-item response for the reel [A]. *)
Definition text_A : string :=
  String.append "{"
    (String.append (quoted "data")
       (String.append ":{"
          (String.append (quoted "shortcode_media")
             (String.append ":{"
                (String.append (quoted "shortcode")
                   (String.append ":" (String.append (quoted "A") "}}}"))))))).

Definition value_A : value :=
  Samples.single (VObj [("shortcode", VStr "A")]).

(** [JSON.parse] and [JSON.stringify] restricted to the texts and values
    the examples evaluate them on: [text_A] is the JSON text of
    [value_A]; the other texts the examples parse are not JSON. *)
Definition sample_json : NetworkInterceptor.Json :=
  {| NetworkInterceptor.JSON_parse :=
       fun s => if String.eqb s text_A then Ok value_A else Throw;
     NetworkInterceptor.JSON_stringify :=
       fun v => if value_eqb v value_A then Some text_A else None |}.

Definition url_A : string := "https://www.instagram.com/graphql/query".

(** The callback on a packet with the body [body]. *)
Definition relay (J : NetworkInterceptor.Json) (url method body : string)
    (n : Node.t) : result unit * Node.t :=
  @NetworkInterceptor.sendDataToNode J
    (NetworkInterceptor.packet url method body) n.

End InterceptSpec.

(** ** Navigation: reference definitions and a simulated page *)

Module NavSpec.
Import JS ReelNavigator.

Section Spec.
Context `{Page}.

(** The world a pass of [verifyNavigation] observes, after its delay. *)
Definition after_delay (w : World) : World :=
  randomDelay checkInterval (checkInterval + 100) w.

(** The reel id a pass reads; [None] is [null]. *)
Definition id_seen (w : World) : option string :=
  match page_url (after_delay w) with
  | Ok url => reel_id_of url
  | Throw => None
  end.

(** The pass finds a loaded video element. *)
Definition video_seen (w : World) : bool :=
  match fst (page_query "video[src], video[srcset]" (after_delay w)) with
  | Ok (Some _) => true
  | _ => false
  end.

(** The id read is not [null] and differs from the current one. *)
Definition new_id (currentReelId : string) (seen : option string) : Prop :=
  exists id, seen = Some id /\ id <> currentReelId.

(** More than 70% of the bound has elapsed on the counter, which is
    beyond 2000. *)
Definition late_enough (maxWaitTime waitedTime : Z) : bool :=
  (2000 <? waitedTime) && (7 * maxWaitTime <? 10 * waitedTime).

(** At least 70% of the bound has elapsed on the counter, which is
    beyond 2000. *)
Definition nearly_late (maxWaitTime waitedTime : Z) : bool :=
  (2000 <? waitedTime) && (7 * maxWaitTime <=? 10 * waitedTime).

(** A bound none of whose passes stands at exactly 70% of it (the passes
    stand at the multiples of 300), or the bound 6000 of the last
    strategy.  The default 8000 is of the first kind. *)
Definition plain_bound (maxWaitTime : Z) : bool :=
  negb (maxWaitTime mod 3000 =? 0) || (maxWaitTime =? 6000).

(** The pass entered in world [w] with the counter at [waitedTime]
    returns [true]: the two tests of the loop body, on what the pass
    observes. *)
Definition accepts (currentReelId : string) (maxWaitTime waitedTime : Z)
    (w : World) : bool :=
  changed currentReelId (id_seen w)
  || (video_seen w
      && ((2000 <? waitedTime + checkInterval)
          && gt_times_0_7 (waitedTime + checkInterval) maxWaitTime)).

Definition next_world (currentReelId : string) (maxWaitTime waitedTime : Z)
    (w : World) : World :=
  snd (poll currentReelId maxWaitTime waitedTime w).

(** The world in which pass [k] (counted from 0) starts, when the passes
    before it started at [waitedTime] in [w]. *)
Fixpoint world_from (currentReelId : string) (maxWaitTime waitedTime : Z)
    (k : nat) (w : World) : World :=
  match k with
  | O => w
  | S k' =>
      world_from currentReelId maxWaitTime (waitedTime + checkInterval) k'
        (next_world currentReelId maxWaitTime waitedTime w)
  end.

(** Pass [k] of a call of [verifyNavigation] in world [w] accepts. *)
Definition accepts_at (currentReelId : string) (maxWaitTime : Z) (k : nat)
    (w : World) : bool :=
  accepts currentReelId maxWaitTime (checkInterval * Z.of_nat k)
    (world_from currentReelId maxWaitTime 0 k w).

(** A strategy fails: it returns [false] or raises. *)
Definition fails (strategy : M bool) (w : World) : bool :=
  match fst (strategy w) with
  | Ok true => false
  | _ => true
  end.

(** The world left by the strategies of [l], each run where the one
    before it stopped. *)
Fixpoint world_after (l : list (M bool)) (w : World) : World :=
  match l with
  | [] => w
  | strategy :: rest => world_after rest (snd (strategy w))
  end.

(** Every strategy of [l] fails, run in that order. *)
Fixpoint all_fail (l : list (M bool)) (w : World) : bool :=
  match l with
  | [] => true
  | strategy :: rest => fails strategy w && all_fail rest (snd (strategy w))
  end.

(** Some call of [verifyNavigation] for [currentReelId] returned
    [true]. *)
Definition verified (currentReelId : string) : Prop :=
  exists maxWaitTime w,
    fst (verifyNavigation currentReelId maxWaitTime w) = Ok true.

(** [m] returns [goal] only if [Q] holds. *)
Definition justified {A : Type} (goal : A) (Q : Prop) (m : M A) : Prop :=
  forall w, fst (m w) = Ok goal -> Q.

End Spec.

End NavSpec.

Module SimPage.
Import JS ReelNavigator.

(** A page that shows [url], moves to the next of the [upcoming] urls
    when ArrowRight is pressed and ignores every other key; it has no
    button and no video element.  [keys] logs the keys pressed. *)
Record world : Type := mk {
  url : string;
  upcoming : list string;
  keys : list string
}.

Definition press (key : string) (w : world) : world :=
  if String.eqb key "ArrowRight" then
    match upcoming w with
    | next :: rest => mk next rest (keys w ++ [key])
    | [] => mk (url w) [] (keys w ++ [key])
    end
  else mk (url w) (upcoming w) (keys w ++ [key]).

Definition page : Page :=
  {| World := world;
     ElementHandle := unit;
     BoundingBox := unit;
     page_url := fun w => Ok (url w);
     page_focus := fun _ w => (Ok tt, w);
     keyboard_press := fun key w => (Ok tt, press key w);
     page_query := fun _ w => (Ok None, w);
     scrollIntoView := fun _ w => (Ok tt, w);
     click := fun _ w => (Ok tt, w);
     boundingBox := fun _ w => (Ok None, w);
     swipe_up := fun _ w => (Ok tt, w);
     randomDelay := fun _ _ w => w |}.

Definition start : world :=
  mk "https://www.instagram.com/reels/AAA/"
     ["https://www.instagram.com/reels/BBB/"] [].

End SimPage.

Module VideoPage.
Import JS ReelNavigator.

(** A page that stays on one reel whatever is done to it, and shows a
    loaded video element. *)
Definition page : Page :=
  {| World := unit;
     ElementHandle := unit;
     BoundingBox := unit;
     page_url := fun _ => Ok "https://www.instagram.com/reels/AAA/";
     page_focus := fun _ w => (Ok tt, w);
     keyboard_press := fun _ w => (Ok tt, w);
     page_query := fun _ w => (Ok (Some tt), w);
     scrollIntoView := fun _ w => (Ok tt, w);
     click := fun _ w => (Ok tt, w);
     boundingBox := fun _ w => (Ok None, w);
     swipe_up := fun _ w => (Ok tt, w);
     randomDelay := fun _ _ w => w |}.

Definition start : unit := tt.

End VideoPage.

(** ** Sample passes of the scrape loop *)

Module ScraperSamples.
Import JS Scraper.

(** The current reel is saved, then both the advance and its retry
    fail. *)
Definition saved_then_stuck : events :=
  mkEvents true (Ok false) true [] true false true false false.

(** The current reel is saved and the advance succeeds. *)
Definition saved_then_advanced : events :=
  mkEvents true (Ok false) true [] true false true true false.

(** The current reel is saved, the advance fails and its retry
    succeeds. *)
Definition saved_then_retried : events :=
  mkEvents true (Ok false) true [] true false true false true.

End ScraperSamples.

Module ScraperSpec.
Import Scraper.

(** The failure counters stay within these bounds. *)
Definition within (c : counters) : Prop :=
  0 <= navigationFailures c <= maxFailures + 1
  /\ 0 <= consecutiveNavigationFailures c <= maxConsecutiveNavigationFailures.

End ScraperSpec.

(** ** Resolution and merging: sample records *)

Module MergeSpec.
Import JS.

Definition tags (l : list string) : value := VArr (map VStr l).





(** The time a record is transformed at. *)
Definition now : string := "2026-01-01T00:00:00.000Z".


End MergeSpec.

(** ** Tags: reference definitions *)

Module TagSpec.
Import JS.

(** A tag as the extractors store it: not empty, made of word
    characters, none of them an upper-case letter. *)
Definition clean_tag (s : string) : bool :=
  negb (String.eqb s EmptyString) && every is_word s
  && String.eqb (toLowerCase s) s.

(** A string of ASCII characters. *)
Definition ascii_only (s : string) : bool :=
  every (fun c => Nat.ltb (nat_of_ascii c) 128) s.

(** The name an entry of [hashtag_metadata] is filed under. *)
Definition entry_name (m : value) : value := get m "hashtag".

(** A string without an upper-case letter. *)
Definition lowercase (v : value) : Prop :=
  exists s, v = VStr s /\ toLowerCase s = s.

(** The tag set and the metadata built so far: the tags are distinct
    lower-case strings, and the names the entries are filed under are
    the tags. *)
Definition agreeing (a : HashtagExtractor.acc) : Prop :=
  NoDup (HashtagExtractor.hashtags a)
  /\ Forall lowercase (HashtagExtractor.hashtags a)
  /\ forall t, In t (HashtagExtractor.hashtags a)
               <-> In t (map entry_name (HashtagExtractor.metadata a)).

(** The same with one entry for each tag, in the order of the tags. *)
Definition aligned (a : HashtagExtractor.acc) : Prop :=
  NoDup (HashtagExtractor.hashtags a)
  /\ Forall lowercase (HashtagExtractor.hashtags a)
  /\ map entry_name (HashtagExtractor.metadata a) = HashtagExtractor.hashtags a.

(** The name read off a tag object or off the node of an edge. *)
Definition name_of (v : value) : value := get v "name" ||| get v "hashtag".

(** A name the extraction can handle: a falsy one, which it skips, or a
    string. *)
Definition name_ok (h : value) : bool := negb (truthy h) || isString h.

(** An element of a tag array the extraction can handle: a string, or a
    value other than [null] and [undefined] whose name is one it can
    handle. *)
Definition tag_ok (tag : value) : bool :=
  isString tag || (negb (nullish tag) && name_ok (name_of tag)).

(** An edge the extraction can handle. *)
Definition edge_ok (edge : value) : bool :=
  negb (nullish edge)
  && (negb (truthy (get edge "node")) || name_ok (name_of (get edge "node"))).

Definition array_all (p : value -> bool) (v : value) : bool :=
  match v with
  | VArr l => forallb p l
  | _ => true
  end.

(** Every element of the three tag arrays of the item, where it has
    them, is one the extraction can handle. *)
Definition well_tagged (items : value) : bool :=
  array_all edge_ok (get (get items "edge_media_to_hashtag") "edges")
  && array_all tag_ok (get items "hashtags")
  && array_all tag_ok (get (get items "caption") "hashtags").

End TagSpec.

(** ** Sample tag sources *)

Module TagSamples.
Import JS.

(** A media item with the tags Foo (twice, once with its [#]) and Bar. *)
Definition tagged_item : value :=
  VObj [("shortcode", VStr "X");
        ("hashtags",
         VArr [VStr "#Foo"; VStr "foo"; VObj [("name", VStr "Bar")]])].

(** Two sources of [merge]: the first with an entry for its tag. *)
Definition sources : list value :=
  [ VObj [("hashtags", VArr [VStr "#Dom"]);
          ("metadata", VArr [VObj [("hashtag", VStr "dom")]])];
    VObj [("hashtags", VArr [VStr "dom"; VStr "Tag1"]);
          ("metadata", VArr [])] ].

End TagSamples.

(** ** What a packet may change on the Node side *)

Module GrowthSpec.
Import JS.

(** The cache [c'] holds everything [c] holds: every id of [c] is still
    there with the record it had, and both listings of [c'] start with
    those of [c]. *)
Definition cache_grows (c c' : ReelCollector.t) : Prop :=
  (forall k, ReelCollector.hasReel k c = true ->
             ReelCollector.hasReel k c' = true
             /\ ReelCollector.getReel k c' = ReelCollector.getReel k c)
  /\ (exists more,
        ReelCollector.getAllReels c' = ReelCollector.getAllReels c ++ more)
  /\ (exists more,
        ReelCollector.getNetworkReels c'
        = ReelCollector.getNetworkReels c ++ more).

(** The media log is only appended to; the log of raw packets is as it
    was. *)
Definition media_log_grows (s s' : option Storage.t) : Prop :=
  match s, s' with
  | Some a, Some b =>
      Storage.rawInterceptedPackets b = Storage.rawInterceptedPackets a
      /\ exists more, Storage.mediaPackets b = Storage.mediaPackets a ++ more
  | None, None => True
  | _, _ => False
  end.

Definition grows (n n' : Node.t) : Prop :=
  cache_grows (PipelineSpec.cache n) (PipelineSpec.cache n')
  /\ media_log_grows (Node.storage n) (Node.storage n')
  /\ (Node.reelCollector n = None -> Node.reelCollector n' = None)
  /\ Node.graphqlHandler n' = Node.graphqlHandler n.

(** The media objects the log gains when the objects of [offered] are
    handed to [saveRawPacket] one after the other, under the script
    [errors] of the appends that raise. *)
Fixpoint written (errors : list bool) (offered : list value) : list value :=
  match offered with
  | [] => []
  | media :: rest =>
      match errors with
      | true :: errors' => written errors' rest
      | false :: errors' => media :: written errors' rest
      | [] => media :: written [] rest
      end
  end.

(** No append to the media file is going to raise. *)
Definition reliable (s : Storage.t) : bool :=
  forallb negb (Storage.appendErrors s).

(** The entries of the media log for the response to [method url]. *)
Definition entries (url method : value) (l : list value)
  : list (value * value * value) :=
  map (fun media => (url, method, media)) l.

(** The record [r] was extracted from one of the media objects of
    [l]. *)
Definition extracted_from (l : list value) (r : value) : Prop :=
  exists media,
    In media l /\ r = GraphQLExtractor.extractReelFromGraphQLItem media.

(** From [n] to [n'] the media objects [offered] were handed to
    [saveRawPacket], in this order, and the cache gained the records
    [recs], each extracted from one of them; the media log gained the
    entries of those whose append did not raise. *)
Definition traced_by (url method : value) (offered recs : list value)
    (n n' : Node.t) : Prop :=
  ReelCollector.getNetworkReels (PipelineSpec.cache n')
  = ReelCollector.getNetworkReels (PipelineSpec.cache n) ++ recs
  /\ Forall (extracted_from offered) recs
  /\ match Node.storage n with
     | Some s =>
         exists s',
           Node.storage n' = Some s'
           /\ Storage.mediaPackets s'
              = Storage.mediaPackets s
                ++ entries url method (written (Storage.appendErrors s) offered)
           /\ Storage.appendErrors s'
              = skipn (List.length offered) (Storage.appendErrors s)
     | None => Node.storage n' = None
     end.

Definition traced (url method : value) (n n' : Node.t) : Prop :=
  exists offered recs, traced_by url method offered recs n n'.

(** The packet is a POST to the GraphQL endpoint. *)
Definition graphql_post (interceptedData : value) : bool :=
  match get interceptedData "url" with
  | VStr u =>
      includes "/graphql/query" u
      && value_eqb (get interceptedData "method") (VStr "POST")
  | _ => false
  end.

(** The raw copies the callback queues for a packet. *)
Definition raw_copy (interceptedData : value) : list value :=
  if nullish interceptedData then []
  else if truthy (get interceptedData "data") then [interceptedData]
  else [].

End GrowthSpec.

Module GrowthSamples.
Import JS.

(** A node whose first append to the media file raises. *)
Definition failing_node : Node.t :=
  Node.mk (Some (Storage.mk [] [] [true])) (Some ReelCollector.empty) true.

End GrowthSamples.

(** ** Records before and after [transform] *)

Module TransformSpec.
Import JS.

(** A count [parseInt] reads exactly. *)
Definition safe_count (v : value) : Prop :=
  match parseInt v with
  | Some n => safe_integer n = true
  | None => True
  end.

Definition safe_counts (reelData : value) : Prop :=
  safe_count (get reelData "likes_count")
  /\ safe_count (get reelData "comments_count")
  /\ safe_count (get reelData "view_count").

(** A record as the DOM fallback reads it, with its like count as
    text. *)
Definition raw_record : value :=
  VObj [("post_id", VStr "X"); ("likes_count", VStr "1200 likes");
        ("hashtags", VStr "none")].

End TransformSpec.

(** ** Navigation: calls that return *)

Module ReturnSpec.
Import JS ReelNavigator.

Section Spec.
Context `{Page}.

(** The call [m] returns, whatever the page does: it never raises. *)
Definition returns {A : Type} (m : M A) : Prop :=
  forall w, exists a, fst (m w) = Ok a.

End Spec.

End ReturnSpec.

(** A page whose address cannot be read. *)
Module BrokenPage.
Import JS ReelNavigator.

Definition page : Page :=
  {| World := list string;
     ElementHandle := unit;
     BoundingBox := unit;
     page_url := fun _ => Throw;
     page_focus := fun _ w => (Throw, w);
     keyboard_press := fun key w => (Throw, w ++ [key]);
     page_query := fun _ w => (Throw, w);
     scrollIntoView := fun _ w => (Throw, w);
     click := fun _ w => (Throw, w);
     boundingBox := fun _ w => (Throw, w);
     swipe_up := fun _ w => (Throw, w);
     randomDelay := fun _ _ w => w |}.

End BrokenPage.

(** ** A further sample pass of the scrape loop *)

Module LoopSamples.
Import JS Scraper.

(** The page still shows a reel the session has seen, and both the
    advance and its retry fail. *)
Definition seen_then_stuck : events :=
  mkEvents true (Ok false) true [] true true false false false.

End LoopSamples.

(** ** The records of a session: reference definitions *)

Module SessionSpec.
Import JS.

(** The ids of the records a pass meets are compared by value. *)
Definition by_value (i : Session.inputs) : Prop :=
  Forall (fun r => primitive (Session.post_id r) = true)
    (Session.arrived i ++ Session.arrivedLate i)
  /\ match Session.domData i with
     | Ok r => primitive (Session.post_id r) = true
     | Throw => True
     end
  /\ primitive (Session.currentReelId i) = true.

(** The ids the cache holds. *)
Definition keys (c : ReelCollector.t) : list value :=
  map fst (ReelCollector.collectedReels c).

(** Every entry is stored under the truthy id of its record, and no id
    is stored twice. *)
Definition cache_ok (c : ReelCollector.t) : Prop :=
  ParserSpec.keyed c /\ NoDup (keys c)
  /\ Forall (fun k => truthy k = true) (keys c).

Section Spec.
Variable Store : Type.
Variable savePost : value -> Store -> bool * Store.

(** What the loop maintains: [reels] holds no id twice, each of its ids
    is truthy and cached, and the count of collected reels is between 0
    and the length of [reels] and not beyond the target. *)
Definition sound (reelsToCollect : Z) (st : Session.state Store) : Prop :=
  NoDup (Session.reels st)
  /\ Forall (fun id => truthy id = true
                       /\ ReelCollector.hasReel id (Session.reelCollector st)
                          = true)
       (Session.reels st)
  /\ 0 <= Scraper.reelsCollected (Session.counters st)
     <= Z.of_nat (List.length (Session.reels st))
  /\ Scraper.reelsCollected (Session.counters st) <= Z.max 0 reelsToCollect.

(** Whether [savePost] is called for an unsaved reel and stores it. *)
Definition stored (reelsToCollect : Z) (st : Session.state Store)
    (unsavedReel : value) : bool :=
  match Session.storage st with
  | Some s =>
      truthy (Session.post_id unsavedReel)
      && (Scraper.reelsCollected (Session.counters st) <? reelsToCollect)
      && fst (savePost unsavedReel s)
  | None => false
  end.

(** The answers for the unsaved reels, in the order they are offered. *)
Fixpoint stored_all (reelsToCollect : Z) (unsaved : list value)
    (st : Session.state Store) : list bool :=
  match unsaved with
  | [] => []
  | unsavedReel :: rest =>
      stored reelsToCollect st unsavedReel
      :: stored_all reelsToCollect rest
           (Session.save_unsaved savePost reelsToCollect st unsavedReel)
  end.

(** The pass as the counters of [Scraper.iteration] see it: the answers
    of the page and of the navigator, and what the records decide. *)
Definition observed (reelsToCollect : Z) (i : Session.inputs)
    (st : Session.state Store) : Scraper.events :=
  let c0 := Session.interceptor_adds (Session.arrived i)
              (Session.reelCollector st) in
  let resolved := Session.resolve i c0 in
  let st1 := Session.with_collector
               (Session.with_collector st c0) (snd resolved) in
  let st2 := Session.drain savePost reelsToCollect st1 in
  Scraper.mkEvents
    (Scraper.isOnReelPage (Session.answers i))
    (Scraper.suspension (Session.answers i))
    (Scraper.recovered (Session.answers i))
    (stored_all reelsToCollect
       (Session.unsavedReels (Session.reels st1)
          (Session.reelCollector st1)) st1)
    (truthy (fst resolved) && truthy (Session.post_id (fst resolved)))
    (mem (Session.post_id (fst resolved)) (Session.reels st2))
    (match Session.storage st2 with
     | Some s => fst (savePost (fst resolved) s)
     | None => false
     end)
    (Scraper.navigated (Session.answers i))
    (Scraper.retryNavigated (Session.answers i)).

(** The same storage, keeping count of the records it stored. *)
Definition counting (postData : value) (s : Store * Z) : bool * (Store * Z) :=
  let (saved, s') := savePost postData (fst s) in
  (saved, (s', snd s + (if saved then 1 else 0))).

(** The count of collected reels is the number of records the storage
    stored; without a storage it is 0. *)
Definition tallied (st : Session.state (Store * Z)) : Prop :=
  match Session.storage st with
  | Some s => snd s = Scraper.reelsCollected (Session.counters st)
  | None => Scraper.reelsCollected (Session.counters st) = 0
  end.

End Spec.

(** A storage that answers from a list, one answer for each call. *)
Definition scripted (postData : value) (answers : list bool)
  : bool * list bool :=
  match answers with
  | b :: rest => (b, rest)
  | [] => (false, [])
  end.

(** Two passes on a reel page: the first finds A cached with B beside
    it, the second finds B cached; the navigator advances each time. *)
Definition two_passes : list Session.inputs :=
  [ Session.mkInputs ScraperSamples.saved_then_advanced
      [Samples.reel "A" 1; Samples.reel "B" 2] (VStr "A") [] Throw;
    Session.mkInputs ScraperSamples.saved_then_advanced
      [Samples.reel "A" 3] (VStr "B") [] Throw ].

End SessionSpec.

(** ** CSV cells: reference definitions *)

Module CsvSpec.
Import JS.

(** The text a cell holds for a field: nothing for [null] and
    [undefined], else the printed field with its white space
    normalized. *)
Definition cell (field : value) : string :=
  if nullish field then EmptyString
  else CSVStorage.normalized (toString field).

(** Neither a carriage return nor a line feed. *)
Definition no_line_break (c : ascii) : bool :=
  negb (Ascii.eqb c CSVStorage.CR) && negb (Ascii.eqb c CSVStorage.LF).

(** A caption with a comma, a quoted word and a line break. *)
Definition caption : value :=
  VStr (String.append "Hello, "
          (String.append CSVStorage.dq
             (String.append "world"
                (String.append CSVStorage.dq
                   (String CSVStorage.LF "#tag"))))).

(** A character that is not white space. *)
Definition not_space (c : ascii) : bool := negb (is_space c).

(** The line [savePost] appends, without its line feed: the first ten
    cells and whatever follows them. *)
Definition row_line (now : string) (persona feedType postData : value)
    (rest : string) : string :=
  String.append
    (String.concat "," (CSVStorage.row_head now persona feedType postData))
    (String ","%char rest).

End CsvSpec.

(** ** The deep search: what lies below a value *)

Module SearchSpec.
Import JS.

(** The search visits [y] one level below [root]: [y] is a property
    value or an element of [root], or an element of such a value when it
    is an array. *)
Definition visited_below (root y : value) : Prop :=
  exists child,
    In child (GraphQLHandler.children root)
    /\ match child with
       | VArr items => In y items
       | _ => y = child
       end.

(** [x] lies [d] levels below [root]. *)
Inductive levels_below : nat -> value -> value -> Prop :=
| levels_here : forall x, levels_below 0 x x
| levels_step : forall d root y x,
    visited_below root y -> levels_below d y x ->
    levels_below (S d) root x.

(** A media item inside an array, three levels below the root. *)
Definition listed (media : value) : value :=
  VObj [("viewer", VNull);
        ("sections", VArr [VObj [("layout", VStr "grid")];
                           VObj [("items", VArr [VNum 7; media])]])].

End SearchSpec.

(** * Properties *)

(** ** Facts about values *)

Section ValueFacts.
Import JS.

Lemma value_eqb_eq : forall a b, value_eqb a b = true -> a = b.
Proof.
  induction a using value_nested_ind; intros c; destruct c; simpl;
    try discriminate; intros E; try reflexivity.
  - apply Bool.eqb_prop in E. now subst.
  - apply Z.eqb_eq in E. now subst.
  - apply String.eqb_eq in E. now subst.
  - f_equal. revert items0 E.
    induction H as [|x xs Hx _ IH]; intros [|y ys] E; try discriminate; auto.
    apply andb_true_iff in E as [E1 E2].
    f_equal; [now apply Hx | now apply IH].
  - f_equal. revert props0 E.
    induction H as [|[k x] ps Hx _ IH]; intros [|[l y] qs] E;
      try discriminate; auto.
    apply andb_true_iff in E as [E12 E3].
    apply andb_true_iff in E12 as [E1 E2].
    apply String.eqb_eq in E1. simpl in Hx. apply Hx in E2. subst.
    f_equal. now apply IH.
Qed.

Lemma value_eqb_refl : forall a, value_eqb a a = true.
Proof.
  induction a using value_nested_ind; simpl; auto.
  - apply Bool.eqb_reflx.
  - apply Z.eqb_refl.
  - apply String.eqb_refl.
  - induction H as [|x xs Hx _ IH]; auto. now rewrite Hx, IH.
  - induction H as [|[k x] ps Hx _ IH]; auto.
    simpl in Hx. now rewrite String.eqb_refl, Hx, IH.
Qed.

Lemma value_eqb_spec : forall a b, value_eqb a b = true <-> a = b.
Proof.
  split; [apply value_eqb_eq | intros ->; apply value_eqb_refl].
Qed.

Lemma value_eqb_neq : forall a b, value_eqb a b = false <-> a <> b.
Proof.
  intros a b. rewrite <- value_eqb_spec. destruct (value_eqb a b); split;
    congruence.
Qed.

End ValueFacts.

(** ** The dedup cache *)

Section CollectorFacts.
Import JS ReelCollector CollectorSpec.

Lemma mem_app : forall v l1 l2, mem v (l1 ++ l2) = mem v l1 || mem v l2.
Proof.
  intros v l1 l2. induction l1 as [|x l1 IH]; simpl; auto.
  now rewrite IH, orb_assoc.
Qed.

Lemma firsts_from_snoc : forall adds seen r,
  firsts_from seen (adds ++ [r]) =
  firsts_from seen adds ++
  (if admissible r
      && negb (mem (post_id r) (seen ++ map post_id (firsts_from seen adds)))
   then [r] else []).
Proof.
  induction adds as [|a adds IH]; intros seen r; simpl.
  - rewrite app_nil_r. now destruct (admissible r && negb (mem (post_id r) seen)).
  - destruct (admissible a && negb (mem (post_id a) seen)); simpl.
    + rewrite IH. rewrite <- app_assoc. reflexivity.
    + apply IH.
Qed.

Lemma firsts_snoc : forall adds r,
  firsts (adds ++ [r]) =
  firsts adds ++
  (if admissible r && negb (mem (post_id r) (map post_id (firsts adds)))
   then [r] else []).
Proof. intros. unfold firsts. now rewrite firsts_from_snoc. Qed.

(** The entries the cache holds for a list of records. *)
Lemma map_has_entries : forall k l,
  map_has k (map (fun r => (post_id r, r)) l) = mem k (map post_id l).
Proof.
  intros k l. induction l as [|r l IH]; simpl; auto. now rewrite IH.
Qed.

Lemma map_set_absent : forall k v m,
  map_has k m = false -> map_set k v m = m ++ [(k, v)].
Proof.
  intros k v m. induction m as [|[k' v'] m IH]; simpl; intros E; auto.
  apply orb_false_iff in E as [E1 E2]. rewrite E1. now rewrite IH.
Qed.

(** The cache after a run mirrors the first additions since the last
    [clear]. *)
Lemma run_mirrors : forall ops,
  let c := run ops empty in
  networkReels c = firsts (since_clear ops)
  /\ collectedReels c = map (fun r => (post_id r, r)) (networkReels c).
Proof.
  intros ops. unfold run, since_clear.
  induction ops as [|o ops IH] using rev_ind; simpl.
  - split; reflexivity.
  - rewrite !fold_left_app. simpl. destruct IH as [IHn IHc].
    destruct o as [r|]; simpl; [|split; reflexivity].
    rewrite firsts_snoc. unfold addReel.
    fold (post_id r). rewrite <- negb_andb. fold (admissible r).
    destruct (admissible r); simpl.
    + rewrite IHc, map_has_entries, IHn.
      destruct (mem (post_id r) (map post_id (firsts _))) eqn:E; simpl.
      * rewrite app_nil_r. rewrite <- IHn. split; auto.
      * rewrite map_set_absent
          by (now rewrite map_has_entries).
        rewrite <- IHn. split; auto. now rewrite map_app.
    + rewrite app_nil_r. split; auto.
Qed.

End CollectorFacts.

Section CollectorLookup.
Import JS ReelCollector CollectorSpec.

Lemma mem_eq : forall a b l, value_eqb a b = true -> mem a l = mem b l.
Proof. intros a b l E. apply value_eqb_eq in E. now subst. Qed.

Lemma firsts_from_admissible : forall adds seen,
  Forall (fun r => admissible r = true) (firsts_from seen adds).
Proof.
  induction adds as [|a adds IH]; intros seen; simpl; auto.
  destruct (admissible a) eqn:A; simpl; auto.
  destruct (mem (post_id a) seen); simpl; auto.
Qed.

Lemma firsts_from_fresh : forall adds seen k,
  mem k seen = true -> mem k (map post_id (firsts_from seen adds)) = false.
Proof.
  induction adds as [|a adds IH]; intros seen k K; simpl; auto.
  destruct (admissible a && negb (mem (post_id a) seen)) eqn:E; simpl.
  - apply andb_true_iff in E as [_ E]. apply negb_true_iff in E.
    destruct (value_eqb k (post_id a)) eqn:Q.
    + rewrite (mem_eq _ _ _ Q) in K. congruence.
    + simpl. apply IH. rewrite mem_app, K. reflexivity.
  - now apply IH.
Qed.

Lemma firsts_from_NoDup : forall adds seen,
  NoDup (map post_id (firsts_from seen adds)).
Proof.
  induction adds as [|a adds IH]; intros seen; simpl; [constructor|].
  destruct (admissible a && negb (mem (post_id a) seen)); simpl; auto.
  constructor; auto.
  intros I.
  assert (M : mem (post_id a)
                (map post_id (firsts_from (seen ++ [post_id a]) adds)) = true).
  { clear - I. induction (map post_id _) as [|x l IHl]; [contradiction|].
    simpl. destruct I as [->|I].
    - now rewrite value_eqb_refl.
    - rewrite IHl by assumption. apply orb_true_r. }
  rewrite firsts_from_fresh in M; [discriminate|].
  rewrite mem_app. simpl. rewrite value_eqb_refl. apply orb_true_r.
Qed.

Lemma find_firsts_from : forall adds seen k,
  mem k seen = false ->
  find (fun r => value_eqb k (post_id r)) (firsts_from seen adds)
  = first_added k adds.
Proof.
  induction adds as [|a adds IH]; intros seen k K; simpl; auto.
  destruct (admissible a) eqn:A; simpl; [|now apply IH].
  destruct (mem (post_id a) seen) eqn:S; simpl.
  - destruct (value_eqb k (post_id a)) eqn:Q.
    + rewrite (mem_eq _ _ _ Q) in K. congruence.
    + now apply IH.
  - destruct (value_eqb k (post_id a)) eqn:Q; auto.
    apply IH. rewrite mem_app, K. simpl. now rewrite Q.
Qed.

Lemma map_get_entries : forall k l,
  map_get k (map (fun r => (post_id r, r)) l) =
  match find (fun r => value_eqb k (post_id r)) l with
  | Some r => r
  | None => VUndefined
  end.
Proof.
  intros k l. induction l as [|r l IH]; simpl; auto.
  now destruct (value_eqb k (post_id r)).
Qed.

Lemma first_added_admissible : forall k adds r,
  first_added k adds = Some r -> admissible r = true /\ post_id r = k.
Proof.
  intros k adds r. induction adds as [|a adds IH]; simpl; [discriminate|].
  destruct (admissible a && value_eqb k (post_id a)) eqn:E; auto.
  intros [= ->]. apply andb_true_iff in E as [A Q].
  apply value_eqb_eq in Q. auto.
Qed.

Lemma admissible_truthy : forall r, admissible r = true -> r ||| VNull = r.
Proof.
  intros r A. apply andb_true_iff in A as [T _]. unfold or_else. now rewrite T.
Qed.

(** Number of records of a duplicate-free list stored under one id. *)
Lemma count_NoDup : forall k l,
  NoDup (map post_id l) ->
  List.length (filter (fun r => value_eqb k (post_id r)) l)
  = if mem k (map post_id l) then 1%nat else 0%nat.
Proof.
  intros k l. induction l as [|r l IH]; simpl; intros N; auto.
  inversion N as [|x xs NI N']; subst.
  destruct (value_eqb k (post_id r)) eqn:Q; simpl.
  - rewrite IH by assumption.
    destruct (mem k (map post_id l)) eqn:M; auto.
    exfalso. apply NI. apply value_eqb_eq in Q. subst k.
    clear - M. induction (map post_id l) as [|x xs IHx]; [discriminate|].
    simpl in M. apply orb_true_iff in M as [M|M].
    + left. symmetry. now apply value_eqb_eq.
    + right. auto.
  - now apply IH.
Qed.

Lemma filter_entries : forall k l,
  List.length
    (filter (fun e : value * value => value_eqb k (fst e))
       (map (fun r => (post_id r, r)) l))
  = List.length (filter (fun r => value_eqb k (post_id r)) l).
Proof.
  intros k l. induction l as [|r l IH]; simpl; auto.
  destruct (value_eqb k (post_id r)); simpl; auto.
Qed.

(** A second [addReel] of a record finds its id in the cache. *)
Lemma map_has_set : forall k v m, map_has k (map_set k v m) = true.
Proof.
  intros k v m. induction m as [|[k' v'] m IH]; simpl.
  - now rewrite value_eqb_refl.
  - destruct (value_eqb k k') eqn:Q; simpl; rewrite Q; auto.
Qed.

Lemma addReel_has : forall r c,
  admissible r = true -> hasReel (post_id r) (snd (addReel r c)) = true.
Proof.
  intros r c A. unfold addReel, hasReel. fold (post_id r).
  rewrite <- negb_andb. fold (admissible r). rewrite A. simpl.
  destruct (map_has (post_id r) (collectedReels c)) eqn:Hs; simpl; auto.
  apply map_has_set.
Qed.

Lemma addReel_present : forall r c,
  hasReel (post_id r) c = true -> snd (addReel r c) = c.
Proof.
  intros r c Hs. unfold addReel, hasReel in *. fold (post_id r).
  destruct (negb (truthy r) || negb (truthy (post_id r))); auto.
  now rewrite Hs.
Qed.

Lemma addReel_undefined : forall r c, fst (addReel r c) = VUndefined.
Proof.
  intros r c. unfold addReel.
  destruct (negb (truthy r) || negb (truthy (get r "post_id"))); auto.
  destruct (negb (map_has (get r "post_id") (collectedReels c))); auto.
Qed.

Lemma run_snoc : forall ops o c, run (ops ++ [o]) c = step (run ops c) o.
Proof. intros. unfold run. now rewrite fold_left_app. Qed.

Lemma since_clear_add : forall ops r,
  since_clear (ops ++ [AddReel r]) = since_clear ops ++ [r].
Proof. intros. unfold since_clear. now rewrite fold_left_app. Qed.

Lemma first_added_snoc : forall k adds r,
  first_added k (adds ++ [r]) =
  match first_added k adds with
  | Some r0 => Some r0
  | None => if admissible r && value_eqb k (post_id r) then Some r else None
  end.
Proof.
  intros k adds r. induction adds as [|a adds IH]; simpl; auto.
  destruct (admissible a && value_eqb k (post_id a)); auto.
Qed.

(** What [getReel] answers after a run. *)
Lemma getReel_run : forall ops k,
  getReel k (run ops empty) =
  match first_added k (since_clear ops) with
  | Some r => r
  | None => VNull
  end.
Proof.
  intros ops k. destruct (run_mirrors ops) as [Hn Hc]. simpl in Hn, Hc.
  unfold getReel. rewrite Hc, Hn, map_get_entries.
  unfold firsts. rewrite find_firsts_from by reflexivity.
  destruct (first_added k (since_clear ops)) as [r|] eqn:F; auto.
  apply first_added_admissible in F as [A _]. now apply admissible_truthy.
Qed.

Lemma hasReel_run : forall ops k,
  hasReel k (run ops empty) = mem k (map post_id (firsts (since_clear ops))).
Proof.
  intros ops k. destruct (run_mirrors ops) as [Hn Hc]. simpl in Hn, Hc.
  unfold hasReel. now rewrite Hc, map_has_entries, Hn.
Qed.

Lemma counts_run : forall ops k,
  let c := run ops empty in
  entries_for k c = (if hasReel k c then 1%nat else 0%nat)
  /\ listed_for k c = (if hasReel k c then 1%nat else 0%nat).
Proof.
  intros ops k. simpl. rewrite hasReel_run.
  destruct (run_mirrors ops) as [Hn Hc]. simpl in Hn, Hc.
  unfold entries_for, listed_for. rewrite Hc, filter_entries, Hn.
  split; apply count_NoDup; apply firsts_from_NoDup.
Qed.

End CollectorLookup.

Section CollectorClaims.
Import JS ReelCollector CollectorSpec.

Lemma string_id_admissible : forall r i,
  post_id r = VStr i -> i <> EmptyString -> admissible r = true.
Proof.
  intros r i E N. unfold admissible. rewrite E.
  destruct r; try discriminate. simpl.
  destruct (String.eqb i EmptyString) eqn:Q; auto.
  apply String.eqb_eq in Q. contradiction.
Qed.

(** C1, as amended.  For every record [r] whose [post_id] is a non-empty
    string [i], and every cache reached by [addReel] and [clear] calls:
    after [addReel(r)] twice the cache is what it was after the first
    call, it holds exactly one entry for [i], in the map and in the list,
    that entry is the first record added under [i] since the last [clear]
    ([r] itself when there was none), the second call finds [i] present,
    and both calls evaluate to [undefined]: [addReel] does not report
    whether it inserted. *)
Theorem addReel_twice_one_entry : forall ops r i,
  post_id r = VStr i -> i <> EmptyString ->
  let c := run ops empty in
  let c1 := snd (addReel r c) in
  let c2 := snd (addReel r c1) in
  c2 = c1
  /\ entries_for (VStr i) c2 = 1%nat
  /\ listed_for (VStr i) c2 = 1%nat
  /\ getReel (VStr i) c2 =
     match first_added (VStr i) (since_clear ops) with
     | Some r0 => r0
     | None => r
     end
  /\ hasReel (VStr i) c1 = true
  /\ fst (addReel r c) = VUndefined
  /\ fst (addReel r c1) = VUndefined.
Proof.
  intros ops r i E N c c1 c2.
  pose proof (string_id_admissible r i E N) as A.
  assert (H1 : hasReel (VStr i) c1 = true).
  { rewrite <- E. now apply addReel_has. }
  assert (E2 : c2 = c1).
  { apply addReel_present. now rewrite E. }
  assert (R1 : c1 = run (ops ++ [AddReel r]) empty).
  { unfold c1, c. now rewrite run_snoc. }
  rewrite E2. repeat split; auto using addReel_undefined.
  - rewrite R1. destruct (counts_run (ops ++ [AddReel r]) (VStr i)) as [C _].
    simpl in C. rewrite C, <- R1, H1. reflexivity.
  - rewrite R1. destruct (counts_run (ops ++ [AddReel r]) (VStr i)) as [_ C].
    simpl in C. rewrite C, <- R1, H1. reflexivity.
  - rewrite R1, getReel_run, since_clear_add, first_added_snoc.
    destruct (first_added (VStr i) (since_clear ops)); auto.
    rewrite A, E, value_eqb_refl. reflexivity.
Qed.

Lemma addReel_twice_one_entry_witness :
  let r := Samples.reel "A" 120 in
  let c1 := snd (addReel r empty) in
  let c2 := snd (addReel r c1) in
  c2 = c1
  /\ entries_for (VStr "A") c2 = 1%nat
  /\ listed_for (VStr "A") c2 = 1%nat
  /\ getReel (VStr "A") c2 = r
  /\ hasReel (VStr "A") c1 = true
  /\ fst (addReel r empty) = VUndefined
  /\ fst (addReel r c1) = VUndefined.
Proof.
  apply (addReel_twice_one_entry [] (Samples.reel "A" 120) "A").
  - reflexivity.
  - discriminate.
Defined.

(** C1 as stated fails: neither call of [addReel] evaluates to a boolean,
    so the second call does not return [false] (nor the first [true]). *)
Lemma addReel_returns_no_boolean :
  let r := Samples.reel "A" 120 in
  fst (addReel r empty) <> VBool true
  /\ fst (addReel r (snd (addReel r empty))) <> VBool false.
Proof. split; discriminate. Qed.

(** C10.  After any sequence of [addReel] and [clear] calls on a new
    collector, with ids that are compared by value: the list and the values of the map are the same records in
    the same order, the keys of the map are the ids of those records and
    are pairwise distinct, every key has exactly one entry in the list,
    the list is the first admissible record per id in the order of the
    additions made since the last [clear], [getReel] answers the first
    record added under the id (an entry is never overwritten), and
    [size()] is the length of the list. *)
Theorem collector_map_list_consistent : forall ops,
  primitive_ids ops ->
  let c := run ops empty in
  getAllReels c = networkReels c
  /\ map fst (collectedReels c) = map post_id (networkReels c)
  /\ NoDup (map fst (collectedReels c))
  /\ (forall k, hasReel k c = true -> listed_for k c = 1%nat)
  /\ networkReels c = firsts (since_clear ops)
  /\ (forall k, getReel k c =
                match first_added k (since_clear ops) with
                | Some r => r
                | None => VNull
                end)
  /\ (forall r, hasReel (post_id r) c = true ->
                getReel (post_id r) (snd (addReel r c)) = getReel (post_id r) c)
  /\ size c = List.length (networkReels c).
Proof.
  intros ops _ c. destruct (run_mirrors ops) as [Hn Hc]. fold c in Hn, Hc.
  assert (K : map fst (collectedReels c) = map post_id (networkReels c)).
  { rewrite Hc, map_map. reflexivity. }
  repeat split.
  - unfold getAllReels. rewrite Hc, map_map. simpl. apply map_id.
  - exact K.
  - rewrite K, Hn. apply firsts_from_NoDup.
  - intros k Hk. destruct (counts_run ops k) as [_ C]. fold c in C.
    now rewrite C, Hk.
  - exact Hn.
  - intros k. apply getReel_run.
  - intros r Hr. now rewrite addReel_present.
  - unfold size. rewrite Hc. apply length_map.
Qed.

Lemma collector_map_list_consistent_witness :
  let c := run [AddReel (Samples.reel "A" 1); AddReel (Samples.reel "B" 2);
                AddReel (Samples.reel "A" 3)] empty in
  listed_for (VStr "A") c = 1%nat
  /\ getReel (VStr "A") (snd (addReel (Samples.reel "A" 3) c))
     = getReel (VStr "A") c
  /\ networkReels c = [Samples.reel "A" 1; Samples.reel "B" 2].
Proof.
  destruct (collector_map_list_consistent
              [AddReel (Samples.reel "A" 1); AddReel (Samples.reel "B" 2);
               AddReel (Samples.reel "A" 3)])
    as [_ [_ [_ [L [N [_ [O _]]]]]]];
    [repeat constructor|].
  split; [apply L; reflexivity|].
  split; [apply (O (Samples.reel "A" 3)); reflexivity|].
  rewrite N. reflexivity.
Defined.

End CollectorClaims.

(** ** The validity gate *)

Section ValidityGate.
Import JS ReelCollector CollectorSpec PipelineSpec.

Lemma addReel_all_have_id : forall r c,
  all_have_id c -> all_have_id (snd (addReel r c)).
Proof.
  intros r c [Hm Hl]. unfold addReel. fold (post_id r).
  destruct (truthy r) eqn:Tr; simpl; [|split; auto].
  destruct (truthy (post_id r)) eqn:Tp; simpl; [|split; auto].
  destruct (map_has (post_id r) (collectedReels c)) eqn:Hs; simpl;
    [split; auto|].
  unfold all_have_id, getAllReels in *. simpl.
  rewrite map_set_absent by assumption. rewrite map_app. simpl.
  split; apply Forall_app; auto.
Qed.

Lemma run_all_have_id : forall ops, all_have_id (run ops empty).
Proof.
  intros ops. unfold run. induction ops as [|o ops IH] using rev_ind; simpl.
  - split; constructor.
  - rewrite fold_left_app. simpl. destruct o; simpl.
    + now apply addReel_all_have_id.
    + split; constructor.
Qed.

Lemma extract_null_or_id : forall items,
  GraphQLExtractor.extractReelDataFromItem items = VNull
  \/ truthy (post_id (GraphQLExtractor.extractReelDataFromItem items)) = true.
Proof.
  intros items. unfold GraphQLExtractor.extractReelDataFromItem.
  destruct (get_strict items "shortcode"); auto.
  destruct (HashtagExtractor.extractFromGraphQL items) as [h|]; auto.
  destruct (truthy (get (GraphQLExtractor.reelData_of items h) "post_id"))
    eqn:T; auto.
Qed.

Lemma reelData_post_id : forall items h,
  get (GraphQLExtractor.reelData_of items h) "post_id"
  = get items "shortcode" ||| get items "code" ||| VNull.
Proof. reflexivity. Qed.

Lemma extract_without_id : forall items,
  truthy (get items "shortcode") = false ->
  truthy (get items "code") = false ->
  GraphQLExtractor.extractReelDataFromItem items = VNull.
Proof.
  intros items S C. unfold GraphQLExtractor.extractReelDataFromItem.
  destruct (get_strict items "shortcode"); auto.
  destruct (HashtagExtractor.extractFromGraphQL items) as [h|]; auto.
  rewrite reelData_post_id. unfold or_else. now rewrite S, C.
Qed.

Lemma node_addReel_ok : forall r n, node_ok n -> node_ok (Node.addReel r n).
Proof.
  intros r n. unfold node_ok, Node.addReel.
  destruct (Node.reelCollector n) as [c|] eqn:E; simpl.
  - apply addReel_all_have_id.
  - now rewrite E.
Qed.

Lemma node_save_ok : forall u m d n,
  node_ok n -> node_ok (Node.saveRawPacket u m d n).
Proof.
  intros u m d n. unfold node_ok, Node.saveRawPacket.
  now destruct (Node.storage n).
Qed.

Lemma collect_ok : forall u m media n,
  node_ok n -> node_ok (GraphQLHandler.collect u m media n).
Proof.
  intros u m media n Hn. unfold GraphQLHandler.collect.
  destruct (truthy _ && truthy _);
    auto using node_addReel_ok, node_save_ok.
Qed.

Lemma collect_edges_ok : forall u m edges n,
  node_ok n -> node_ok (snd (GraphQLHandler.collect_edges u m edges n)).
Proof.
  intros u m edges. induction edges as [|e edges IH]; intros n Hn; simpl; auto.
  destruct (get_strict e "node"); simpl; auto.
  apply IH. destruct (truthy _); auto using collect_ok.
Qed.

Lemma process_ok : forall parsed u m n,
  node_ok n -> node_ok (snd (GraphQLHandler.processGraphQLResponse parsed u m n)).
Proof.
  intros parsed u m n Hn. unfold GraphQLHandler.processGraphQLResponse.
  destruct (negb (truthy parsed) || negb (truthy (get parsed "data"))); auto.
  destruct (truthy (get (get parsed "data")
                      "xdt_api__v1__clips__home__connection_v2")).
  { destruct (iterate _); simpl; auto using collect_edges_ok. }
  destruct (truthy (get (get parsed "data") "xdt_shortcode_media")
            || truthy (get (get parsed "data") "shortcode_media")).
  { simpl. destruct (truthy _ && truthy _); destruct (truthy (_ ||| _));
      auto using node_addReel_ok, node_save_ok. }
  destruct (truthy (get parsed "data") && typeof_object (get parsed "data"));
    auto.
  simpl. generalize (GraphQLHandler.findMediaObjects (get parsed "data") 0).
  intros l. revert n Hn. induction l as [|x l IH]; intros n Hn; simpl; auto.
  apply IH. now apply collect_ok.
Qed.

Lemma sendDataToNode_ok :
  forall (J : NetworkInterceptor.Json) interceptedData n,
  node_ok n -> node_ok (snd (NetworkInterceptor.sendDataToNode interceptedData n)).
Proof.
  intros J d n Hn. unfold NetworkInterceptor.sendDataToNode.
  destruct (nullish d); auto.
  set (n1 := match Node.storage n with Some _ => _ | None => _ end).
  assert (H1 : node_ok n1).
  { unfold n1. destruct (Node.storage n); auto. destruct (truthy _); auto. }
  destruct (get d "url"); auto.
  destruct (includes _ _ && _); auto.
  destruct (NetworkInterceptor.process_body _ _ _ n1) as [r n2] eqn:P.
  simpl. replace n2 with (snd (NetworkInterceptor.process_body (VStr s)
                                (get d "method") (get d "data") n1))
    by now rewrite P.
  unfold NetworkInterceptor.process_body.
  destruct (match get d "data" with VStr s0 => Some s0 | _ => _ end); auto.
  destruct (NetworkInterceptor.JSON_parse _); auto.
  destruct (negb _ || negb _); auto.
  destruct (Node.graphqlHandler n1); auto using process_ok.
Qed.

(** C2, as amended.  Every record held in the dedup cache has an id that
    is neither [null] nor empty, whatever was passed to [addReel],
    whatever packets were relayed and whatever the page fallback
    returned; an item without [shortcode] and [code] is discarded by the
    parser, a record without [post_id] is ignored by [addReel], and the
    scrape loop offers to [savePost] only records with a [post_id].  The
    counts of a cached record are not checked: they are the values found
    in the payload. *)
Theorem cached_records_have_id :
  (forall ops, all_have_id (run ops empty))
  /\ (forall items,
        (truthy (get items "shortcode") = false ->
         truthy (get items "code") = false ->
         GraphQLExtractor.extractReelDataFromItem items = VNull)
        /\ (GraphQLExtractor.extractReelDataFromItem items = VNull
            \/ truthy (post_id (GraphQLExtractor.extractReelDataFromItem items))
               = true))
  /\ (forall r c, truthy (post_id r) = false -> addReel r c = (VUndefined, c))
  /\ (forall (J : NetworkInterceptor.Json) interceptedData n,
        node_ok n ->
        node_ok (snd (NetworkInterceptor.sendDataToNode interceptedData n)))
  /\ (forall parsedData url method n,
        node_ok n ->
        node_ok (snd (GraphQLHandler.processGraphQLResponse parsedData url
                        method n)))
  /\ (forall currentReelId domData c,
        all_have_id c ->
        all_have_id (snd (Scraper.resolveReelData currentReelId domData c)))
  /\ (forall storage r room saved,
        Scraper.offered_unsaved storage r room = Some saved ->
        truthy (post_id saved) = true)
  /\ (forall storage r seen saved,
        Scraper.offered_current storage r seen = Some saved ->
        truthy (post_id saved) = true).
Proof.
  split; [apply run_all_have_id|].
  split; [intros items; split;
          [apply extract_without_id | apply extract_null_or_id]|].
  split.
  { intros r c T. unfold addReel. fold (post_id r). rewrite T.
    now rewrite orb_true_r. }
  split; [apply sendDataToNode_ok|]. split; [apply process_ok|].
  split.
  { intros id dom c A. unfold Scraper.resolveReelData.
    destruct (truthy id && hasReel id c); auto.
    destruct dom as [r|]; auto.
    destruct (truthy r && truthy (get r "post_id")); auto.
    now apply addReel_all_have_id. }
  split.
  { intros storage r room saved. unfold Scraper.offered_unsaved.
    fold (post_id r).
    destruct storage, (truthy (post_id r)) eqn:T, room; try discriminate.
    now intros [= <-]. }
  intros storage r seen saved. unfold Scraper.offered_current.
  fold (post_id r).
  destruct (truthy r), (truthy (post_id r)) eqn:T, seen, storage;
    try discriminate.
  now intros [= <-].
Qed.

Lemma fresh_node_ok : node_ok Samples.fresh_node.
Proof. split; constructor. Qed.

Lemma cached_records_have_id_witness :
  all_have_id (run [AddReel (Samples.reel "A" 120); AddReel VNull] empty)
  /\ GraphQLExtractor.extractReelDataFromItem
       (VObj [("like_count", VNum 3)]) = VNull
  /\ addReel (VObj [("likes_count", VNum 3)]) empty = (VUndefined, empty)
  /\ node_ok (snd (GraphQLHandler.processGraphQLResponse
                     (Samples.single Samples.item_negative_likes)
                     Samples.graphql_url (VStr "POST") Samples.fresh_node)).
Proof.
  destruct cached_records_have_id as [R [E [A [_ [P _]]]]].
  split; [apply R|].
  split; [apply (proj1 (E _)); reflexivity|].
  split; [apply A; reflexivity|].
  apply P. exact fresh_node_ok.
Defined.

End ValidityGate.

(** C2 as stated fails on the counts: a payload item with a negative
    [like_count] is cached with that count. *)
Lemma cached_record_with_negative_count :
  let n := snd (GraphQLHandler.processGraphQLResponse
                  (Samples.single Samples.item_negative_likes)
                  (JS.VStr "https://www.instagram.com/graphql/query")
                  (JS.VStr "POST") Samples.fresh_node) in
  let r := ReelCollector.getReel (JS.VStr "X") (PipelineSpec.cache n) in
  In r (ReelCollector.getAllReels (PipelineSpec.cache n))
  /\ CollectorSpec.post_id r = JS.VStr "X"
  /\ JS.get r "likes_count" = JS.VNum (-5)
  /\ CollectorSpec.valid_record r = false.
Proof. vm_compute. repeat split. left. reflexivity. Qed.

(** ** The shape parser *)

Section ShapeParser.
Import JS ReelCollector CollectorSpec PipelineSpec ParserSpec.

Lemma get_some_object : forall v k, get v k <> VUndefined -> truthy v = true.
Proof. intros v k. destruct v; simpl; congruence. Qed.

Lemma item_id_truthy : forall item x,
  item_id item = VStr x -> x <> EmptyString ->
  truthy item = true /\ truthy (item_id item) = true.
Proof.
  intros item x E N. split.
  - destruct item; try reflexivity; discriminate.
  - rewrite E. simpl. destruct (String.eqb x EmptyString) eqn:Q; auto.
    apply String.eqb_eq in Q. contradiction.
Qed.

(** The record extracted from an item with an id. *)
Lemma extract_item : forall item x,
  item_id item = VStr x -> x <> EmptyString ->
  is_ok (HashtagExtractor.extractFromGraphQL item) = true ->
  let r := GraphQLExtractor.extractReelFromGraphQLItem item in
  GraphQLExtractor.extractReelDataFromItem item = r
  /\ admissible r = true /\ post_id r = VStr x.
Proof.
  intros item x E N O. destruct (item_id_truthy item x E N) as [Ti Tx].
  unfold GraphQLExtractor.extractReelFromGraphQLItem.
  rewrite Ti. simpl. split; auto.
  unfold GraphQLExtractor.extractReelDataFromItem, get_strict.
  assert (Nl : nullish item = false) by (destruct item; auto; discriminate).
  rewrite Nl.
  destruct (HashtagExtractor.extractFromGraphQL item) as [h|]; [|discriminate].
  assert (Pid : get (GraphQLExtractor.reelData_of item h) "post_id" = VStr x).
  { rewrite reelData_post_id. fold (item_id item).
    unfold or_else at 1. now rewrite Tx. }
  assert (Tv : truthy (VStr x) = true) by now rewrite <- E.
  rewrite Pid, Tv. unfold admissible, post_id. rewrite Pid, Tv. auto.
Qed.

Lemma map_has_set_mono : forall k k' v m,
  map_has k m = true -> map_has k (map_set k' v m) = true.
Proof.
  intros k k' v m. induction m as [|[k0 v0] m IH]; simpl; [discriminate|].
  intros Hs. destruct (value_eqb k' k0); simpl.
  - exact Hs.
  - apply orb_true_iff in Hs as [Hs|Hs]; rewrite ?Hs; auto.
    rewrite IH by assumption. apply orb_true_r.
Qed.

Lemma hasReel_addReel_mono : forall k r c,
  hasReel k c = true -> hasReel k (snd (addReel r c)) = true.
Proof.
  intros k r c Hs. unfold addReel, hasReel in *.
  destruct (negb (truthy r) || negb (truthy (get r "post_id"))); auto.
  destruct (negb (map_has (get r "post_id") (collectedReels c))); auto.
  simpl. now apply map_has_set_mono.
Qed.

Lemma keyed_addReel : forall r c, keyed c -> keyed (snd (addReel r c)).
Proof.
  intros r c K. unfold addReel.
  destruct (negb (truthy r) || negb (truthy (get r "post_id"))); auto.
  destruct (map_has (get r "post_id") (collectedReels c)) eqn:Hs; auto.
  unfold keyed. simpl. rewrite map_set_absent by assumption.
  apply Forall_app. split; auto.
Qed.

Lemma keyed_getReel : forall x c,
  keyed c -> hasReel (VStr x) c = true ->
  post_id (getReel (VStr x) c) = VStr x.
Proof.
  intros x c. unfold getReel, hasReel, keyed.
  induction (collectedReels c) as [|[k v] m IH]; cbn [map_get map_has];
    intros K Hs; [discriminate|].
  apply Forall_cons_iff in K as [Ke Km]. cbn [fst snd] in Ke.
  destruct (value_eqb (VStr x) k) eqn:Q.
  - apply value_eqb_eq in Q. rewrite <- Q in Ke. clear Q.
    assert (T : truthy v = true).
    { apply (get_some_object v "post_id"). unfold post_id in Ke.
      rewrite <- Ke. discriminate. }
    unfold or_else. rewrite T. now symmetry.
  - cbn [orb] in Hs. now apply IH.
Qed.

Lemma yields_of : forall x n,
  collecting n -> hasReel (VStr x) (cache n) = true -> yields x n.
Proof.
  intros x n [c [E K]] Hs. unfold yields, cache in *. rewrite E in *.
  split; auto. now apply keyed_getReel.
Qed.

Lemma collecting_addReel : forall r n, collecting n -> collecting (Node.addReel r n).
Proof.
  intros r n [c [E K]]. unfold Node.addReel. rewrite E.
  eexists. split; [reflexivity|]. now apply keyed_addReel.
Qed.

Lemma collecting_save : forall u m d n,
  collecting n -> collecting (Node.saveRawPacket u m d n).
Proof.
  intros u m d n C. unfold Node.saveRawPacket. now destruct (Node.storage n).
Qed.

Lemma cache_save : forall u m d n, cache (Node.saveRawPacket u m d n) = cache n.
Proof.
  intros. unfold Node.saveRawPacket. now destruct (Node.storage n).
Qed.

Lemma cache_addReel : forall r n,
  collecting n -> cache (Node.addReel r n) = snd (addReel r (cache n)).
Proof.
  intros r n [c [E _]]. unfold Node.addReel, cache. now rewrite E.
Qed.

Lemma has_node_addReel : forall k r n,
  hasReel k (cache n) = true -> hasReel k (cache (Node.addReel r n)) = true.
Proof.
  intros k r n. unfold Node.addReel, cache.
  destruct (Node.reelCollector n) as [c|] eqn:E; cbn [Node.reelCollector].
  - apply hasReel_addReel_mono.
  - now rewrite E.
Qed.

Lemma collecting_collect : forall u m media n,
  collecting n -> collecting (GraphQLHandler.collect u m media n).
Proof.
  intros. unfold GraphQLHandler.collect.
  destruct (truthy _ && truthy _);
    auto using collecting_addReel, collecting_save.
Qed.

Lemma has_collect : forall k u m media n,
  hasReel k (cache n) = true ->
  hasReel k (cache (GraphQLHandler.collect u m media n)) = true.
Proof.
  intros. unfold GraphQLHandler.collect.
  destruct (truthy _ && truthy _).
  - apply has_node_addReel. now rewrite cache_save.
  - now rewrite cache_save.
Qed.

(** Collecting an item with an id puts a record under that id. *)
Lemma collect_item : forall u m item x n,
  item_id item = VStr x -> x <> EmptyString ->
  is_ok (HashtagExtractor.extractFromGraphQL item) = true ->
  collecting n ->
  hasReel (VStr x) (cache (GraphQLHandler.collect u m item n)) = true.
Proof.
  intros u m item x n E N O C. unfold GraphQLHandler.collect.
  destruct (extract_item item x E N O) as [_ [A P]].
  set (r := GraphQLExtractor.extractReelFromGraphQLItem item) in *.
  unfold admissible in A. fold (post_id r). rewrite A.
  rewrite cache_addReel by now apply collecting_save.
  rewrite <- P. apply addReel_has. exact A.
Qed.

Lemma fold_collect_keeps : forall u m l n,
  collecting n ->
  collecting (fold_left (fun n' media => GraphQLHandler.collect u m media n') l n)
  /\ forall k, hasReel k (cache n) = true ->
       hasReel k (cache (fold_left
                           (fun n' media => GraphQLHandler.collect u m media n')
                           l n)) = true.
Proof.
  intros u m l. induction l as [|a l IH]; intros n C; simpl; auto.
  destruct (IH (GraphQLHandler.collect u m a n)
              (collecting_collect u m a n C)) as [C' H'].
  split; auto. intros k Hk. apply H'. now apply has_collect.
Qed.

Lemma fold_collect_item : forall u m item x l n,
  item_id item = VStr x -> x <> EmptyString ->
  is_ok (HashtagExtractor.extractFromGraphQL item) = true ->
  collecting n -> In item l ->
  hasReel (VStr x)
    (cache (fold_left (fun n' media => GraphQLHandler.collect u m media n') l n))
  = true.
Proof.
  intros u m item x l. induction l as [|a l IH]; intros n E N O C I;
    [contradiction|].
  simpl. destruct I as [->|I].
  - apply fold_collect_keeps; [now apply collecting_collect|].
    now apply collect_item.
  - apply IH; auto using collecting_collect.
Qed.

Lemma get_object_truthy : forall v k w,
  get v k = w -> truthy w = true -> truthy v = true.
Proof.
  intros v k w E T. apply (get_some_object v k). rewrite E.
  intros U. rewrite U in T. discriminate.
Qed.

Lemma get_object_nullish : forall v k w,
  get v k = w -> truthy w = true -> nullish v = false.
Proof. intros v k w E T. destruct v; auto; subst; discriminate. Qed.

(** (a) A single item under [xdt_shortcode_media] or [shortcode_media]. *)
Lemma single_item_yields : forall parsed d item x u m n,
  get parsed "data" = d ->
  truthy (get d "xdt_api__v1__clips__home__connection_v2") = false ->
  (get d "xdt_shortcode_media" = item
   \/ (truthy (get d "xdt_shortcode_media") = false
       /\ get d "shortcode_media" = item)) ->
  identified item x -> collecting n ->
  yields x (snd (GraphQLHandler.processGraphQLResponse parsed u m n)).
Proof.
  intros parsed d item x u m n Ed Hh Hs [E [N O]] C.
  destruct (item_id_truthy item x E N) as [Ti _].
  assert (Td : truthy d = true).
  { destruct Hs as [Hs|[_ Hs]]; eapply get_object_truthy; eauto. }
  assert (Tp : truthy parsed = true) by (eapply get_object_truthy; eauto).
  assert (Sel : GraphQLExtractor.select_items parsed = Ok item).
  { unfold GraphQLExtractor.select_items. rewrite Ed.
    destruct Hs as [Hs|[Hx Hs]].
    - now rewrite Hs, Ti.
    - now rewrite Hx, Hs, Ti. }
  assert (Tm : truthy (get d "xdt_shortcode_media")
               || truthy (get d "shortcode_media") = true).
  { destruct Hs as [Hs|[Hx Hs]]; rewrite Hs, Ti; auto using orb_true_r. }
  unfold GraphQLHandler.processGraphQLResponse. rewrite Ed, Tp, Td, Hh, Tm.
  cbn [negb orb snd].
  unfold GraphQLExtractor.extractReelFromGraphQL. rewrite Sel, Ti. cbn [negb].
  destruct (extract_item item x E N O) as [R [A P]]. rewrite R.
  set (r := GraphQLExtractor.extractReelFromGraphQLItem item) in *.
  unfold admissible in A. fold (post_id r). rewrite A.
  set (n1 := if truthy _ then _ else n).
  assert (C1 : collecting n1).
  { unfold n1. destruct (truthy (_ ||| _)); auto using collecting_save. }
  apply yields_of; [now apply collecting_addReel|].
  rewrite cache_addReel by assumption. rewrite <- P. now apply addReel_has.
Qed.

Lemma collect_edges_keeps : forall u m edges n,
  collecting n ->
  collecting (snd (GraphQLHandler.collect_edges u m edges n))
  /\ forall k, hasReel k (cache n) = true ->
       hasReel k (cache (snd (GraphQLHandler.collect_edges u m edges n))) = true.
Proof.
  intros u m edges. induction edges as [|e edges IH]; intros n C; simpl; auto.
  destruct (get_strict e "node") as [node|]; simpl; auto.
  set (n1 := if truthy _ then _ else n).
  assert (C1 : collecting n1).
  { unfold n1. destruct (truthy _); auto using collecting_collect. }
  destruct (IH n1 C1) as [C' H']. split; auto.
  intros k Hk. apply H'. unfold n1. destruct (truthy _); auto using has_collect.
Qed.

Lemma collect_edges_item : forall u m pre edge post item x n,
  Forall (fun e => nullish e = false) pre ->
  get (get edge "node") "media" = item ->
  identified item x -> collecting n ->
  hasReel (VStr x)
    (cache (snd (GraphQLHandler.collect_edges u m (pre ++ edge :: post) n)))
  = true.
Proof.
  intros u m pre edge post item x n F Em [E [N O]].
  destruct (item_id_truthy item x E N) as [Ti _].
  revert n. induction F as [|e pre Ne _ IH]; intros n C.
  - cbn [app GraphQLHandler.collect_edges]. unfold get_strict.
    assert (Nn : nullish edge = false).
    { assert (Tn : truthy (get edge "node") = true)
        by (eapply get_object_truthy; eauto).
      eapply get_object_nullish; eauto. }
    rewrite Nn, Em, Ti.
    apply collect_edges_keeps; [now apply collecting_collect|].
    now apply collect_item.
  - cbn [app GraphQLHandler.collect_edges]. unfold get_strict. rewrite Ne.
    apply IH. destruct (truthy (get _ "media")); auto using collecting_collect.
Qed.

(** (b) An item among the edges of the feed connection. *)
Lemma feed_item_yields : forall parsed d conn pre edge post item x u m n,
  get parsed "data" = d ->
  get d "xdt_api__v1__clips__home__connection_v2" = conn ->
  get conn "edges" = VArr (pre ++ edge :: post) ->
  Forall (fun e => nullish e = false) pre ->
  get (get edge "node") "media" = item ->
  identified item x -> collecting n ->
  yields x (snd (GraphQLHandler.processGraphQLResponse parsed u m n)).
Proof.
  intros parsed d conn pre edge post item x u m n Ed Ec Ee F Em I C.
  assert (Tc : truthy conn = true) by (eapply get_object_truthy; eauto).
  assert (Td : truthy d = true) by (eapply get_object_truthy; eauto).
  assert (Tp : truthy parsed = true) by (eapply get_object_truthy; eauto).
  unfold GraphQLHandler.processGraphQLResponse.
  rewrite Ed, Tp, Td, Ec, Tc, Ee. cbn [negb orb or_else truthy iterate].
  apply yields_of.
  - now apply collect_edges_keeps.
  - eapply collect_edges_item; eauto.
Qed.

(** (d) An item the deep search finds in an unrecognized shape. *)
Lemma found_item_yields : forall parsed d item x u m n,
  get parsed "data" = d ->
  truthy d = true -> typeof_object d = true ->
  truthy (get d "xdt_api__v1__clips__home__connection_v2") = false ->
  truthy (get d "xdt_shortcode_media") = false ->
  truthy (get d "shortcode_media") = false ->
  In item (GraphQLHandler.findMediaObjects d 0) ->
  identified item x -> collecting n ->
  yields x (snd (GraphQLHandler.processGraphQLResponse parsed u m n)).
Proof.
  intros parsed d item x u m n Ed Td Od Hh Hx Hs I [E [N O]] C.
  assert (Tp : truthy parsed = true) by (eapply get_object_truthy; eauto).
  unfold GraphQLHandler.processGraphQLResponse.
  rewrite Ed, Tp, Td, Od, Hh, Hx, Hs. cbn [negb orb andb snd].
  apply yields_of.
  - now apply fold_collect_keeps.
  - eapply fold_collect_item; eauto.
Qed.

Lemma is_media_object : forall item,
  GraphQLHandler.is_media item = true -> exists props, item = VObj props.
Proof. intros item. destruct item; try discriminate. eauto. Qed.

Lemma nest_object : forall path props,
  exists q, Samples.nest path (VObj props) = VObj q.
Proof. intros path props. destruct path; simpl; eauto. Qed.

Lemma nest_found_from : forall path fuel item,
  GraphQLHandler.is_media item = true ->
  (List.length path < fuel)%nat ->
  In item (GraphQLHandler.findMediaObjects_from fuel (Samples.nest path item)).
Proof.
  induction path as [|k path IH]; intros fuel item Mi L;
    (destruct fuel as [|fuel]; [inversion L|]);
    destruct (is_media_object item Mi) as [props ->].
  - cbn [Samples.nest fold_right GraphQLHandler.findMediaObjects_from
           truthy typeof_object negb orb].
    rewrite Mi. left. reflexivity.
  - cbn [Samples.nest fold_right]. fold (Samples.nest path (VObj props)).
    cbn [GraphQLHandler.findMediaObjects_from truthy typeof_object negb orb
           GraphQLHandler.children map fst lookup flat_map].
    rewrite String.eqb_refl. apply in_or_app. right.
    rewrite app_nil_r.
    destruct (nest_object path props) as [q Eq].
    specialize (IH fuel (VObj props) Mi ltac:(simpl in L; lia)).
    rewrite Eq in *. cbn [truthy typeof_object andb]. exact IH.
Qed.

Lemma identified_is_media : forall item x,
  identified item x -> discriminated item = true ->
  GraphQLHandler.is_media item = true.
Proof.
  intros item x [E [N _]] D. destruct (item_id_truthy item x E N) as [_ T].
  unfold GraphQLHandler.is_media. fold (discriminated item). rewrite D.
  rewrite andb_true_r. unfold item_id, or_else in T.
  destruct (truthy (get item "shortcode")) eqn:S.
  - rewrite !orb_true_r. reflexivity.
  - rewrite T. rewrite !orb_true_r. reflexivity.
Qed.

Lemma nest_found : forall path item x,
  identified item x -> discriminated item = true ->
  (List.length path <= 5)%nat ->
  In item (GraphQLHandler.findMediaObjects (Samples.nest path item) 0).
Proof.
  intros path item x I D L. unfold GraphQLHandler.findMediaObjects.
  apply nest_found_from; [eapply identified_is_media; eauto | simpl; lia].
Qed.

Lemma no_data_ignored : forall parsed u m n,
  truthy (get parsed "data") = false ->
  GraphQLHandler.processGraphQLResponse parsed u m n = (Ok tt, n).
Proof.
  intros parsed u m n T. unfold GraphQLHandler.processGraphQLResponse.
  rewrite T. now rewrite orb_true_r.
Qed.

Lemma bare_items_extracted : forall item x,
  identified item x ->
  post_id (GraphQLExtractor.extractReelFromGraphQL (Samples.bare_items item))
  = VStr x.
Proof.
  intros item x [E [N O]]. destruct (item_id_truthy item x E N) as [Ti _].
  unfold GraphQLExtractor.extractReelFromGraphQL.
  assert (Sel : GraphQLExtractor.select_items (Samples.bare_items item)
                = Ok item) by reflexivity.
  rewrite Sel, Ti. cbn [negb].
  destruct (extract_item item x E N O) as [R [_ P]]. now rewrite R.
Qed.

(** C3, as amended.  For an item that carries the identifier [x] (in
    [shortcode], else in [code]) and whose tag fields do not make the tag
    extraction raise, [processGraphQLResponse] leaves a record with
    [post_id] [x] in the cache when the payload is (a) a single item
    under [data.xdt_shortcode_media] or [data.shortcode_media], (b) the
    feed connection with the item in an edge that no nullish edge
    precedes, or (d) an unrecognized object under [data] in which the
    deep search finds the item, as it does for an item with a video-type
    discriminator at most five objects down.  (c) A payload without a
    top-level [data] field, such as a bare item array, is left alone by
    [processGraphQLResponse]; only [extractReelFromGraphQL], which the
    handler does not reach for it, reads the id of its first item. *)
Theorem shape_parser_yields_id :
  (forall parsed d item x u m n,
      get parsed "data" = d ->
      truthy (get d "xdt_api__v1__clips__home__connection_v2") = false ->
      (get d "xdt_shortcode_media" = item
       \/ (truthy (get d "xdt_shortcode_media") = false
           /\ get d "shortcode_media" = item)) ->
      identified item x -> collecting n ->
      yields x (snd (GraphQLHandler.processGraphQLResponse parsed u m n)))
  /\ (forall parsed d conn pre edge post item x u m n,
        get parsed "data" = d ->
        get d "xdt_api__v1__clips__home__connection_v2" = conn ->
        get conn "edges" = VArr (pre ++ edge :: post) ->
        Forall (fun e => nullish e = false) pre ->
        get (get edge "node") "media" = item ->
        identified item x -> collecting n ->
        yields x (snd (GraphQLHandler.processGraphQLResponse parsed u m n)))
  /\ (forall parsed d item x u m n,
        get parsed "data" = d ->
        truthy d = true -> typeof_object d = true ->
        truthy (get d "xdt_api__v1__clips__home__connection_v2") = false ->
        truthy (get d "xdt_shortcode_media") = false ->
        truthy (get d "shortcode_media") = false ->
        In item (GraphQLHandler.findMediaObjects d 0) ->
        identified item x -> collecting n ->
        yields x (snd (GraphQLHandler.processGraphQLResponse parsed u m n)))
  /\ (forall path item x,
        identified item x -> discriminated item = true ->
        (List.length path <= 5)%nat ->
        In item (GraphQLHandler.findMediaObjects (Samples.nest path item) 0))
  /\ (forall parsed u m n,
        truthy (get parsed "data") = false ->
        GraphQLHandler.processGraphQLResponse parsed u m n = (Ok tt, n))
  /\ (forall item x,
        identified item x ->
        get (Samples.bare_items item) "data" = VUndefined
        /\ post_id (GraphQLExtractor.extractReelFromGraphQL
                      (Samples.bare_items item)) = VStr x).
Proof.
  split; [exact single_item_yields|].
  split; [exact feed_item_yields|].
  split; [exact found_item_yields|].
  split; [exact nest_found|].
  split; [exact no_data_ignored|].
  intros item x I. split; [reflexivity | now apply bare_items_extracted].
Qed.

Lemma sample_identified : identified (Samples.item "X") "X".
Proof. split; [reflexivity | split; [discriminate | reflexivity]]. Qed.

Lemma fresh_node_collecting : collecting Samples.fresh_node.
Proof. exists empty. split; [reflexivity | constructor]. Qed.

Lemma shape_parser_yields_id_witness :
  yields "X" (snd (GraphQLHandler.processGraphQLResponse
                     (Samples.single (Samples.item "X"))
                     Samples.graphql_url (VStr "POST") Samples.fresh_node))
  /\ yields "X" (snd (GraphQLHandler.processGraphQLResponse
                        (Samples.feed [Samples.item "X"])
                        Samples.graphql_url (VStr "POST") Samples.fresh_node))
  /\ yields "X" (snd (GraphQLHandler.processGraphQLResponse
                        (Samples.drifted (Samples.item "X"))
                        Samples.graphql_url (VStr "POST") Samples.fresh_node))
  /\ In (Samples.item "X")
        (GraphQLHandler.findMediaObjects
           (Samples.nest ["a"; "b"; "c"; "d"; "e"] (Samples.item "X")) 0)
  /\ GraphQLHandler.processGraphQLResponse (Samples.bare_items (Samples.item "X"))
       Samples.graphql_url (VStr "POST") Samples.fresh_node
     = (Ok tt, Samples.fresh_node)
  /\ post_id (GraphQLExtractor.extractReelFromGraphQL
                (Samples.bare_items (Samples.item "X"))) = VStr "X".
Proof.
  destruct shape_parser_yields_id as [Ha [Hb [Hd [Hn [Hc He]]]]].
  split.
  { apply (Ha _ (get (Samples.single (Samples.item "X")) "data")
             (Samples.item "X"));
      [reflexivity | reflexivity | right; split; reflexivity
      | exact sample_identified | exact fresh_node_collecting]. }
  split.
  { apply (Hb _ (get (Samples.feed [Samples.item "X"]) "data")
             (get (get (Samples.feed [Samples.item "X"]) "data")
                "xdt_api__v1__clips__home__connection_v2")
             [] (edge_of (Samples.item "X")) [] (Samples.item "X"));
      [reflexivity | reflexivity | reflexivity | constructor | reflexivity
      | exact sample_identified | exact fresh_node_collecting]. }
  split.
  { apply (Hd _ (get (Samples.drifted (Samples.item "X")) "data")
             (Samples.item "X"));
      [reflexivity | reflexivity | reflexivity | reflexivity | reflexivity
      | reflexivity | vm_compute; left; reflexivity
      | exact sample_identified | exact fresh_node_collecting]. }
  split.
  { apply (Hn _ _ "X"); [exact sample_identified | reflexivity | simpl; lia]. }
  split.
  { apply Hc. reflexivity. }
  { apply (He _ "X"). exact sample_identified. }
Defined.

(** C3 as stated fails for shape (c), and for shape (d) below the depth
    bound: a bare item array, and an item six objects below [data], leave
    the cache without a record for the item. *)
Lemma bare_item_array_yields_nothing :
  let on payload :=
    snd (GraphQLHandler.processGraphQLResponse payload Samples.graphql_url
           (VStr "POST") Samples.fresh_node) in
  hasReel (VStr "X") (cache (on (Samples.bare_items (Samples.item "X")))) = false
  /\ ~ yields "X" (on (Samples.bare_items (Samples.item "X")))
  /\ hasReel (VStr "X") (cache (on (Samples.buried (Samples.item "X")))) = false
  /\ ~ yields "X" (on (Samples.buried (Samples.item "X"))).
Proof.
  cbv zeta. repeat split; try reflexivity; intros [Hs _]; vm_compute in Hs;
    discriminate.
Qed.

(** The two provisos of the amended claim are needed: an item whose tag
    array holds [null] is dropped by the [catch] of the extractor, and a
    [null] edge ends the loop over the edges with an error before the
    edges after it are read. *)
Lemma malformed_neighbours_drop_the_record :
  let on payload :=
    GraphQLHandler.processGraphQLResponse payload Samples.graphql_url
      (VStr "POST") Samples.fresh_node in
  hasReel (VStr "X") (cache (snd (on (Samples.single Samples.item_null_tag))))
  = false
  /\ fst (on (Samples.feed_null_edge (Samples.item "X"))) = Throw
  /\ hasReel (VStr "X")
       (cache (snd (on (Samples.feed_null_edge (Samples.item "X"))))) = false.
Proof. cbv zeta. repeat split. Qed.

End ShapeParser.

(** ** The interception callback *)

Section Interception.
Import JS PipelineSpec InterceptSpec.

Lemma similar_refl : forall n, similar n n.
Proof. intros n. repeat split. Qed.

Lemma similar_save : forall u m d n n',
  similar n n' ->
  similar (Node.saveRawPacket u m d n) (Node.saveRawPacket u m d n').
Proof.
  intros u m d n n' [Hc [Hm Hh]]. unfold Node.saveRawPacket, similar.
  destruct (Node.storage n) as [s|] eqn:Es, (Node.storage n') as [s'|] eqn:Es';
    try discriminate; cbn in *.
  - injection Hm as Hm He. unfold Storage.saveRawPacket. rewrite Hm, He.
    repeat split; auto. now destruct (Storage.appendErrors s') as [|[] rest].
  - rewrite Es, Es'. auto.
Qed.

Lemma similar_addReel : forall r n n',
  similar n n' -> similar (Node.addReel r n) (Node.addReel r n').
Proof.
  intros r n n' [Hc [Hm Hh]]. unfold Node.addReel, similar.
  rewrite <- Hc. destruct (Node.reelCollector n) eqn:E; simpl; auto.
  rewrite <- Hc. auto.
Qed.

Lemma similar_collect : forall u m media n n',
  similar n n' ->
  similar (GraphQLHandler.collect u m media n)
          (GraphQLHandler.collect u m media n').
Proof.
  intros. unfold GraphQLHandler.collect.
  destruct (truthy _ && truthy _); auto using similar_addReel, similar_save.
Qed.

Lemma similar_collect_edges : forall u m edges n n',
  similar n n' ->
  fst (GraphQLHandler.collect_edges u m edges n)
  = fst (GraphQLHandler.collect_edges u m edges n')
  /\ similar (snd (GraphQLHandler.collect_edges u m edges n))
             (snd (GraphQLHandler.collect_edges u m edges n')).
Proof.
  intros u m edges. induction edges as [|e edges IH]; intros n n' S; simpl;
    auto.
  destruct (get_strict e "node"); simpl; auto.
  apply IH. destruct (truthy (get _ "media")); auto using similar_collect.
Qed.

Lemma similar_process : forall parsed u m n n',
  similar n n' ->
  fst (GraphQLHandler.processGraphQLResponse parsed u m n)
  = fst (GraphQLHandler.processGraphQLResponse parsed u m n')
  /\ similar (snd (GraphQLHandler.processGraphQLResponse parsed u m n))
             (snd (GraphQLHandler.processGraphQLResponse parsed u m n')).
Proof.
  intros parsed u m n n' S. unfold GraphQLHandler.processGraphQLResponse.
  destruct (negb (truthy parsed) || negb (truthy (get parsed "data"))); auto.
  destruct (truthy (get (get parsed "data")
                      "xdt_api__v1__clips__home__connection_v2")).
  { destruct (iterate _); simpl; auto using similar_collect_edges. }
  destruct (truthy (get (get parsed "data") "xdt_shortcode_media")
            || truthy (get (get parsed "data") "shortcode_media")).
  { simpl. split; auto.
    destruct (truthy (_ ||| _)); destruct (truthy _ && truthy _);
      auto using similar_addReel, similar_save. }
  destruct (truthy (get parsed "data") && typeof_object (get parsed "data"));
    auto.
  simpl. split; auto.
  generalize (GraphQLHandler.findMediaObjects (get parsed "data") 0).
  intros l. revert n n' S. induction l as [|x l IH]; intros n n' S; simpl; auto.
  apply IH. now apply similar_collect.
Qed.

Lemma similar_records : forall n n', similar n n' -> records n = records n'.
Proof.
  intros n n' [Hc [Hm _]]. unfold records. rewrite Hc. f_equal.
  destruct (Node.storage n), (Node.storage n'); try discriminate Hm;
    [|reflexivity].
  cbn in *. now injection Hm as -> _.
Qed.

Lemma strip_prefixed : forall body,
  NetworkInterceptor.strip_prefix (String.append NetworkInterceptor.prefix body)
  = skip_spaces body.
Proof. reflexivity. Qed.

Lemma strip_unprefixed : forall text,
  startsWith NetworkInterceptor.prefix text = false ->
  NetworkInterceptor.strip_prefix text = text.
Proof. intros text E. unfold NetworkInterceptor.strip_prefix. now rewrite E. Qed.

Lemma process_body_similar :
  forall (J : NetworkInterceptor.Json) u m text text' n n',
  NetworkInterceptor.strip_prefix text = NetworkInterceptor.strip_prefix text' ->
  similar n n' ->
  similar (snd (NetworkInterceptor.process_body u m (VStr text) n))
          (snd (NetworkInterceptor.process_body u m (VStr text') n')).
Proof.
  intros J u m text text' n n' E S. unfold NetworkInterceptor.process_body.
  rewrite <- E. destruct (NetworkInterceptor.JSON_parse _) as [parsed|]; auto.
  destruct (negb (truthy parsed) || negb (truthy (get parsed "data"))); auto.
  assert (Hh : Node.graphqlHandler n' = Node.graphqlHandler n)
    by (symmetry; apply S).
  rewrite Hh. destruct (Node.graphqlHandler n); auto.
  now apply similar_process.
Qed.

(** What the callback does with a packet whose body is a string. *)
Lemma relay_string : forall (J : NetworkInterceptor.Json) url method body n,
  exists n1,
    similar n1 n
    /\ relay J url method body n =
       (Ok tt,
        if includes "/graphql/query" url && String.eqb method "POST"
        then snd (NetworkInterceptor.process_body (VStr url) (VStr method)
                    (VStr body) n1)
        else n1).
Proof.
  intros J url method body n. unfold relay, NetworkInterceptor.sendDataToNode.
  cbn [NetworkInterceptor.packet nullish get lookup String.eqb Ascii.eqb
         Bool.eqb andb value_eqb].
  match goal with
  | |- context [match Node.storage n with Some s => @?a s | None => ?b end] =>
      exists (match Node.storage n with Some s => a s | None => b end)
  end.
  split.
  - destruct (Node.storage n) eqn:Es; [|apply similar_refl].
    destruct (truthy (VStr body)); [|apply similar_refl].
    repeat split; cbn. now rewrite Es.
  - destruct (includes "/graphql/query" url && String.eqb method "POST");
      auto.
    now destruct (NetworkInterceptor.process_body _ _ _ _).
Qed.

Lemma similar_trans : forall a b c, similar a b -> similar b c -> similar a c.
Proof.
  intros a b c [H1 [H2 H3]] [H4 [H5 H6]]. repeat split; congruence.
Qed.

Lemma similar_sym : forall a b, similar a b -> similar b a.
Proof. intros a b [H1 [H2 H3]]. repeat split; congruence. Qed.

Lemma relay_same_clean : forall (J : NetworkInterceptor.Json) url method text text' n,
  NetworkInterceptor.strip_prefix text = NetworkInterceptor.strip_prefix text' ->
  records (snd (relay J url method text n))
  = records (snd (relay J url method text' n)).
Proof.
  intros J url method text text' n E.
  destruct (relay_string J url method text n) as [n1 [S1 R1]].
  destruct (relay_string J url method text' n) as [n2 [S2 R2]].
  rewrite R1, R2. cbn [snd]. apply similar_records.
  assert (S : similar n1 n2)
    by (eapply similar_trans; [eassumption | now apply similar_sym]).
  destruct (includes "/graphql/query" url && String.eqb method "POST"); auto.
  now apply process_body_similar.
Qed.

Lemma relay_unparsed : forall (J : NetworkInterceptor.Json) url method body n,
  NetworkInterceptor.JSON_parse (NetworkInterceptor.strip_prefix body) = Throw ->
  records (snd (relay J url method body n)) = records n.
Proof.
  intros J url method body n P.
  destruct (relay_string J url method body n) as [n1 [S1 R1]].
  rewrite R1. cbn [snd]. apply similar_records.
  destruct (includes "/graphql/query" url && String.eqb method "POST"); auto.
  unfold NetworkInterceptor.process_body. now rewrite P.
Qed.

Lemma sendDataToNode_returns : forall (J : NetworkInterceptor.Json) d n,
  fst (NetworkInterceptor.sendDataToNode d n) = Ok tt.
Proof.
  intros J d n. unfold NetworkInterceptor.sendDataToNode.
  destruct (nullish d); auto.
  destruct (get d "url"); auto.
  destruct (includes _ _ && _); auto.
  now destruct (NetworkInterceptor.process_body _ _ _ _).
Qed.

(** C4, as amended.  The prefix is removed once, together with the
    whitespace that follows it: a body made of the prefix and a remainder
    produces exactly the records of the remainder without its leading
    whitespace, provided that this does not begin with the prefix again;
    in particular, for a remainder that begins with neither whitespace
    nor the prefix, the prefixed and the unprefixed body produce the same
    records.  A body whose cleaned text fails to parse produces no record
    (the cache and the media log stay as they were), and the callback
    never raises, whatever it is handed. *)
Theorem prefix_stripped_once_and_parse_failure_silent :
  forall (J : NetworkInterceptor.Json) url method body n,
  (startsWith NetworkInterceptor.prefix (skip_spaces body) = false ->
   records (snd (relay J url method
                   (String.append NetworkInterceptor.prefix body) n))
   = records (snd (relay J url method (skip_spaces body) n)))
  /\ (startsWith NetworkInterceptor.prefix body = false ->
      skip_spaces body = body ->
      records (snd (relay J url method
                      (String.append NetworkInterceptor.prefix body) n))
      = records (snd (relay J url method body n)))
  /\ (NetworkInterceptor.JSON_parse (NetworkInterceptor.strip_prefix body)
      = Throw ->
      records (snd (relay J url method body n)) = records n)
  /\ (forall interceptedData,
        fst (NetworkInterceptor.sendDataToNode interceptedData n) = Ok tt).
Proof.
  intros J url method body n.
  assert (G : startsWith NetworkInterceptor.prefix (skip_spaces body) = false ->
              records (snd (relay J url method
                              (String.append NetworkInterceptor.prefix body) n))
              = records (snd (relay J url method (skip_spaces body) n))).
  { intros E. apply relay_same_clean.
    now rewrite strip_prefixed, strip_unprefixed. }
  split; [exact G|].
  split; [intros E W; rewrite <- W at 2; apply G; now rewrite W|].
  split; [apply relay_unparsed|].
  intros d. apply sendDataToNode_returns.
Qed.

Lemma prefix_stripped_once_witness :
  records (snd (relay sample_json url_A "POST"
                  (String.append NetworkInterceptor.prefix text_A)
                  Samples.fresh_node))
  = records (snd (relay sample_json url_A "POST" text_A Samples.fresh_node))
  /\ records (snd (relay sample_json url_A "POST" "<html></html>"
                     Samples.fresh_node))
     = records Samples.fresh_node.
Proof.
  destruct (prefix_stripped_once_and_parse_failure_silent
              sample_json url_A "POST" text_A Samples.fresh_node)
    as [_ [H _]].
  destruct (prefix_stripped_once_and_parse_failure_silent
              sample_json url_A "POST" "<html></html>" Samples.fresh_node)
    as [_ [_ [F _]]].
  split.
  - apply H; reflexivity.
  - apply F. reflexivity.
Defined.

(** C4 as stated fails on a body that carries the prefix twice: with one
    prefix the reel is recorded, with two it is not. *)
Lemma doubly_prefixed_body_differs :
  let body := String.append NetworkInterceptor.prefix text_A in
  let once := snd (relay sample_json url_A "POST" body Samples.fresh_node) in
  let twice :=
    snd (relay sample_json url_A "POST"
           (String.append NetworkInterceptor.prefix body) Samples.fresh_node) in
  ReelCollector.hasReel (VStr "A") (cache once) = true
  /\ ReelCollector.hasReel (VStr "A") (cache twice) = false
  /\ records twice <> records once.
Proof.
  cbv zeta. split; [reflexivity|]. split; [reflexivity|].
  intros E. apply (f_equal (fun r => option_map ReelCollector.size (fst r))) in E.
  vm_compute in E. discriminate.
Qed.

End Interception.

(** ** Navigation *)

Section Doubles.
Import JS.

(** Rounding to 53 bits moves a number by at most half a unit of its last
    place. *)
Lemma round53_nonneg_near : forall p,
  0 <= p -> 2 ^ 53 * Z.abs (round53_nonneg p - p) <= p.
Proof.
  intros p Hp. unfold round53_nonneg. cbv zeta.
  destruct (Z.leb_spec (Z.log2 p - 52) 0) as [Hs | Hs].
  - rewrite Z.sub_diag. simpl Z.abs. lia.
  - set (s := Z.log2 p - 52) in *.
    assert (Hpos : 0 < p).
    { destruct (Z.eq_dec p 0) as [-> | ]; [simpl in s; lia | lia]. }
    pose proof (Z.log2_spec p Hpos) as [Hlo _].
    rewrite Z.shiftr_div_pow2, Z.land_ones, !Z.shiftl_mul_pow2 by lia.
    assert (H2s : 2 ^ s = 2 * 2 ^ (s - 1)).
    { replace s with (Z.succ (s - 1)) at 1 by lia. apply Z.pow_succ_r. lia. }
    assert (Hh : 0 < 2 ^ (s - 1)) by (apply Z.pow_pos_nonneg; lia).
    assert (Hlog : 2 ^ Z.log2 p = 2 ^ 53 * 2 ^ (s - 1)).
    { replace (Z.log2 p) with (53 + (s - 1)) by lia.
      apply Z.pow_add_r; lia. }
    pose proof (Z.div_mod p (2 ^ s) ltac:(lia)) as Hdm.
    pose proof (Z.mod_pos_bound p (2 ^ s) ltac:(lia)) as Hr.
    set (q := p / 2 ^ s) in *. set (r := p mod 2 ^ s) in *.
    rewrite Z.mul_1_l.
    destruct ((2 ^ (s - 1) <? r) || ((r =? 2 ^ (s - 1)) && Z.odd q)) eqn:Eup.
    + assert (2 ^ (s - 1) <= r).
      { apply orb_true_iff in Eup as [E | E].
        - apply Z.ltb_lt in E. lia.
        - apply andb_prop in E as [E _]. apply Z.eqb_eq in E. lia. }
      nia.
    + apply orb_false_iff in Eup as [E _]. apply Z.ltb_ge in E. nia.
Qed.

(** What [y > x * 0.7] accepts lies at 70% of [x] or beyond. *)
Lemma gt_times_0_7_sound : forall y x,
  0 <= x < 2 ^ 49 -> gt_times_0_7 y x = true -> 7 * x <= 10 * y.
Proof.
  intros y x Hx H. unfold gt_times_0_7, round53 in H. apply Z.ltb_lt in H.
  assert (Hp : 0 <= x * seven_tenths) by (unfold seven_tenths; lia).
  pose proof (round53_nonneg_near _ Hp) as N.
  rewrite (Z.abs_eq (x * seven_tenths)) in H by exact Hp.
  destruct (Z.eq_dec x 0) as [-> | Hx0].
  { simpl in H. lia. }
  rewrite Z.sgn_pos in H by (unfold seven_tenths; lia).
  unfold seven_tenths in *.
  change (2 ^ 52) with 4503599627370496 in *.
  change (2 ^ 53) with 9007199254740992 in *.
  change (2 ^ 49) with 562949953421312 in *.
  lia.
Qed.

(** Whatever lies beyond 70% of [x] is accepted by [y > x * 0.7]. *)
Lemma gt_times_0_7_complete : forall y x,
  0 <= x < 2 ^ 49 -> 7 * x < 10 * y -> gt_times_0_7 y x = true.
Proof.
  intros y x Hx H. unfold gt_times_0_7, round53. apply Z.ltb_lt.
  assert (Hp : 0 <= x * seven_tenths) by (unfold seven_tenths; lia).
  pose proof (round53_nonneg_near _ Hp) as N.
  rewrite (Z.abs_eq (x * seven_tenths)) by exact Hp.
  destruct (Z.eq_dec x 0) as [-> | Hx0].
  { simpl. lia. }
  rewrite Z.sgn_pos by (unfold seven_tenths; lia).
  unfold seven_tenths in *.
  change (2 ^ 52) with 4503599627370496 in *.
  change (2 ^ 53) with 9007199254740992 in *.
  change (2 ^ 49) with 562949953421312 in *.
  lia.
Qed.

(** At exactly 70% the rounding of the product decides: 21000 * 0.7 falls
    below 14700, while 6000 * 0.7 and 8000 * 0.7 are 4200 and 5600. *)
Lemma gt_times_0_7_at_70_percent :
  gt_times_0_7 14700 21000 = true
  /\ gt_times_0_7 4200 6000 = false
  /\ gt_times_0_7 5600 8000 = false.
Proof. repeat split; reflexivity. Qed.

(** On a pass of a plain bound the comparison is that of the exact
    product. *)
Lemma gt_times_0_7_plain : forall x k,
  0 <= x < 2 ^ 49 -> NavSpec.plain_bound x = true ->
  gt_times_0_7 (300 * Z.of_nat (S k)) x = (7 * x <? 10 * (300 * Z.of_nat (S k))).
Proof.
  intros x k Hx Hp. set (t := 300 * Z.of_nat (S k)).
  assert (Ht : exists j, t = 300 * j) by (exists (Z.of_nat (S k)); reflexivity).
  clearbody t. destruct (Z.ltb_spec (7 * x) (10 * t)) as [L | L].
  - now apply gt_times_0_7_complete.
  - destruct (gt_times_0_7 t x) eqn:G; [|reflexivity]. exfalso.
    pose proof (gt_times_0_7_sound t x Hx G) as S.
    assert (E : 7 * x = 10 * t) by lia.
    destruct Ht as [j ->].
    unfold NavSpec.plain_bound in Hp. apply orb_true_iff in Hp as [Hp | Hp].
    + apply negb_true_iff, Z.eqb_neq in Hp. apply Hp.
      assert (D : (7 | j)).
      { apply (Z.gauss 7 3000 j); [exists x; lia | reflexivity]. }
      destruct D as [i ->].
      replace x with (i * 3000) by lia. apply Z.mod_mul. lia.
    + apply Z.eqb_eq in Hp. subst x.
      assert (j = 14) by lia. subst j. discriminate G.
Qed.

End Doubles.

Section Verification.
Import JS ReelNavigator NavSpec.
Context `{Page}.

(** One pass never raises, and accepts exactly as [accepts] says. *)
Lemma poll_accepts : forall cur maxWaitTime waitedTime w,
  poll cur maxWaitTime waitedTime w
  = (Ok (accepts cur maxWaitTime waitedTime w),
     next_world cur maxWaitTime waitedTime w).
Proof.
  intros cur mx wt w. unfold next_world.
  rewrite (surjective_pairing (poll cur mx wt w)) at 1. f_equal.
  unfold poll, video_accepts, accepts, id_seen, video_seen, after_delay.
  unfold bind, delay, getCurrentReelId, try_catch, ret.
  set (w1 := randomDelay checkInterval (checkInterval + 100) w).
  destruct (page_url w1) as [url|]; cbn [fst].
  - destruct (changed cur (reel_id_of url)); cbn [orb fst]; auto.
    destruct (page_query _ w1) as [[[el|]|] w2]; cbn [fst]; auto.
  - cbn [changed orb].
    destruct (page_query _ w1) as [[[el|]|] w2]; cbn [fst]; auto.
Qed.

Lemma verify_polls_unfold : forall n cur mx wt w,
  verify_polls (S n) cur mx wt w =
  if accepts cur mx wt w
  then (Ok true, next_world cur mx wt w)
  else verify_polls n cur mx (wt + checkInterval) (next_world cur mx wt w).
Proof.
  intros. cbn [verify_polls]. unfold bind at 1. rewrite poll_accepts.
  now destruct (accepts cur mx wt w).
Qed.

Lemma verify_polls_returns : forall n cur mx wt w,
  exists b, fst (verify_polls n cur mx wt w) = Ok b.
Proof.
  induction n as [|n IH]; intros cur mx wt w.
  - exists false. reflexivity.
  - rewrite verify_polls_unfold.
    destruct (accepts cur mx wt w); [exists true; reflexivity | apply IH].
Qed.

Lemma verify_polls_true : forall n cur mx wt w,
  fst (verify_polls n cur mx wt w) = Ok true <->
  exists k, (k < n)%nat
    /\ accepts cur mx (wt + checkInterval * Z.of_nat k)
         (world_from cur mx wt k w) = true.
Proof.
  induction n as [|n IH]; intros cur mx wt w.
  - cbn. split; [discriminate | intros [k [L _]]; inversion L].
  - rewrite verify_polls_unfold.
    destruct (accepts cur mx wt w) eqn:A.
    + split; auto. intros _. exists 0%nat. split; [lia|].
      cbn [world_from]. now rewrite Z.mul_0_r, Z.add_0_r.
    + rewrite IH. split.
      * intros [k [L Ak]]. exists (S k). split; [lia|].
        cbn [world_from]. rewrite <- Ak. f_equal. lia.
      * intros [[|k] [L Ak]].
        -- cbn [world_from] in Ak. rewrite Z.mul_0_r, Z.add_0_r in Ak.
           congruence.
        -- exists k. split; [lia|]. cbn [world_from] in Ak.
           rewrite <- Ak. f_equal. lia.
Qed.

Lemma verify_polls_false : forall n cur mx wt w,
  fst (verify_polls n cur mx wt w) = Ok false <->
  forall k, (k < n)%nat ->
    accepts cur mx (wt + checkInterval * Z.of_nat k)
      (world_from cur mx wt k w) = false.
Proof.
  intros n cur mx wt w.
  destruct (verify_polls_returns n cur mx wt w) as [b Eb].
  pose proof (verify_polls_true n cur mx wt w) as T.
  rewrite Eb in *. destruct b.
  - split; [discriminate|]. intros F.
    destruct (proj1 T eq_refl) as [k [L A]]. rewrite F in A; auto.
    discriminate.
  - split; auto. intros _ k L.
    destruct (accepts cur mx _ (world_from cur mx wt k w)) eqn:A; auto.
    assert (X : Ok false = Ok true) by (apply T; eauto). discriminate.
Qed.

(** The number of passes is what the guard of the [while] allows. *)
Lemma polls_left_guard : forall mx wt,
  (polls_left mx wt = 0%nat <-> ~ wt < mx)
  /\ (wt < mx -> polls_left mx wt = S (polls_left mx (wt + checkInterval))).
Proof.
  intros mx wt. unfold polls_left, checkInterval. split.
  - split.
    + intros E L.
      assert (0 < (mx - wt + 300 - 1) / 300)
        by (apply Z.div_str_pos; lia).
      lia.
    + intros G.
      assert ((mx - wt + 300 - 1) / 300 <= 0).
      { apply Z.lt_succ_r. apply Z.div_lt_upper_bound; lia. }
      lia.
  - intros L.
    replace (mx - wt + 300 - 1) with ((mx - (wt + 300) + 300 - 1) + 1 * 300)
      by lia.
    rewrite Z.div_add by lia.
    rewrite Z2Nat.inj_add; try lia.
    apply Z.div_pos; lia.
Qed.

Lemma late_enough_default : forall waitedTime,
  late_enough defaultMaxWaitTime waitedTime = (5600 <? waitedTime).
Proof.
  intros wt. unfold late_enough, defaultMaxWaitTime.
  destruct (Z.ltb_spec 2000 wt), (Z.ltb_spec (7 * 8000) (10 * wt)),
    (Z.ltb_spec 5600 wt); simpl; auto; lia.
Qed.

Lemma changed_new_id : forall cur seen,
  changed cur seen = true <-> new_id cur seen.
Proof.
  intros cur [id|]; unfold new_id; simpl.
  - rewrite negb_true_iff, String.eqb_neq. split.
    + intros D. exists id. split; [reflexivity | exact D].
    + intros [id' [E D]]. injection E as <-. exact D.
  - split; [discriminate | intros [id [E _]]; discriminate E].
Qed.

(** A pass runs only under a positive bound. *)
Lemma polls_left_positive : forall mx k,
  (k < polls_left mx 0)%nat -> 0 < mx.
Proof.
  intros mx k L. destruct (Z.lt_ge_cases 0 mx) as [P | P]; [exact P|].
  assert (E : polls_left mx 0 = 0%nat) by (apply polls_left_guard; lia).
  rewrite E in L. inversion L.
Qed.

(** C6.  [verifyNavigation] makes one pass every 300 ms of its counter
    while the counter is below the bound (27 passes for the default
    8000) and never raises.  It returns [true] when some pass reads a
    reel id that is not null and differs from the current one, and when
    some pass finds a loaded video element after more than 70% of the
    bound has elapsed on the counter (which must be beyond 2000).  For
    the bounds the code passes, 8000 and 6000, and for every bound that
    has no pass at exactly 70% of it, these are the only cases: if the id
    never changes and no such pass finds a video element, the result is
    [false].  For any bound, [true] without an id change means that a
    pass found a video element with at least 70% of the bound elapsed:
    [waitedTime > maxWaitTime * 0.7] is decided on the rounded product,
    which can lie below 70% of the bound. *)
Theorem verifyNavigation_bound_and_heuristic : forall cur maxWaitTime w,
  maxWaitTime < 2 ^ 49 ->
  let N := polls_left maxWaitTime 0 in
  let seen := fun k => id_seen (world_from cur maxWaitTime 0 k w) in
  let video := fun k => video_seen (world_from cur maxWaitTime 0 k w) in
  let counter := fun k => checkInterval * Z.of_nat (S k) in
  let result := fst (verifyNavigation cur maxWaitTime w) in
  (result = Ok true \/ result = Ok false)
  /\ (forall k, (k < N)%nat -> new_id cur (seen k) -> result = Ok true)
  /\ (forall k, (k < N)%nat -> video k = true ->
        late_enough maxWaitTime (counter k) = true -> result = Ok true)
  /\ (result = Ok true ->
      exists k, (k < N)%nat
        /\ (new_id cur (seen k)
            \/ (video k = true /\ nearly_late maxWaitTime (counter k) = true)))
  /\ (plain_bound maxWaitTime = true ->
      (result = Ok true <->
       exists k, (k < N)%nat
         /\ (new_id cur (seen k)
             \/ (video k = true
                 /\ late_enough maxWaitTime (counter k) = true))))
  /\ (plain_bound maxWaitTime = true ->
      (forall k, (k < N)%nat ->
         ~ new_id cur (seen k)
         /\ (video k = true -> late_enough maxWaitTime (counter k) = false)) ->
      result = Ok false)
  /\ (forall waitedTime,
        (polls_left maxWaitTime waitedTime = 0%nat <->
         ~ waitedTime < maxWaitTime)
        /\ (waitedTime < maxWaitTime ->
            polls_left maxWaitTime waitedTime
            = S (polls_left maxWaitTime (waitedTime + checkInterval))))
  /\ polls_left defaultMaxWaitTime 0 = 27%nat
  /\ plain_bound defaultMaxWaitTime = true
  /\ (forall waitedTime,
        late_enough defaultMaxWaitTime waitedTime = (5600 <? waitedTime)).
Proof.
  intros cur mx w Hmx N seen video counter result.
  assert (T : result = Ok true <->
              exists k, (k < N)%nat /\ accepts_at cur mx k w = true).
  { subst result. unfold verifyNavigation. rewrite verify_polls_true. fold N.
    unfold accepts_at. split; intros [k [L A]]; exists k; split; auto. }
  assert (R : result = Ok true \/ result = Ok false).
  { subst result. unfold verifyNavigation.
    destruct (verify_polls_returns N cur mx 0 w) as [[] E]; fold N; auto. }
  assert (A : forall k, (k < N)%nat ->
            accepts_at cur mx k w
            = changed cur (seen k)
              || (video k && ((2000 <? counter k)
                              && gt_times_0_7 (counter k) mx))).
  { intros k L. unfold accepts_at, accepts. fold (seen k). fold (video k).
    replace (checkInterval * Z.of_nat k + checkInterval) with (counter k)
      by (subst counter; cbv beta; unfold checkInterval; lia).
    reflexivity. }
  assert (B : forall k, (k < N)%nat -> 0 <= mx < 2 ^ 49).
  { intros k L. pose proof (polls_left_positive mx k L). lia. }
  assert (Tnear : result = Ok true ->
            exists k, (k < N)%nat
              /\ (new_id cur (seen k)
                  \/ (video k = true /\ nearly_late mx (counter k) = true))).
  { intros E. apply T in E as [k [L E]]. exists k. split; [exact L|].
    rewrite (A k L) in E. apply orb_true_iff in E as [E | E].
    - left. now apply changed_new_id.
    - right. apply andb_prop in E as [V E]. apply andb_prop in E as [E1 E2].
      split; [exact V|]. unfold nearly_late. rewrite E1. cbn [andb].
      apply Z.leb_le. now apply gt_times_0_7_sound; [apply (B k)|]. }
  assert (Tlate : forall k, (k < N)%nat -> video k = true ->
            late_enough mx (counter k) = true -> result = Ok true).
  { intros k L V E. apply T. exists k. split; [exact L|].
    rewrite (A k L), V. unfold late_enough in E.
    apply andb_prop in E as [E1 E2]. rewrite E1. cbn [andb].
    rewrite gt_times_0_7_complete;
      [apply orb_true_r | now apply (B k) | now apply Z.ltb_lt]. }
  assert (Tid : forall k, (k < N)%nat -> new_id cur (seen k) ->
            result = Ok true).
  { intros k L C. apply T. exists k. split; [exact L|].
    rewrite (A k L). apply changed_new_id in C. now rewrite C. }
  assert (Tplain : plain_bound mx = true ->
            (result = Ok true <->
             exists k, (k < N)%nat
               /\ (new_id cur (seen k)
                   \/ (video k = true /\ late_enough mx (counter k) = true)))).
  { intros P. split.
    - intros E. apply T in E as [k [L E]]. exists k. split; [exact L|].
      rewrite (A k L) in E. apply orb_true_iff in E as [E | E].
      + left. now apply changed_new_id.
      + right. apply andb_prop in E as [V E]. split; [exact V|].
        unfold late_enough. subst counter. cbv beta in *.
        unfold checkInterval in *.
        now rewrite <- (gt_times_0_7_plain mx k (B k L) P).
    - intros [k [L [C | [V E]]]]; [now apply (Tid k) | now apply (Tlate k)]. }
  split; [exact R|]. split; [exact Tid|]. split; [exact Tlate|].
  split; [exact Tnear|]. split; [exact Tplain|].
  split.
  { intros P Hno. destruct R as [E | E]; [|exact E]. exfalso.
    apply (Tplain P) in E as [k [L [C | [V E]]]];
      destruct (Hno k L) as [Hid Hv]; [now apply Hid|].
    rewrite (Hv V) in E. discriminate E. }
  split; [intros; apply polls_left_guard|].
  split; [reflexivity|]. split; [reflexivity | apply late_enough_default].
Qed.

End Verification.

Lemma verifyNavigation_witness :
  fst (@ReelNavigator.verifyNavigation SimPage.page "ZZZ" 8000 SimPage.start)
  = JS.Ok true
  /\ fst (@ReelNavigator.verifyNavigation VideoPage.page "AAA" 6000
            VideoPage.start)
     = JS.Ok true.
Proof.
  split.
  - destruct (@verifyNavigation_bound_and_heuristic SimPage.page "ZZZ" 8000
                SimPage.start eq_refl) as [_ [C _]].
    apply (C 0%nat); [vm_compute; lia|].
    exists "AAA"%string. split; [reflexivity | discriminate].
  - destruct (@verifyNavigation_bound_and_heuristic VideoPage.page "AAA" 6000
                VideoPage.start eq_refl) as [_ [_ [V _]]].
    apply (V 14%nat); [vm_compute; lia | reflexivity | reflexivity].
Defined.

Section Strategies.
Import JS ReelNavigator NavSpec.
Context `{Page}.

Lemma try_strategies_cons : forall strategy rest w,
  try_strategies (strategy :: rest) w =
  if fails strategy w
  then try_strategies rest (snd (strategy w))
  else (Ok true, snd (strategy w)).
Proof.
  intros s rest w. cbn [try_strategies]. unfold bind, try_catch, fails, ret.
  destruct (s w) as [[[|]|] w']; reflexivity.
Qed.

(** The loop never raises: it returns whether some strategy succeeded. *)
Lemma try_strategies_result : forall l w,
  fst (try_strategies l w) = Ok (negb (all_fail l w)).
Proof.
  induction l as [|s l IH]; intros w; [reflexivity|].
  rewrite try_strategies_cons. cbn [all_fail].
  destruct (fails s w); cbn [andb negb fst]; auto.
Qed.

Lemma try_strategies_all_fail : forall l w,
  all_fail l w = true -> try_strategies l w = (Ok false, world_after l w).
Proof.
  induction l as [|s l IH]; intros w A; [reflexivity|].
  rewrite try_strategies_cons. cbn [all_fail world_after] in *.
  apply andb_true_iff in A as [A1 A2]. rewrite A1. now apply IH.
Qed.

(** The loop stops at the first strategy that succeeds, in the world that
    strategy leaves. *)
Lemma try_strategies_first : forall pre strategy post w,
  all_fail pre w = true ->
  fails strategy (world_after pre w) = false ->
  try_strategies (pre ++ strategy :: post) w
  = (Ok true, snd (strategy (world_after pre w))).
Proof.
  induction pre as [|s pre IH]; intros strategy post w A S.
  - cbn [app world_after] in *. rewrite try_strategies_cons. now rewrite S.
  - cbn [app all_fail world_after] in *. rewrite try_strategies_cons.
    apply andb_true_iff in A as [A1 A2]. rewrite A1. now apply IH.
Qed.

Lemma try_strategies_true : forall l w,
  fst (try_strategies l w) = Ok true ->
  exists pre strategy post,
    l = pre ++ strategy :: post
    /\ all_fail pre w = true
    /\ fst (strategy (world_after pre w)) = Ok true.
Proof.
  induction l as [|s l IH]; intros w T; [discriminate|].
  rewrite try_strategies_cons in T. destruct (fails s w) eqn:Fs.
  - destruct (IH _ T) as [pre [s' [post [El [A S]]]]].
    exists (s :: pre), s', post. cbn [app all_fail world_after].
    rewrite Fs, El. auto.
  - exists [], s, l. cbn [app all_fail world_after]. repeat split.
    unfold fails in Fs. destruct (fst (s w)) as [[|]|]; congruence.
Qed.

(** *** A strategy returns [true] only after a successful verification *)

Lemma justified_ret : forall A (goal a : A) Q, a <> goal -> justified goal Q (ret a).
Proof. intros A goal a Q N w E. cbn in E. congruence. Qed.

Lemma justified_bind : forall A B (goal : B) Q (m : M A) (k : A -> M B),
  (forall a, justified goal Q (k a)) -> justified goal Q (bind m k).
Proof.
  intros A B goal Q m k J w E. unfold bind in E.
  destruct (m w) as [[a|] w']; [|discriminate]. eapply J; eauto.
Qed.

Lemma justified_try : forall A (goal : A) Q (m h : M A),
  justified goal Q m -> justified goal Q h -> justified goal Q (try_catch m h).
Proof.
  intros A goal Q m h Jm Jh w E. unfold try_catch in E.
  destruct (m w) as [[a|] w'] eqn:Em.
  - apply (Jm w). now rewrite Em.
  - eapply Jh; eauto.
Qed.

Lemma justified_verify : forall id maxWaitTime,
  justified true (verified id) (verifyNavigation id maxWaitTime).
Proof. intros id mx w E. exists mx, w. exact E. Qed.

(** A step that returns [true] only under [Q], followed by a return of
    [goal] on [true] only. *)
Lemma justified_after :
  forall A (goal : A) Q (m : M bool) (k : bool -> M A),
  justified true Q m -> justified goal Q (k false) ->
  justified goal Q (bind m k).
Proof.
  intros A goal Q m k Jm Jk w E. unfold bind in E.
  destruct (m w) as [[[|]|] w'] eqn:V.
  - apply (Jm w). now rewrite V.
  - eapply Jk; eauto.
  - discriminate.
Qed.

Lemma justified_delay_none : forall c a b id,
  justified (Some true) (verified id) (delay_if c a b ;;; ret None).
Proof.
  intros. apply justified_bind. intros _. apply justified_ret. discriminate.
Qed.

Lemma key_attempt_justified : forall key id attempt maxRetries,
  justified (Some true) (verified id) (key_attempt key id attempt maxRetries).
Proof.
  intros. unfold key_attempt. apply justified_try.
  - do 3 (apply justified_bind; intros _).
    apply justified_after; [apply justified_verify|].
    apply justified_delay_none.
  - apply justified_delay_none.
Qed.

Lemma button_attempt_justified : forall id attempt maxRetries,
  justified (Some true) (verified id) (button_attempt id attempt maxRetries).
Proof.
  intros. unfold button_attempt. apply justified_try.
  - apply justified_bind. intros nextButton.
    apply justified_after; [|apply justified_delay_none].
    destruct nextButton as [button|].
    + do 3 (apply justified_bind; intros _). apply justified_verify.
    + apply justified_ret. discriminate.
  - apply justified_delay_none.
Qed.

Lemma attempts_justified : forall body id remaining attempt,
  (forall a, justified (Some true) (verified id) (body a)) ->
  justified true (verified id) (attempts body remaining attempt).
Proof.
  intros body id remaining. induction remaining as [|n IH];
    intros attempt J w E.
  - discriminate.
  - cbn [attempts] in E. unfold bind in E.
    destruct (body attempt w) as [[[[|]|]|] w'] eqn:B; try discriminate.
    + apply (J attempt w). now rewrite B.
    + eapply IH; eauto.
Qed.

Lemma strategies_justified : forall id maxRetries strategy,
  In strategy (strategies_of id maxRetries) ->
  justified true (verified id) strategy.
Proof.
  intros id mx s I. unfold strategies_of in I. cbn [In] in I.
  destruct I as [<-|[<-|[<-|[<-|[<-|[]]]]]].
  - apply attempts_justified. intros. apply key_attempt_justified.
  - apply attempts_justified. intros. apply key_attempt_justified.
  - apply attempts_justified. intros. apply button_attempt_justified.
  - unfold navigateWithSwipe. apply justified_try.
    + apply justified_bind. intros [video|].
      * apply justified_bind. intros [b|].
        -- apply justified_bind. intros _. apply justified_verify.
        -- apply justified_ret. discriminate.
      * apply justified_ret. discriminate.
    + apply justified_ret. discriminate.
  - unfold navigateWithPageDown. apply justified_try.
    + do 3 (apply justified_bind; intros _). apply justified_verify.
    + apply justified_ret. discriminate.
Qed.

Lemma getCurrentReelId_reads : forall w, snd (getCurrentReelId w) = w.
Proof. intros w. unfold getCurrentReelId. now destruct (page_url w). Qed.

Lemma find_button_cons : forall selector rest w,
  find_button (selector :: rest) w =
  match page_query selector w with
  | (Ok (Some button), w') => (Ok (Some button), w')
  | (_, w') => find_button rest w'
  end.
Proof.
  intros. cbn [find_button]. unfold bind, try_catch, ret.
  destruct (page_query selector w) as [[[b|]|] w']; reflexivity.
Qed.

(** C5.  With a known current reel id, [navigateToNextReel] runs the five
    strategies in the order ArrowDown, ArrowRight, button click, swipe,
    PageDown, each in the world the previous one left.  It stops at the
    first strategy that returns [true], which a strategy does only after
    a successful [verifyNavigation]; a strategy that raises counts as one
    that failed; the call never raises, and it returns [false] exactly
    when all five failed.  The button strategy takes the first selector,
    in list order, whose query resolves, skipping one whose query
    raises. *)
Theorem navigateToNextReel_order_and_swallowing : forall maxRetries w id,
  fst (getCurrentReelId w) = Ok (Some id) ->
  let l := strategies_of id maxRetries in
  l = [ navigateWithArrowDown id maxRetries;
        navigateWithArrowRight id maxRetries;
        navigateWithButtonClick id maxRetries;
        navigateWithSwipe id;
        navigateWithPageDown id ]
  /\ fst (navigateToNextReel maxRetries w) = Ok (negb (all_fail l w))
  /\ (forall pre strategy post,
        l = pre ++ strategy :: post ->
        all_fail pre w = true ->
        fails strategy (world_after pre w) = false ->
        navigateToNextReel maxRetries w
        = (Ok true, snd (strategy (world_after pre w))))
  /\ (all_fail l w = true ->
      navigateToNextReel maxRetries w = (Ok false, world_after l w))
  /\ (fst (navigateToNextReel maxRetries w) = Ok true ->
      exists pre strategy post,
        l = pre ++ strategy :: post
        /\ all_fail pre w = true
        /\ fst (strategy (world_after pre w)) = Ok true
        /\ verified id)
  /\ (forall (strategies : list (M bool)) w0,
        fst (try_strategies strategies w0)
        = Ok (negb (all_fail strategies w0)))
  /\ (forall (strategy : M bool) w0,
        fst (strategy w0) = Throw -> fails strategy w0 = true)
  /\ (forall selector rest w0,
        find_button (selector :: rest) w0 =
        match page_query selector w0 with
        | (Ok (Some button), w') => (Ok (Some button), w')
        | (_, w') => find_button rest w'
        end).
Proof.
  intros mx w id G l.
  assert (N : navigateToNextReel mx w = try_strategies l w).
  { unfold navigateToNextReel, bind.
    pose proof (getCurrentReelId_reads w) as R.
    destruct (getCurrentReelId w) as [r w']. cbn [fst snd] in *.
    now rewrite G, R. }
  split; [reflexivity|].
  split; [rewrite N; apply try_strategies_result|].
  split.
  { intros pre s post El A S. rewrite N, El. now apply try_strategies_first. }
  split.
  { intros A. rewrite N. now apply try_strategies_all_fail. }
  split.
  { rewrite N. intros T.
    destruct (try_strategies_true l w T) as [pre [s [post [El [A S]]]]].
    exists pre, s, post. repeat split; auto.
    apply (strategies_justified id mx s) with (w := world_after pre w); auto.
    fold l. rewrite El. apply in_or_app. right. left. reflexivity. }
  split; [apply try_strategies_result|].
  split.
  { intros s w0 T. unfold fails. now rewrite T. }
  apply find_button_cons.
Qed.

End Strategies.

Lemma navigateToNextReel_witness :
  fst (@ReelNavigator.navigateToNextReel SimPage.page 3 SimPage.start)
  = JS.Ok true
  /\ SimPage.keys
       (snd (@ReelNavigator.navigateToNextReel SimPage.page 3 SimPage.start))
     = ["ArrowDown"; "ArrowDown"; "ArrowDown"; "ArrowRight"].
Proof.
  destruct (@navigateToNextReel_order_and_swallowing SimPage.page 3
              SimPage.start "AAA" eq_refl) as [_ [R [S _]]].
  split.
  - rewrite R. vm_compute. reflexivity.
  - rewrite (S [@ReelNavigator.navigateWithArrowDown SimPage.page "AAA" 3]
               (@ReelNavigator.navigateWithArrowRight SimPage.page "AAA" 3)
               [@ReelNavigator.navigateWithButtonClick SimPage.page "AAA" 3;
                @ReelNavigator.navigateWithSwipe SimPage.page "AAA";
                @ReelNavigator.navigateWithPageDown SimPage.page "AAA"]);
      vm_compute; reflexivity.
Defined.

(** ** The scrape loop *)

Section ScrapeLoop.
Import JS Scraper ScraperSpec.

Lemma backoffDelay_capped : forall n, backoffDelay n <= maxDelay.
Proof. intros n. unfold backoffDelay. apply Z.le_min_r. Qed.

Lemma backoffDelay_monotone : forall n m,
  1 <= n -> n <= m -> backoffDelay n <= backoffDelay m.
Proof.
  intros n m Hn Hm. unfold backoffDelay, baseDelay.
  apply Z.min_le_compat_r. apply Z.mul_le_mono_nonneg_l; [lia|].
  apply Z.pow_le_mono_r; lia.
Qed.

(** C7.  The delay computed before the jitter after [n] consecutive
    failures, [min (2000 * 2^(n-1)) 15000], does not decrease as [n]
    grows from 1 and never exceeds 15000; it is 2000, 4000, 8000 for
    [n] = 1, 2, 3, and it is the delay the loop computes when an advance
    fails. *)
Theorem backoff_monotone_and_capped : forall n m,
  1 <= n -> n <= m ->
  backoffDelay n <= backoffDelay m
  /\ backoffDelay m <= maxDelay
  /\ maxDelay = 15000
  /\ backoffDelay 1 = 2000 /\ backoffDelay 2 = 4000 /\ backoffDelay 3 = 8000
  /\ (forall reelsToCollect e c d,
        snd (advance reelsToCollect e c) = Some d ->
        d = backoffDelay (consecutiveNavigationFailures c + 1)).
Proof.
  intros n m Hn Hm.
  split; [now apply backoffDelay_monotone|].
  split; [apply backoffDelay_capped|].
  repeat (split; [reflexivity|]).
  intros target e c d. unfold advance.
  destruct (reelsCollected c <? target); [|discriminate].
  destruct (negb (navigated e)); [|discriminate].
  destruct (consecutiveNavigationFailures c + 1
            <? maxConsecutiveNavigationFailures); [|discriminate].
  cbn [snd]. congruence.
Qed.

Lemma backoff_monotone_and_capped_witness :
  backoffDelay 1 <= backoffDelay 3 /\ backoffDelay 3 <= maxDelay.
Proof.
  destruct (backoff_monotone_and_capped 1 3) as [M [C _]]; [lia | lia |].
  split; assumption.
Defined.

Lemma drain_failures : forall t e c,
  navigationFailures (drain t e c) = navigationFailures c
  /\ consecutiveNavigationFailures (drain t e c)
     = consecutiveNavigationFailures c.
Proof.
  intros t e c. unfold drain.
  destruct ((0 <? _) && (_ <=? _)); auto.
  generalize (unsaved e). intros l. revert c.
  induction l as [|b l IH]; intros c; cbn [fold_left]; auto.
  destruct ((reelsCollected c <? t) && b); auto.
  destruct (IH (mk (reelsCollected c + 1) (navigationFailures c)
                  (consecutiveNavigationFailures c))) as [I1 I2].
  now rewrite I1, I2.
Qed.

Lemma iteration_within : forall t e c,
  continues t c = true -> within c -> within (fst (iteration t e c)).
Proof.
  intros t e c L [[N0 N1] [C0 C1]]. unfold continues in L.
  apply andb_true_iff in L as [L Lc]. apply andb_true_iff in L as [_ Ln].
  apply Z.ltb_lt in Lc, Ln.
  unfold maxFailures, maxConsecutiveNavigationFailures in *.
  unfold iteration, within, maxFailures, maxConsecutiveNavigationFailures.
  destruct (isOnReelPage e); cbn [negb].
  - destruct (drain_failures t e c) as [D1 D2].
    set (c1 := drain t e c) in *.
    unfold advance, resolve, maxConsecutiveNavigationFailures.
    destruct (resolved e), (seen e), (saved e), (navigated e),
      (retryNavigated e); cbn [negb reelsCollected navigationFailures
                                 consecutiveNavigationFailures];
      repeat match goal with
             | |- context [if ?b then _ else _] => destruct b eqn:?
             end;
      cbn [fst reelsCollected navigationFailures
             consecutiveNavigationFailures];
      rewrite ?D1, ?D2; try apply Z.ltb_lt in Heqb; lia.
  - destruct (suspension e) as [[|]|]; [| destruct (recovered e) |];
      cbn [fst on_error navigationFailures consecutiveNavigationFailures];
      lia.
Qed.

Lemma run_within : forall t es, within (fst (run t es)).
Proof.
  intros t es. unfold run. induction es as [|e es IH] using rev_ind.
  - cbn. unfold within, maxFailures, maxConsecutiveNavigationFailures. cbn. lia.
  - rewrite fold_left_app. cbn [fold_left].
    destruct (fold_left (pass t) es (initial, true)) as [c running].
    cbn [fst] in IH. unfold pass.
    destruct (running && continues t c) eqn:R; auto.
    apply andb_true_iff in R as [_ R].
    pose proof (iteration_within t e c R IH) as W.
    now destruct (iteration t e c).
Qed.

(** C8, as amended.  [navigationFailures] goes up by one when an advance
    exhausts all strategies, unless the retry after the backoff succeeds,
    which takes that increment back; it is not cumulative: it returns to
    0 every time the current record is resolved and new to the session,
    whether the storage saves it or reports a duplicate.  In every state
    of the loop it lies between 0 and [maxFailures + 1]. *)
Theorem failure_counter_increments_and_resets : forall reelsToCollect,
  (forall e c,
      0 <= navigationFailures c ->
      reelsCollected c < reelsToCollect ->
      navigated e = false ->
      navigationFailures (fst (advance reelsToCollect e c))
      = if (consecutiveNavigationFailures c + 1
            <? maxConsecutiveNavigationFailures) && retryNavigated e
        then navigationFailures c
        else navigationFailures c + 1)
  /\ (forall e c,
        resolved e = true -> seen e = false ->
        navigationFailures (resolve e c) = 0)
  /\ (forall es, within (fst (run reelsToCollect es))).
Proof.
  intros t. split.
  { intros e c N L Nv. unfold advance.
    apply Z.ltb_lt in L. rewrite L, Nv. cbn [negb].
    destruct (consecutiveNavigationFailures c + 1
              <? maxConsecutiveNavigationFailures); cbn [andb fst]; auto.
    destruct (retryNavigated e); cbn [navigationFailures]; lia. }
  split.
  { intros e c R S. unfold resolve. rewrite R, S. cbn [negb].
    now destruct (saved e). }
  apply run_within.
Qed.

Lemma failure_counter_witness :
  navigationFailures
    (fst (advance 3 ScraperSamples.saved_then_stuck (mk 1 0 0))) = 1
  /\ navigationFailures (resolve ScraperSamples.saved_then_stuck (mk 1 2 1)) = 0.
Proof.
  destruct (failure_counter_increments_and_resets 3) as [A [R _]].
  split.
  - apply (A ScraperSamples.saved_then_stuck (mk 1 0 0)); cbn; [lia | lia | reflexivity].
  - apply (R ScraperSamples.saved_then_stuck (mk 1 2 1)); reflexivity.
Defined.

(** C8 as stated fails: within one session the counter is 1 after a pass
    whose advance failed, and 0 again after the next pass saved a reel,
    while the loop is still running. *)
Lemma failure_counter_is_reset :
  let before := run 3 [ScraperSamples.saved_then_stuck] in
  let after :=
    run 3 [ScraperSamples.saved_then_stuck;
           ScraperSamples.saved_then_advanced] in
  navigationFailures (fst before) = 1
  /\ navigationFailures (fst after) = 0
  /\ snd after = true
  /\ navigationFailures (fst after) < navigationFailures (fst before).
Proof. cbv zeta. vm_compute. repeat split. Qed.

End ScrapeLoop.

(** ** Resolving the record of the current reel, and merging tags *)

Section Merging.
Import JS ReelDataTransformer MergeSpec.

Lemma lookup_define : forall k k' v props,
  lookup k' (define k v props)
  = if String.eqb k' k then v else lookup k' props.
Proof.
  intros k k' v props. induction props as [|[k0 v0] props IH]; cbn.
  - reflexivity.
  - destruct (String.eqb k k0) eqn:E0; cbn.
    + apply String.eqb_eq in E0. subst k0.
      now destruct (String.eqb k' k).
    + rewrite IH. destruct (String.eqb k' k0) eqn:E1; auto.
      destruct (String.eqb k' k) eqn:E2; auto.
      apply String.eqb_eq in E1, E2. subst. now rewrite String.eqb_refl in E0.
Qed.

Lemma lookup_fold_define : forall (g l : list (string * value)) k props,
  lookup k (fold_left (fun acc kv => define (fst kv) (lookup (fst kv) g) acc)
              l props)
  = if has_key k l then lookup k g else lookup k props.
Proof.
  intros g l k. induction l as [|[k0 v0] l IH]; intros props; cbn; auto.
  rewrite IH, lookup_define.
  destruct (has_key k l) eqn:Hk; [now rewrite orb_true_r|].
  rewrite orb_false_r. destruct (String.eqb k k0) eqn:E; auto.
  apply String.eqb_eq in E. now subst.
Qed.

Lemma lookup_has_key : forall k props,
  lookup k props <> VUndefined -> has_key k props = true.
Proof.
  intros k props. induction props as [|[k0 v0] props IH]; cbn; [congruence|].
  destruct (String.eqb k k0); auto.
Qed.

Lemma mem_In : forall v l, mem v l = true <-> In v l.
Proof.
  intros v l. induction l as [|x l IH]; cbn; [split; [discriminate|tauto]|].
  rewrite orb_true_iff, IH, value_eqb_spec. split; intros [E|I]; auto.
Qed.

Lemma set_add_In : forall acc v t, In t (set_add acc v) <-> In t acc \/ t = v.
Proof.
  intros acc v t. unfold set_add. destruct (mem v acc) eqn:M.
  - apply mem_In in M. split; auto. intros [I | ->]; auto.
  - rewrite in_app_iff. cbn. intuition.
Qed.

Lemma set_add_NoDup : forall acc v, NoDup acc -> NoDup (set_add acc v).
Proof.
  intros acc v N. unfold set_add. destruct (mem v acc) eqn:M; auto.
  apply NoDup_app; auto.
  - constructor; [intros []|constructor].
  - intros x I [-> | []]. apply mem_In in I. congruence.
Qed.


(** *** Tag lists merged by HashtagExtractor.merge *)







End Merging.

(** * Further properties of the code *)

(** ** Hashtags read from text: extractFromText, normalize, validate *)

Section HashtagText.
Import JS HashtagExtractor TagSpec.

Lemma is_word_lower : forall c, is_word (lower_char c) = is_word c.
Proof. intros [[] [] [] [] [] [] [] []]; reflexivity. Qed.

Lemma is_space_lower : forall c, is_space (lower_char c) = is_space c.
Proof. intros [[] [] [] [] [] [] [] []]; reflexivity. Qed.

Lemma lower_lower : forall c, lower_char (lower_char c) = lower_char c.
Proof. intros [[] [] [] [] [] [] [] []]; reflexivity. Qed.

Lemma word_not_space : forall c, is_word c = true -> is_space c = false.
Proof. intros [[] [] [] [] [] [] [] []]; simpl; intros E; try reflexivity; discriminate E. Qed.

Lemma word_not_hash : forall c, is_word c = true -> Ascii.eqb c "#"%char = false.
Proof. intros [[] [] [] [] [] [] [] []]; simpl; intros E; try reflexivity; discriminate E. Qed.

Lemma toLowerCase_idem : forall s, toLowerCase (toLowerCase s) = toLowerCase s.
Proof.
  induction s as [|c s IH]; simpl; [reflexivity|].
  now rewrite lower_lower, IH.
Qed.

Lemma toLowerCase_length : forall s,
  String.length (toLowerCase s) = String.length s.
Proof. induction s as [|c s IH]; simpl; congruence. Qed.

Lemma every_word_lower : forall s,
  every is_word (toLowerCase s) = every is_word s.
Proof.
  induction s as [|c s IH]; simpl; [reflexivity|].
  now rewrite is_word_lower, IH.
Qed.

Lemma well_formed_lower : forall s, well_formed (toLowerCase s) = well_formed s.
Proof.
  intros s. unfold well_formed.
  now rewrite toLowerCase_length, every_word_lower.
Qed.

Lemma skip_spaces_lower : forall s,
  skip_spaces (toLowerCase s) = toLowerCase (skip_spaces s).
Proof.
  induction s as [|c s IH]; simpl; [reflexivity|].
  rewrite is_space_lower. destruct (is_space c); [exact IH | reflexivity].
Qed.

Lemma trimEnd_lower : forall s, trimEnd (toLowerCase s) = toLowerCase (trimEnd s).
Proof.
  induction s as [|c s IH]; simpl; [reflexivity|].
  rewrite IH, is_space_lower.
  destruct (trimEnd s) as [|d t]; simpl; [destruct (is_space c)|]; reflexivity.
Qed.

Lemma trim_lower : forall s, trim (toLowerCase s) = toLowerCase (trim s).
Proof. intros s. unfold trim. now rewrite skip_spaces_lower, trimEnd_lower. Qed.

Lemma strip_hash_lower : forall s,
  strip_hash (toLowerCase s) = toLowerCase (strip_hash s).
Proof.
  intros [|c s]; [reflexivity|].
  destruct c as [[] [] [] [] [] [] [] []]; reflexivity.
Qed.

Lemma trimEnd_words : forall s, every is_word s = true -> trimEnd s = s.
Proof.
  induction s as [|c s IH]; simpl; [reflexivity|].
  intros E. apply andb_prop in E as [Ec Es].
  rewrite (IH Es). destruct s; [now rewrite (word_not_space _ Ec) | reflexivity].
Qed.

Lemma skip_spaces_words : forall s, every is_word s = true -> skip_spaces s = s.
Proof.
  intros [|c s]; simpl; [reflexivity|].
  intros E. apply andb_prop in E as [Ec _]. now rewrite (word_not_space _ Ec).
Qed.

Lemma trim_words : forall s, every is_word s = true -> trim s = s.
Proof.
  intros s E. unfold trim. rewrite (skip_spaces_words _ E). now apply trimEnd_words.
Qed.

Lemma strip_hash_words : forall s, every is_word s = true -> strip_hash s = s.
Proof.
  intros [|c s]; simpl; [reflexivity|].
  intros E. apply andb_prop in E as [Ec _].
  destruct c as [[] [] [] [] [] [] [] []]; try reflexivity; discriminate Ec.
Qed.

Lemma every_word_prefix : forall s, every is_word (word_prefix s) = true.
Proof.
  induction s as [|c s IH]; simpl; [reflexivity|].
  destruct (is_word c) eqn:E; simpl; [now rewrite E | reflexivity].
Qed.

Lemma hashtagMatches_words : forall text consumed,
  Forall (fun m => m <> EmptyString /\ every is_word m = true)
    (hashtagMatches consumed text).
Proof.
  induction text as [|c rest IH]; intros consumed; simpl; [constructor|].
  destruct (consumed && is_word c); [apply IH|].
  destruct (Ascii.eqb c "#"); [|apply IH].
  destruct (word_prefix rest) as [|d w] eqn:E; [apply IH|].
  constructor; [|apply IH].
  split; [discriminate|]. rewrite <- E. apply every_word_prefix.
Qed.

(** The cleaning of [normalize] and of [validate] leaves a clean tag as
    it is. *)
Lemma clean_tag_fixed : forall s,
  clean_tag s = true ->
  s <> EmptyString /\ every is_word s = true /\ toLowerCase s = s
  /\ trim (toLowerCase (strip_hash s)) = s /\ trim (strip_hash s) = s
  /\ well_formed s = Nat.leb (String.length s) 100.
Proof.
  intros s E. unfold clean_tag in E.
  apply andb_prop in E as [E El]. apply andb_prop in E as [En Ew].
  apply String.eqb_eq in El.
  assert (Hn : s <> EmptyString).
  { intros ->. discriminate En. }
  repeat split; try assumption.
  - rewrite (strip_hash_words _ Ew), El. now apply trim_words.
  - rewrite (strip_hash_words _ Ew). now apply trim_words.
  - unfold well_formed. rewrite Ew, andb_true_r.
    destruct s; [contradiction|reflexivity].
Qed.

Lemma clean_tag_validate : forall s,
  clean_tag s = true -> validate (VStr s) = Nat.leb (String.length s) 100.
Proof.
  intros s E. destruct (clean_tag_fixed s E) as (Hn & _ & _ & _ & Ht & Hw).
  unfold validate. rewrite Ht, Hw.
  simpl. destruct (String.eqb_spec s EmptyString); [contradiction|reflexivity].
Qed.

Lemma clean_tag_normalize : forall s,
  clean_tag s = true ->
  normalize (VArr [VStr s])
  = if Nat.leb (String.length s) 100 then [VStr s] else [].
Proof.
  intros s E. destruct (clean_tag_fixed s E) as (Hn & _ & _ & Ht & _ & Hw).
  unfold normalize, normalize_tag. cbn [fold_left].
  rewrite Ht, Hw. simpl truthy.
  destruct (String.eqb_spec s EmptyString); [contradiction|]. simpl negb. cbv iota.
  destruct (Nat.leb (String.length s) 100); reflexivity.
Qed.

Lemma extractFromText_clean : forall text t,
  In t (extractFromText text) -> exists s, t = VStr s /\ clean_tag s = true.
Proof.
  intros text t Ht. destruct text; try contradiction.
  unfold extractFromText in Ht. apply in_map_iff in Ht as (m & <- & Hm).
  pose proof (hashtagMatches_words s false) as Hall.
  rewrite Forall_forall in Hall. destruct (Hall m Hm) as [Hn Hw].
  exists (toLowerCase m). split; [reflexivity|].
  unfold clean_tag. rewrite every_word_lower, Hw, toLowerCase_idem, String.eqb_refl.
  destruct m; [contradiction|reflexivity].
Qed.

(** X1: every tag [extractFromText] returns is a non-empty lower-case
    string of word characters: it carries no [#] and no white space,
    [validate] accepts it unless it is longer than 100 characters, and
    [normalize] leaves it as it is.  A value that is not a string gives
    no tag. *)
Theorem extractFromText_tags_clean : forall text,
  Forall
    (fun t =>
       exists s,
         t = VStr s /\ clean_tag s = true
         /\ validate t = Nat.leb (String.length s) 100
         /\ normalize (VArr [t])
            = if Nat.leb (String.length s) 100 then [t] else [])
    (extractFromText text)
  /\ (isString text = false -> extractFromText text = []).
Proof.
  intros text. split.
  - destruct text; try constructor.
    unfold extractFromText. apply Forall_map.
    eapply Forall_impl; [|apply hashtagMatches_words].
    intros m [Hn Hw]. exists (toLowerCase m).
    assert (E : clean_tag (toLowerCase m) = true).
    { unfold clean_tag. rewrite every_word_lower, Hw, toLowerCase_idem, String.eqb_refl.
      destruct m; [contradiction|reflexivity]. }
    repeat split; [exact E | now apply clean_tag_validate | now apply clean_tag_normalize].
  - destruct text; try reflexivity. discriminate.
Qed.

Lemma normalize_tag_validate : forall acc s,
  normalize_tag acc (VStr s)
  = if validate (VStr s)
    then set_add acc (VStr (trim (toLowerCase (strip_hash s))))
    else acc.
Proof.
  intros acc s. unfold normalize_tag, validate.
  assert (Hw : well_formed (trim (toLowerCase (strip_hash s)))
               = well_formed (trim (strip_hash s))).
  { now rewrite trim_lower, well_formed_lower. }
  cbv zeta. rewrite Hw.
  destruct (truthy (VStr s)); reflexivity.
Qed.

Lemma normalize_tag_other : forall acc tag,
  isString tag = false -> normalize_tag acc tag = acc.
Proof. intros acc [] E; try reflexivity. discriminate E. Qed.

Lemma fold_normalize_tag : forall tags acc,
  NoDup acc ->
  NoDup (fold_left normalize_tag tags acc)
  /\ forall t, In t (fold_left normalize_tag tags acc) <->
       In t acc
       \/ exists s, In (VStr s) tags /\ validate (VStr s) = true
                    /\ t = VStr (trim (toLowerCase (strip_hash s))).
Proof.
  induction tags as [|tag tags IH]; intros acc Hacc; cbn [fold_left].
  - split; [exact Hacc|]. intros t. split; [now left|].
    intros [H | (s & [] & _)]. exact H.
  - assert (Hstep : NoDup (normalize_tag acc tag)).
    { destruct tag; try exact Hacc.
      rewrite normalize_tag_validate. destruct (validate (VStr s)); [|exact Hacc].
      now apply set_add_NoDup. }
    destruct (IH _ Hstep) as [Hnd Hin]. split; [exact Hnd|].
    intros t. rewrite Hin. clear Hin Hnd IH.
    split.
    + intros [H | (s & Hs & Hv & Ht)].
      * destruct tag; try (now left).
        rewrite normalize_tag_validate in H.
        destruct (validate (VStr s)) eqn:Hv; [|now left].
        apply set_add_In in H as [H | H]; [now left|].
        right. exists s. repeat split; [now left | exact Hv | exact H].
      * right. exists s. repeat split; [now right | exact Hv | exact Ht].
    + intros [H | (s & [Hs | Hs] & Hv & Ht)].
      * left. destruct tag; try exact H.
        rewrite normalize_tag_validate. destruct (validate (VStr s)); [|exact H].
        apply set_add_In. now left.
      * left. subst tag. rewrite normalize_tag_validate, Hv.
        apply set_add_In. now right.
      * right. exists s. repeat split; assumption.
Qed.

Lemma normalize_keeps_valid_aux : forall tags t,
  In t (normalize (VArr tags)) ->
  exists s, validate (VStr s) = true
            /\ t = VStr (trim (toLowerCase (strip_hash s))).
Proof.
  intros tags t Ht. unfold normalize in Ht.
  destruct (fold_normalize_tag tags [] (NoDup_nil _)) as [_ Hin].
  apply Hin in Ht as [[] | (s & _ & Hv & E)]. eauto.
Qed.

(** X2: [normalize] and [validate] agree.  Every string of the array
    that [validate] accepts is kept by [normalize], cleaned ([#]
    stripped, lower-cased, trimmed), and the result holds each tag once.
    Every tag of the result is the cleaned form of a string of the
    array, and [validate] accepts that string when it is made of ASCII
    characters ([normalize] tests the lower-cased text, [validate] the
    text as given).  An argument that is not an array gives no tag. *)
Theorem normalize_keeps_what_validate_accepts : forall tags,
  NoDup (normalize (VArr tags))
  /\ (forall s,
        In (VStr s) tags -> validate (VStr s) = true ->
        In (VStr (trim (toLowerCase (strip_hash s)))) (normalize (VArr tags)))
  /\ (forall t,
        In t (normalize (VArr tags)) ->
        exists s, In (VStr s) tags
                  /\ t = VStr (trim (toLowerCase (strip_hash s)))
                  /\ (ascii_only s = true -> validate (VStr s) = true))
  /\ (forall hashtags, isArray hashtags = false -> normalize hashtags = []).
Proof.
  intros tags.
  destruct (fold_normalize_tag tags [] (NoDup_nil _)) as [Hnd Hin].
  split; [exact Hnd|]. split; [|split].
  - intros s Hs Hv. unfold normalize. apply Hin. right. exists s.
    split; [exact Hs|]. split; [exact Hv | reflexivity].
  - intros t Ht. unfold normalize in Ht.
    apply Hin in Ht as [[] | (s & Hs & Hv & E)].
    exists s. split; [exact Hs|]. split; [exact E | intros _; exact Hv].
  - intros [] E; try reflexivity. discriminate E.
Qed.

Lemma validated_clean : forall s,
  validate (VStr s) = true ->
  clean_tag (trim (toLowerCase (strip_hash s))) = true
  /\ Nat.leb (String.length (trim (toLowerCase (strip_hash s)))) 100 = true.
Proof.
  intros s Hv. unfold validate in Hv. apply andb_prop in Hv as [_ Hw].
  rewrite <- well_formed_lower, <- trim_lower in Hw.
  unfold well_formed in Hw.
  apply andb_prop in Hw as [Hw He]. apply andb_prop in Hw as [Hp Hl].
  split; [|exact Hl]. unfold clean_tag. rewrite He.
  rewrite trim_lower, toLowerCase_idem, String.eqb_refl.
  rewrite <- trim_lower.
  destruct (trim (toLowerCase (strip_hash s))); [discriminate Hp | reflexivity].
Qed.

Lemma fold_normalize_clean : forall l acc,
  Forall (fun t => exists s, t = VStr s /\ clean_tag s = true
                             /\ Nat.leb (String.length s) 100 = true) l ->
  NoDup (acc ++ l) ->
  fold_left normalize_tag l acc = acc ++ l.
Proof.
  induction l as [|t l IH]; intros acc Hl Hnd; cbn [fold_left].
  - now rewrite app_nil_r.
  - inversion Hl as [|? ? (s & -> & Hc & Hlen) Hl']; subst.
    destruct (clean_tag_fixed s Hc) as (_ & _ & _ & Ht & _ & _).
    rewrite normalize_tag_validate, (clean_tag_validate s Hc), Hlen, Ht.
    assert (Hfresh : mem (VStr s) acc = false).
    { destruct (mem (VStr s) acc) eqn:E; [|reflexivity].
      apply mem_In in E. exfalso.
      apply NoDup_remove_2 in Hnd. apply Hnd. apply in_or_app. now left. }
    unfold set_add. rewrite Hfresh.
    rewrite IH; [now rewrite <- app_assoc | exact Hl' | now rewrite <- app_assoc].
Qed.

(** X3: [normalize] is idempotent, and everything it returns passes
    [validate]. *)
Theorem normalize_idempotent : forall hashtags,
  normalize (VArr (normalize hashtags)) = normalize hashtags
  /\ Forall (fun t => validate t = true) (normalize hashtags).
Proof.
  intros hashtags.
  assert (Hgood :
    Forall (fun t => exists s, t = VStr s /\ clean_tag s = true
                               /\ Nat.leb (String.length s) 100 = true)
      (normalize hashtags)).
  { apply Forall_forall. intros t Ht.
    destruct hashtags; try contradiction.
    destruct (normalize_keeps_valid_aux items t Ht) as (s & Hv & ->).
    destruct (validated_clean s Hv) as [Hc Hl]. eauto. }
  split.
  - unfold normalize at 1.
    apply (fold_normalize_clean (normalize hashtags) [] Hgood).
    destruct hashtags; try constructor.
    apply (fold_normalize_tag items []). constructor.
  - eapply Forall_impl; [|exact Hgood].
    intros t (s & -> & Hc & Hl). now rewrite clean_tag_validate.
Qed.

End HashtagText.

(** ** Tag sets and their metadata: extractFromGraphQL, merge *)

Section HashtagSets.
Import JS HashtagExtractor TagSpec.

Lemma NoDup_snoc : forall (A : Type) (l : list A) x,
  NoDup l -> ~ In x l -> NoDup (l ++ [x]).
Proof.
  intros A l x Hl Hx. induction Hl as [|y l Hy Hl IH]; simpl.
  - constructor; [intros []|constructor].
  - constructor.
    + rewrite in_app_iff. intros [H | [-> | []]]; [now apply Hy|].
      apply Hx. now left.
    + apply IH. intros H. apply Hx. now right.
Qed.

Lemma known_In : forall normalized metadata,
  known normalized metadata = true
  <-> In (VStr normalized) (map entry_name metadata).
Proof.
  intros n md. unfold known. rewrite existsb_exists, in_map_iff.
  split; intros (m & H1 & H2).
  - exists m. split; [|exact H1]. now apply value_eqb_eq.
  - exists m. split; [exact H2|]. unfold entry_name in H1. rewrite H1.
    apply value_eqb_refl.
Qed.

Lemma normalized_lowercase : forall name n,
  normalized_of name = Ok n -> lowercase (VStr n).
Proof.
  intros name k E. destruct name; try discriminate E. injection E as <-.
  exists (strip_hash (toLowerCase s)). split; [reflexivity|].
  now rewrite <- strip_hash_lower, toLowerCase_idem.
Qed.

Lemma entry_name_entry : forall n i c p m, entry_name (entry n i c p m) = VStr n.
Proof. reflexivity. Qed.

(** Adding a tag together with an entry filed under it. *)
Lemma agreeing_push : forall a n m,
  agreeing a -> lowercase (VStr n) -> entry_name m = VStr n ->
  agreeing (mkAcc (set_add (hashtags a) (VStr n)) (metadata a ++ [m])).
Proof.
  intros a n m (Hnd & Hlow & Hin) Hn Hm. unfold agreeing. cbn [hashtags metadata].
  split; [now apply set_add_NoDup | split].
  - apply Forall_forall. intros t Ht. apply set_add_In in Ht as [Ht | ->].
    + rewrite Forall_forall in Hlow. now apply Hlow.
    + exact Hn.
  - intros t. rewrite set_add_In, map_app, in_app_iff, Hin. cbn [map In].
    rewrite Hm. intuition congruence.
Qed.

(** Adding a tag that already has an entry. *)
Lemma agreeing_known : forall a n,
  agreeing a -> lowercase (VStr n) -> known n (metadata a) = true ->
  agreeing (mkAcc (set_add (hashtags a) (VStr n)) (metadata a)).
Proof.
  intros a n (Hnd & Hlow & Hin) Hn Hk. unfold agreeing. cbn [hashtags metadata].
  apply known_In in Hk.
  split; [now apply set_add_NoDup | split].
  - apply Forall_forall. intros t Ht. apply set_add_In in Ht as [Ht | ->].
    + rewrite Forall_forall in Hlow. now apply Hlow.
    + exact Hn.
  - intros t. rewrite set_add_In, <- Hin. split; [|now left].
    intros [H | ->]; [exact H | now apply Hin].
Qed.

Lemma edge_step_agreeing : forall a index edge a',
  edge_step a index edge = Ok a' -> agreeing a -> agreeing a'.
Proof.
  intros a index edge a' E Ha. unfold edge_step in E.
  destruct (get_strict edge "node") as [node|]; [|discriminate E].
  destruct (truthy node); [|now injection E as <-].
  destruct (truthy (get node "name" ||| get node "hashtag"));
    [|now injection E as <-].
  destruct (normalized_of (get node "name" ||| get node "hashtag")) as [n|] eqn:En;
    [|discriminate E].
  injection E as <-. apply agreeing_push; [exact Ha | | reflexivity].
  eapply normalized_lowercase, En.
Qed.

Lemma tag_step_agreeing : forall method with_count a index tag a',
  tag_step method with_count a index tag = Ok a' -> agreeing a -> agreeing a'.
Proof.
  intros method with_count a index tag a' E Ha. unfold tag_step in E.
  destruct (if isString tag then Ok tag
            else match get_strict tag "name" with
                 | Ok name => Ok (name ||| get tag "hashtag")
                 | Throw => Throw
                 end) as [hashtagName|]; [|discriminate E].
  destruct (truthy hashtagName); [|now injection E as <-].
  destruct (normalized_of hashtagName) as [n|] eqn:En; [|discriminate E].
  pose proof (normalized_lowercase _ _ En) as Hn.
  destruct (known n (metadata a)) eqn:Hk; injection E as <-.
  - now apply agreeing_known.
  - now apply agreeing_push.
Qed.

Lemma forEach_from_inv : forall (P : acc -> Prop) f,
  (forall a index x a', f a index x = Ok a' -> P a -> P a') ->
  forall l index a a', forEach_from f index l a = Ok a' -> P a -> P a'.
Proof.
  intros P f Hf. induction l as [|x l IH]; intros index a a' E Ha; simpl in E.
  - now injection E as <-.
  - destruct (f a index x) as [a1|] eqn:E1; [|discriminate E].
    eapply IH; [exact E|]. eapply Hf; eassumption.
Qed.

Lemma when_array_inv : forall (P : acc -> Prop) f v,
  (forall a index x a', f a index x = Ok a' -> P a -> P a') ->
  forall a a', when_array v f a = Ok a' -> P a -> P a'.
Proof.
  intros P f v Hf a a' E Ha. destruct v; simpl in E; try (now injection E as <-).
  eapply forEach_from_inv; eassumption.
Qed.

Lemma extractFromGraphQL_agreeing : forall items a,
  extractFromGraphQL items = Ok a -> agreeing a.
Proof.
  intros items a E. unfold extractFromGraphQL in E.
  destruct (when_array _ edge_step _) as [a1|] eqn:E1; [|discriminate E].
  destruct (when_array _ (tag_step "graphql_array" true) a1) as [a2|] eqn:E2;
    [|discriminate E].
  assert (H0 : agreeing (mkAcc [] [])).
  { repeat split; try constructor; intros []. }
  pose proof (when_array_inv agreeing _ _ edge_step_agreeing _ _ E1 H0) as H1.
  pose proof (when_array_inv agreeing _ _ (tag_step_agreeing _ _) _ _ E2 H1) as H2.
  exact (when_array_inv agreeing _ _ (tag_step_agreeing _ _) _ _ E H2).
Qed.

(** X4: when [extractFromGraphQL] returns, its tags are distinct
    lower-case strings, every tag has an entry of metadata filed under it
    and every entry is filed under one of the tags. *)
Theorem extractFromGraphQL_tags_match_metadata : forall items a,
  extractFromGraphQL items = Ok a ->
  NoDup (hashtags a)
  /\ Forall lowercase (hashtags a)
  /\ (forall t, In t (hashtags a) <-> In t (map entry_name (metadata a))).
Proof.
  intros items a E. unfold extractFromGraphQL in E.
  destruct (when_array _ edge_step _) as [a1|] eqn:E1; [|discriminate E].
  destruct (when_array _ (tag_step "graphql_array" true) a1) as [a2|] eqn:E2;
    [|discriminate E].
  assert (H0 : agreeing (mkAcc [] [])).
  { repeat split; try constructor; intros []. }
  (* method 1, then method 2, then method 3 keep the agreement *)
  pose proof (when_array_inv agreeing _ _ edge_step_agreeing _ _ E1 H0) as H1.
  pose proof (when_array_inv agreeing _ _ (tag_step_agreeing _ _) _ _ E2 H1) as H2.
  destruct (when_array_inv agreeing _ _ (tag_step_agreeing _ _) _ _ E H2)
    as (Hnd & Hlow & Hin).
  split; [exact Hnd|]. split; [exact Hlow | exact Hin].
Qed.

Lemma extractFromGraphQL_tags_match_metadata_witness :
  exists a,
    extractFromGraphQL TagSamples.tagged_item = Ok a
    /\ hashtags a = [VStr "foo"; VStr "bar"]
    /\ NoDup (hashtags a)
    /\ Forall lowercase (hashtags a)
    /\ (forall t, In t (hashtags a) <-> In t (map entry_name (metadata a))).
Proof.
  eexists. split; [reflexivity|]. split; [reflexivity|].
  apply (extractFromGraphQL_tags_match_metadata TagSamples.tagged_item).
  reflexivity.
Defined.

(** *** merge *)

Lemma find_entry_name : forall n entries m,
  find_entry n entries = Ok (Some m) -> entry_name m = VStr n.
Proof.
  induction entries as [|e entries IH]; intros m E; simpl in E; [discriminate E|].
  destruct (get_strict e "hashtag") as [h|] eqn:Eh; [|discriminate E].
  destruct (value_eqb h (VStr n)) eqn:Ev.
  - injection E as <-. apply value_eqb_eq in Ev. subst h.
    unfold get_strict in Eh. destruct (nullish e); [discriminate Eh|].
    now injection Eh.
  - now apply IH.
Qed.

Lemma merge_tag_aligned : forall md a tag a',
  merge_tag md a tag = Ok a' -> aligned a ->
  aligned a'
  /\ incl (hashtags a) (hashtags a')
  /\ exists n, normalized_of tag = Ok n /\ In (VStr n) (hashtags a').
Proof.
  intros md a tag a' E (Hnd & Hlow & Hal). unfold merge_tag in E.
  destruct (normalized_of tag) as [n|] eqn:En; [|discriminate E].
  pose proof (normalized_lowercase _ _ En) as Hn.
  destruct (mem (VStr n) (hashtags a)) eqn:Hm.
  - injection E as <-. split; [now repeat split|].
    split; [apply incl_refl|]. exists n. split; [reflexivity|]. now apply mem_In.
  - assert (Hfresh : ~ In (VStr n) (hashtags a)).
    { intros H. apply mem_In in H. congruence. }
    assert (Hpush : forall m, entry_name m = VStr n ->
              aligned (mkAcc (hashtags a ++ [VStr n]) (metadata a ++ [m]))).
    { intros m Hname. unfold aligned. cbn [hashtags metadata].
      split; [|split].
      - now apply NoDup_snoc.
      - apply Forall_app. split; [exact Hlow | now constructor].
      - rewrite map_app, Hal. cbn [map]. now rewrite Hname. }
    destruct (array_or_empty md) as [entries|]; [|discriminate E].
    destruct (find_entry n entries) as [[m|]|] eqn:Ef; [| |discriminate E];
      injection E as <-.
    + split; [apply Hpush; eapply find_entry_name, Ef|].
      cbn [hashtags]. split; [now apply incl_appl, incl_refl|].
      exists n. split; [reflexivity|]. apply in_or_app. right. now left.
    + split; [now apply Hpush|].
      cbn [hashtags]. split; [now apply incl_appl, incl_refl|].
      exists n. split; [reflexivity|]. apply in_or_app. right. now left.
Qed.

Lemma fold_merge_tag : forall md tags a a',
  fold_result (merge_tag md) tags a = Ok a' -> aligned a ->
  aligned a'
  /\ incl (hashtags a) (hashtags a')
  /\ forall tag, In tag tags ->
       exists n, normalized_of tag = Ok n /\ In (VStr n) (hashtags a').
Proof.
  intros md. induction tags as [|x tags IH]; intros a a' E Ha; simpl in E.
  - injection E as <-. split; [exact Ha|]. split; [apply incl_refl|]. intros ? [].
  - destruct (merge_tag md a x) as [a1|] eqn:E1; [|discriminate E].
    destruct (merge_tag_aligned _ _ _ _ E1 Ha) as (H1 & Hi1 & n & Hn & Hin).
    destruct (IH _ _ E H1) as (H2 & Hi2 & Hall).
    split; [exact H2|]. split; [eapply incl_tran; eassumption|].
    intros tag [<- | Ht]; [|now apply Hall].
    exists n. split; [exact Hn | now apply Hi2].
Qed.

Lemma merge_source_aligned : forall a source a',
  merge_source a source = Ok a' -> aligned a ->
  aligned a'
  /\ incl (hashtags a) (hashtags a')
  /\ forall tags tag, get source "hashtags" = VArr tags -> In tag tags ->
       exists n, normalized_of tag = Ok n /\ In (VStr n) (hashtags a').
Proof.
  intros a source a' E Ha. unfold merge_source in E.
  destruct (get_strict source "hashtags") as [hs|] eqn:Eh; [|discriminate E].
  destruct (array_or_empty hs) as [l|] eqn:El; [|discriminate E].
  destruct (fold_merge_tag _ _ _ _ E Ha) as (H1 & Hi & Hall).
  split; [exact H1|]. split; [exact Hi|].
  intros tags tag Hg Ht. apply Hall.
  unfold get_strict in Eh. destruct (nullish source); [discriminate Eh|].
  injection Eh as <-. rewrite Hg in El. injection El as <-. exact Ht.
Qed.

Lemma fold_merge_source : forall sources a a',
  fold_result merge_source sources a = Ok a' -> aligned a ->
  aligned a'
  /\ incl (hashtags a) (hashtags a')
  /\ forall source tags tag,
       In source sources -> get source "hashtags" = VArr tags -> In tag tags ->
       exists n, normalized_of tag = Ok n /\ In (VStr n) (hashtags a').
Proof.
  induction sources as [|x sources IH]; intros a a' E Ha; simpl in E.
  - injection E as <-. split; [exact Ha|]. split; [apply incl_refl|].
    intros ? ? ? [].
  - destruct (merge_source a x) as [a1|] eqn:E1; [|discriminate E].
    destruct (merge_source_aligned _ _ _ E1 Ha) as (H1 & Hi1 & Hx).
    destruct (IH _ _ E H1) as (H2 & Hi2 & Hall).
    split; [exact H2|]. split; [eapply incl_tran; eassumption|].
    intros source tags tag [<- | Hs] Hg Ht.
    + destruct (Hx _ _ Hg Ht) as (n & Hn & Hin).
      exists n. split; [exact Hn | now apply Hi2].
    + eapply Hall; eassumption.
Qed.

(** X5: when [merge] returns, the merged tags are distinct lower-case
    strings, [metadata] holds exactly one entry for each tag, in the same
    order and filed under it, and every string tag of every source is
    among the merged tags, lower-cased and without its leading [#]. *)
Theorem merge_tags_distinct_and_filed : forall sources merged,
  merge sources = Ok merged ->
  exists hs ms,
    merged = VObj [("hashtags", VArr hs); ("metadata", VArr ms)]
    /\ NoDup hs
    /\ Forall lowercase hs
    /\ map entry_name ms = hs
    /\ (forall source tags s,
          In source sources -> get source "hashtags" = VArr tags ->
          In (VStr s) tags ->
          In (VStr (strip_hash (toLowerCase s))) hs).
Proof.
  intros sources merged E. unfold merge in E.
  destruct (fold_result merge_source sources (mkAcc [] [])) as [a|] eqn:Ef;
    [|discriminate E].
  injection E as <-.
  assert (H0 : aligned (mkAcc [] [])) by (repeat split; constructor).
  destruct (fold_merge_source _ _ _ Ef H0) as ((Hnd & Hlow & Hal) & _ & Hall).
  exists (hashtags a), (metadata a).
  repeat split; try assumption.
  intros source tags s Hs Hg Ht.
  destruct (Hall _ _ _ Hs Hg Ht) as (n & Hn & Hin).
  simpl in Hn. now injection Hn as <-.
Qed.

Lemma merge_tags_distinct_and_filed_witness :
  exists hs ms,
    merge TagSamples.sources
    = Ok (VObj [("hashtags", VArr hs); ("metadata", VArr ms)])
    /\ hs = [VStr "dom"; VStr "tag1"]
    /\ NoDup hs
    /\ map entry_name ms = hs.
Proof.
  destruct (merge_tags_distinct_and_filed TagSamples.sources
              (VObj [("hashtags", VArr [VStr "dom"; VStr "tag1"]);
                     ("metadata",
                      VArr [VObj [("hashtag", VStr "dom")];
                            entry "tag1" VNull VNull 2 "merged"])])
              eq_refl)
    as (hs & ms & E & Hnd & _ & Hal & _).
  exists hs, ms. injection E as <- <-.
  split; [reflexivity|]. split; [reflexivity|]. split; [exact Hnd | exact Hal].
Defined.

End HashtagSets.

(** ** The records the extractors build *)

Section ExtractedRecords.
Import JS TagSpec.

Lemma truthy_or_null : forall a, truthy (a ||| VNull) = truthy a.
Proof. intros a. unfold or_else. now destruct (truthy a) eqn:E. Qed.

Lemma or_zero_defined : forall v, nullish (v ||| VNum 0) = false.
Proof.
  intros v. unfold or_else. destruct (truthy v) eqn:E; [|reflexivity].
  destruct v; try reflexivity; discriminate E.
Qed.

Lemma extractReelDataFromItem_shape : forall items,
  let r := GraphQLExtractor.extractReelDataFromItem items in
  r = VNull
  \/ (truthy (get r "post_id") = true
      /\ get r "post_id" = get items "shortcode" ||| get items "code" ||| VNull
      /\ get r "media_type" = VStr "reel"
      /\ nullish (get r "likes_count") = false
      /\ nullish (get r "comments_count") = false
      /\ nullish (get r "view_count") = false
      /\ exists hs ms,
           get r "hashtags" = VArr hs /\ get r "hashtag_metadata" = VArr ms
           /\ NoDup hs /\ Forall lowercase hs
           /\ forall t, In t hs <-> In t (map entry_name ms)).
Proof.
  intros items r. subst r. unfold GraphQLExtractor.extractReelDataFromItem.
  destruct (get_strict items "shortcode"); [|now left].
  destruct (HashtagExtractor.extractFromGraphQL items) as [h|] eqn:Eh; [|now left].
  cbv zeta.
  destruct (truthy (get (GraphQLExtractor.reelData_of items h) "post_id")) eqn:Ep;
    [|now left].
  right. split; [exact Ep|]. split; [reflexivity|]. split; [reflexivity|].
  split; [apply or_zero_defined|]. split; [apply or_zero_defined|].
  split; [apply or_zero_defined|].
  exists (HashtagExtractor.hashtags h), (HashtagExtractor.metadata h).
  split; [reflexivity|]. split; [reflexivity|].
  exact (extractFromGraphQL_agreeing items h Eh).
Qed.

(** X6: whatever the payload, [extractReelFromGraphQL] and
    [extractReelFromGraphQLItem] return [null] or a record with a truthy
    [post_id], the media type [reel], its three counts present (never
    [null] or [undefined]), and a tag array of distinct lower-case strings
    whose metadata is filed under these tags. *)
Theorem extracted_record_is_complete : forall payload,
  let complete r :=
    r = VNull
    \/ (truthy (get r "post_id") = true
        /\ get r "media_type" = VStr "reel"
        /\ nullish (get r "likes_count") = false
        /\ nullish (get r "comments_count") = false
        /\ nullish (get r "view_count") = false
        /\ exists hs ms,
             get r "hashtags" = VArr hs /\ get r "hashtag_metadata" = VArr ms
             /\ NoDup hs /\ Forall lowercase hs
             /\ forall t, In t hs <-> In t (map entry_name ms)) in
  complete (GraphQLExtractor.extractReelFromGraphQL payload)
  /\ complete (GraphQLExtractor.extractReelFromGraphQLItem payload).
Proof.
  intros payload complete.
  assert (H : forall items,
             complete (GraphQLExtractor.extractReelDataFromItem items)).
  { intros items.
    destruct (extractReelDataFromItem_shape items) as [E | (H1 & _ & H2)];
      [now left | right; now split]. }
  split.
  - unfold GraphQLExtractor.extractReelFromGraphQL.
    destruct (GraphQLExtractor.select_items payload) as [items|]; [|now left].
    destruct (negb (truthy items)); [now left | apply H].
  - unfold GraphQLExtractor.extractReelFromGraphQLItem.
    destruct (negb (truthy payload)); [now left | apply H].
Qed.

(** *** When a record is dropped *)

Lemma normalized_of_ok : forall h,
  truthy h = true -> is_ok (HashtagExtractor.normalized_of h) = isString h.
Proof. intros [] H; reflexivity. Qed.

Lemma edge_step_ok : forall a index edge,
  is_ok (HashtagExtractor.edge_step a index edge) = edge_ok edge.
Proof.
  intros a index edge. unfold HashtagExtractor.edge_step, edge_ok, get_strict.
  destruct (nullish edge); [reflexivity|]. cbn [negb andb].
  destruct (truthy (get edge "node")); [|reflexivity]. cbn [negb orb].
  unfold name_ok, name_of.
  destruct (truthy (get (get edge "node") "name" ||| get (get edge "node") "hashtag"))
    eqn:Et; [|reflexivity].
  cbn [negb orb]. rewrite <- (normalized_of_ok _ Et).
  now destruct (HashtagExtractor.normalized_of _).
Qed.

Lemma tag_step_ok : forall method with_count a index tag,
  is_ok (HashtagExtractor.tag_step method with_count a index tag) = tag_ok tag.
Proof.
  intros method with_count a index tag.
  unfold HashtagExtractor.tag_step, tag_ok, get_strict.
  destruct (isString tag) eqn:Es.
  - destruct tag; try discriminate Es. cbn [orb].
    destruct (truthy (VStr s)); [|reflexivity].
    cbn [HashtagExtractor.normalized_of].
    now destruct (HashtagExtractor.known _ _).
  - cbn [orb]. destruct (nullish tag); [reflexivity|]. cbn [negb andb].
    unfold name_ok, name_of.
    destruct (truthy (get tag "name" ||| get tag "hashtag")) eqn:Et;
      [|reflexivity].
    cbn [negb orb]. rewrite <- (normalized_of_ok _ Et).
    destruct (HashtagExtractor.normalized_of _); [|reflexivity].
    now destruct (HashtagExtractor.known _ _).
Qed.

Lemma forEach_from_ok : forall f ok,
  (forall a index x, is_ok (f a index x) = ok x) ->
  forall l index a,
  is_ok (HashtagExtractor.forEach_from f index l a) = forallb ok l.
Proof.
  intros f ok Hf. induction l as [|x l IH]; intros index a; simpl; [reflexivity|].
  rewrite <- (Hf a index x).
  destruct (f a index x) as [a'|]; [apply IH | reflexivity].
Qed.

Lemma when_array_ok : forall f ok v a,
  (forall a index x, is_ok (f a index x) = ok x) ->
  is_ok (HashtagExtractor.when_array v f a) = array_all ok v.
Proof.
  intros f ok v a Hf. destruct v; try reflexivity.
  now apply forEach_from_ok.
Qed.

Lemma extractFromGraphQL_ok : forall items,
  is_ok (HashtagExtractor.extractFromGraphQL items) = well_tagged items.
Proof.
  intros items. unfold HashtagExtractor.extractFromGraphQL, well_tagged.
  rewrite <- (when_array_ok HashtagExtractor.edge_step edge_ok _
                (HashtagExtractor.mkAcc [] []) edge_step_ok).
  destruct (HashtagExtractor.when_array _ HashtagExtractor.edge_step _)
    as [a1|]; [|reflexivity].
  cbn [is_ok andb].
  rewrite <- (when_array_ok (HashtagExtractor.tag_step "graphql_array" true)
                tag_ok _ a1 (tag_step_ok _ _)).
  destruct (HashtagExtractor.when_array _
              (HashtagExtractor.tag_step "graphql_array" true) a1)
    as [a2|]; [|reflexivity].
  cbn [is_ok andb].
  apply when_array_ok, tag_step_ok.
Qed.

(** X7: a record is dropped exactly when it must be.  The tag extraction
    raises exactly when some element of the three tag arrays of the item
    is one it cannot handle ([null], [undefined], or a name that is
    truthy and not a string); and [extractReelDataFromItem] returns a
    record exactly when the item is neither [null] nor [undefined], has
    a truthy [shortcode] or [code], and its tag arrays are of that
    kind. *)
Theorem record_dropped_exactly_when_malformed : forall items,
  is_ok (HashtagExtractor.extractFromGraphQL items) = well_tagged items
  /\ (GraphQLExtractor.extractReelDataFromItem items <> VNull <->
      nullish items = false
      /\ truthy (get items "shortcode" ||| get items "code") = true
      /\ well_tagged items = true).
Proof.
  intros items. split; [apply extractFromGraphQL_ok|].
  rewrite <- extractFromGraphQL_ok.
  unfold GraphQLExtractor.extractReelDataFromItem, get_strict.
  destruct (nullish items).
  { split; [intros H; now contradiction H | intros [H _]; discriminate H]. }
  destruct (HashtagExtractor.extractFromGraphQL items) as [h|].
  2: { split; [intros H; now contradiction H | intros (_ & _ & H); discriminate H]. }
  cbv zeta. rewrite reelData_post_id, truthy_or_null.
  destruct (truthy (get items "shortcode" ||| get items "code")).
  - split; [now repeat split | discriminate].
  - split; [intros H; now contradiction H | intros (_ & H & _); discriminate H].
Qed.

(** *** The DOM fallback *)

Lemma lookup_spread_one : forall src k,
  lookup k (ReelDataTransformer.spread src []) = get src k.
Proof.
  intros src k. unfold ReelDataTransformer.spread.
  rewrite lookup_fold_define.
  destruct src; simpl; try reflexivity.
  destruct (has_key k props) eqn:E; [reflexivity|].
  destruct (lookup k props) eqn:El; try reflexivity;
    exfalso; assert (Hd : lookup k props <> VUndefined) by (rewrite El; discriminate);
    apply lookup_has_key in Hd; congruence.
Qed.

(** X8: the DOM fallback returns [null] or the record read off the page
    with its two tag fields replaced: every other field, the [post_id]
    among them, is as the page gave it; the tags are distinct, each with
    one entry of metadata, and every hashtag written in the caption is
    among them. *)
Theorem dom_record_keeps_fields_and_caption_tags :
  forall evaluated evaluatedTags,
  let r := DOMExtractor.extractReelData evaluated evaluatedTags in
  r = VNull
  \/ exists domData hs ms,
       evaluated = Ok domData
       /\ truthy domData = true
       /\ (forall k, String.eqb k "hashtags" = false ->
                     String.eqb k "hashtag_metadata" = false ->
                     get r k = get domData k)
       /\ get r "hashtags" = VArr hs
       /\ get r "hashtag_metadata" = VArr ms
       /\ NoDup hs
       /\ map entry_name ms = hs
       /\ (forall t, In t (HashtagExtractor.extractFromText
                             (get domData "caption")) -> In t hs).
Proof.
  intros evaluated evaluatedTags r. subst r. unfold DOMExtractor.extractReelData.
  destruct evaluated as [domData|]; [|now left].
  destruct (truthy domData) eqn:Ed; [|now left]. cbn [negb].
  destruct (get_strict (HashtagExtractor.extractFromDOM evaluatedTags) "hashtags")
    as [tags|]; [|now left].
  cbv zeta.
  set (captionHashtags :=
         if truthy (get domData "caption")
         then HashtagExtractor.extractFromText (get domData "caption") else []).
  set (sources := [_; _]).
  unfold HashtagExtractor.merge.
  destruct (HashtagExtractor.fold_result HashtagExtractor.merge_source sources
              (HashtagExtractor.mkAcc [] [])) as [a|] eqn:Ef; [|now left].
  right.
  assert (H0 : aligned (HashtagExtractor.mkAcc [] [])) by (repeat split; constructor).
  destruct (fold_merge_source _ _ _ Ef H0) as ((Hnd & _ & Hal) & _ & Hall).
  exists domData, (HashtagExtractor.hashtags a), (HashtagExtractor.metadata a).
  split; [reflexivity|]. split; [exact Ed|].
  split.
  { intros k K1 K2. cbn [get]. rewrite !lookup_define, K1, K2.
    apply lookup_spread_one. }
  split.
  { cbn [get]. rewrite !lookup_define. reflexivity. }
  split.
  { cbn [get]. rewrite !lookup_define. reflexivity. }
  split; [exact Hnd|]. split; [exact Hal|].
  intros t Ht.
  assert (Hin : In t captionHashtags).
  { subst captionHashtags. destruct (truthy (get domData "caption")) eqn:Ec;
      [exact Ht|].
    destruct (get domData "caption"); try contradiction.
    simpl in Ec. apply negb_false_iff, String.eqb_eq in Ec. subst s.
    contradiction. }
  destruct (extractFromText_clean _ _ Ht) as (s & -> & Hc).
  destruct (Hall (VObj [("hashtags", VArr captionHashtags); ("metadata", VArr [])])
              captionHashtags (VStr s)) as (n & Hn & Hn').
  - right. now left.
  - reflexivity.
  - exact Hin.
  - simpl in Hn. injection Hn as <-.
    destruct (clean_tag_fixed s Hc) as (_ & Hw & Hl & _).
    now rewrite Hl, (strip_hash_words s Hw) in Hn'.
Qed.

End ExtractedRecords.

(** ** The dedup cache: lookups *)

Section CollectorExtras.
Import JS ReelCollector CollectorSpec.

Lemma map_get_snoc : forall k k' v m,
  map_get k (m ++ [(k', v)])
  = if map_has k m then map_get k m
    else if value_eqb k k' then v else VUndefined.
Proof.
  intros k k' v. induction m as [|[k0 v0] m IH]; simpl; [reflexivity|].
  destruct (value_eqb k k0); [reflexivity | exact IH].
Qed.

Lemma map_has_snoc : forall k k' v m,
  map_has k (m ++ [(k', v)]) = map_has k m || value_eqb k k'.
Proof.
  intros k k' v. induction m as [|[k0 v0] m IH]; simpl.
  - now rewrite orb_false_r.
  - now rewrite IH, orb_assoc.
Qed.

Lemma map_get_absent : forall k m, map_has k m = false -> map_get k m = VUndefined.
Proof.
  intros k. induction m as [|[k0 v0] m IH]; simpl; [reflexivity|].
  destruct (value_eqb k k0); [discriminate | exact IH].
Qed.

Lemma addReel_new : forall r c,
  admissible r = true -> hasReel (post_id r) c = false ->
  snd (addReel r c)
  = mk (collectedReels c ++ [(post_id r, r)]) (networkReels c ++ [r]).
Proof.
  intros r c Ha Hh. unfold admissible in Ha. apply andb_prop in Ha as [H1 H2].
  unfold addReel. unfold post_id in *. rewrite H1, H2. cbn [negb orb].
  unfold hasReel in Hh. rewrite Hh. cbn [negb snd].
  now rewrite (map_set_absent _ _ _ Hh).
Qed.

(** X9: adding a record with a truthy [post_id] (a string or a number)
    the cache does not hold stores it: a lookup of that id returns the
    record itself, the size grows by one, the record comes last in both
    listings, and the lookup of every other id answers as before. *)
Theorem addReel_stores_new_record : forall r c,
  admissible r = true -> primitive (post_id r) = true ->
  hasReel (post_id r) c = false ->
  let c' := snd (addReel r c) in
  getReel (post_id r) c' = r
  /\ hasReel (post_id r) c' = true
  /\ size c' = S (size c)
  /\ getAllReels c' = getAllReels c ++ [r]
  /\ getNetworkReels c' = getNetworkReels c ++ [r]
  /\ (forall k, k <> post_id r ->
        getReel k c' = getReel k c /\ hasReel k c' = hasReel k c).
Proof.
  intros r c Ha _ Hh c'. subst c'. rewrite (addReel_new r c Ha Hh).
  unfold getReel, hasReel, size, getAllReels, getNetworkReels.
  cbn [collectedReels networkReels].
  unfold hasReel in Hh.
  split.
  { rewrite map_get_snoc, Hh, value_eqb_refl. now apply admissible_truthy. }
  split.
  { now rewrite map_has_snoc, value_eqb_refl, orb_true_r. }
  split.
  { rewrite length_app. simpl. lia. }
  split.
  { now rewrite map_app. }
  split; [reflexivity|].
  intros k Hk. apply value_eqb_neq in Hk.
  rewrite map_get_snoc, map_has_snoc, Hk, orb_false_r.
  split; [|reflexivity].
  destruct (map_has k (collectedReels c)) eqn:E; [reflexivity|].
  now rewrite (map_get_absent _ _ E).
Qed.

Lemma addReel_stores_new_record_witness :
  let c := snd (addReel (Samples.reel "B" 2) empty) in
  let c' := snd (addReel (Samples.reel "A" 1) c) in
  getReel (VStr "A") c' = Samples.reel "A" 1
  /\ size c' = 2%nat
  /\ getReel (VStr "B") c' = getReel (VStr "B") c.
Proof.
  destruct (addReel_stores_new_record (Samples.reel "A" 1)
              (snd (addReel (Samples.reel "B" 2) empty)) eq_refl eq_refl eq_refl)
    as (H1 & _ & H3 & _ & _ & H6).
  split; [exact H1|]. split; [exact H3|].
  apply (H6 (VStr "B")). discriminate.
Defined.

(** X10: in a cache built by [addReel] and [clear] from records whose ids
    are compared by value, [hasReel] and [getReel] agree: a lookup that
    hits returns a listed record whose [post_id] is the key, and a lookup
    that misses returns [null]. *)
Theorem hasReel_agrees_with_getReel : forall ops k,
  primitive_ids ops ->
  let c := run ops empty in
  (hasReel k c = true <-> getReel k c <> VNull)
  /\ (hasReel k c = true ->
      In (getReel k c) (getAllReels c) /\ post_id (getReel k c) = k)
  /\ (hasReel k c = false -> getReel k c = VNull).
Proof.
  intros ops k _ c.
  destruct (run_mirrors ops) as [Hn Hc]. fold c in Hn, Hc.
  pose proof (firsts_from_admissible (since_clear ops) []) as Hadm.
  fold (firsts (since_clear ops)) in Hadm. rewrite <- Hn in Hadm.
  rewrite Forall_forall in Hadm.
  unfold hasReel, getReel, getAllReels. rewrite Hc, map_has_entries, map_get_entries.
  rewrite map_map, map_id. cbn [snd].
  destruct (find (fun r => value_eqb k (post_id r)) (networkReels c)) as [r|] eqn:Ef.
  - apply find_some in Ef as [Hin Hk]. apply value_eqb_eq in Hk.
    pose proof (Hadm r Hin) as Ha.
    rewrite (admissible_truthy r Ha).
    assert (Hm : mem k (map post_id (networkReels c)) = true).
    { apply mem_In. subst k. now apply in_map. }
    assert (Hr : r <> VNull).
    { intros ->. discriminate Ha. }
    rewrite Hm. repeat split; try assumption; try congruence.
  - assert (Hm : mem k (map post_id (networkReels c)) = false).
    { destruct (mem k (map post_id (networkReels c))) eqn:E; [|reflexivity].
      apply mem_In, in_map_iff in E as (r & <- & Hin).
      pose proof (find_none _ _ Ef r Hin) as Hf. cbv beta in Hf.
      now rewrite value_eqb_refl in Hf. }
    rewrite Hm. split; [|split]; try discriminate; try reflexivity.
    split; [discriminate | intros H; now contradiction H].
Qed.

Lemma hasReel_agrees_with_getReel_witness :
  let c := run [AddReel (Samples.reel "A" 1); AddReel VNull;
                AddReel (Samples.reel "A" 3)] empty in
  getReel (VStr "A") c <> VNull
  /\ post_id (getReel (VStr "A") c) = VStr "A"
  /\ getReel (VStr "B") c = VNull.
Proof.
  assert (Hp : primitive_ids [AddReel (Samples.reel "A" 1); AddReel VNull;
                              AddReel (Samples.reel "A" 3)]).
  { repeat constructor. }
  destruct (hasReel_agrees_with_getReel _ (VStr "A") Hp) as (H1 & H2 & _).
  destruct (hasReel_agrees_with_getReel _ (VStr "B") Hp) as (_ & _ & H3).
  split; [apply H1; reflexivity|].
  split; [apply H2; reflexivity | apply H3; reflexivity].
Defined.

End CollectorExtras.

(** ** The interception path: what a packet can change *)

Section PacketEffects.
Import JS ReelCollector CollectorSpec PipelineSpec GrowthSpec SearchSpec.

Lemma Forall_flat_map : forall (A B : Type) (P : B -> Prop) (f : A -> list B) l,
  (forall x, In x l -> Forall P (f x)) -> Forall P (flat_map f l).
Proof.
  intros A B P f. induction l as [|x l IH]; intros H; simpl; [constructor|].
  apply Forall_app. split; [apply H; now left|].
  apply IH. intros y Hy. apply H. now right.
Qed.

Lemma findMediaObjects_from_media : forall fuel obj,
  Forall (fun m => GraphQLHandler.is_media m = true)
    (GraphQLHandler.findMediaObjects_from fuel obj).
Proof.
  induction fuel as [|fuel IH]; intros obj; simpl; [constructor|].
  destruct (negb (truthy obj) || negb (typeof_object obj)); [constructor|].
  apply Forall_app. split.
  - destruct (GraphQLHandler.is_media obj) eqn:E; constructor; [exact E|constructor].
  - apply Forall_flat_map. intros child _.
    destruct child; try (destruct (_ && _); [apply IH | constructor]).
    apply Forall_flat_map. intros item _. apply IH.
Qed.

Lemma findMediaObjects_from_guard : forall fuel obj x,
  In x (GraphQLHandler.findMediaObjects_from fuel obj) ->
  truthy obj && typeof_object obj = true.
Proof.
  intros [|fuel] obj x H; simpl in H; [contradiction|].
  destruct (truthy obj); [|contradiction].
  destruct (typeof_object obj); [reflexivity | contradiction].
Qed.

Lemma findMediaObjects_from_below : forall fuel obj x,
  In x (GraphQLHandler.findMediaObjects_from fuel obj) ->
  exists d, (d < fuel)%nat /\ levels_below d obj x.
Proof.
  induction fuel as [|fuel IH]; intros obj x H; simpl in H; [contradiction|].
  destruct (negb (truthy obj) || negb (typeof_object obj)); [contradiction|].
  apply in_app_or in H as [H | H].
  - destruct (GraphQLHandler.is_media obj); [|contradiction].
    destruct H as [<- | []]. exists 0%nat. split; [lia | constructor].
  - apply in_flat_map in H as (child & Hc & H).
    assert (Hstep : forall y,
              In x (GraphQLHandler.findMediaObjects_from fuel y) ->
              visited_below obj y ->
              exists d, (d < S fuel)%nat /\ levels_below d obj x).
    { intros y Hy Hv. destruct (IH y x Hy) as (d & Hd & Hl).
      exists (S d). split; [lia|]. now apply (levels_step d obj y x). }
    destruct child as [| | | | |items|props] eqn:Ec;
      try (destruct (_ && _); [|contradiction];
           apply (Hstep _ H); eexists; split; [exact Hc | reflexivity]).
    apply in_flat_map in H as (item & Hi & H).
    apply (Hstep item H). exists (VArr items). now split.
Qed.

Lemma children_object : forall root child,
  In child (GraphQLHandler.children root) ->
  negb (truthy root) || negb (typeof_object root) = false.
Proof. intros [] child H; try contradiction; reflexivity. Qed.

Lemma levels_below_found : forall d obj x,
  levels_below d obj x -> GraphQLHandler.is_media x = true ->
  forall fuel, (d < fuel)%nat ->
  In x (GraphQLHandler.findMediaObjects_from fuel obj).
Proof.
  induction 1 as [x | d root y x (child & Hc & Hy) Hl IH]; intros Hm fuel Hd.
  - destruct fuel as [|fuel]; [lia|]. simpl.
    destruct (is_media_object x Hm) as [props ->].
    cbn [truthy typeof_object negb orb]. rewrite Hm. now left.
  - destruct fuel as [|fuel]; [lia|]. simpl.
    rewrite (children_object root child Hc).
    apply in_or_app. right. apply in_flat_map. exists child. split; [exact Hc|].
    assert (Hf : In x (GraphQLHandler.findMediaObjects_from fuel y)).
    { apply IH; [exact Hm | lia]. }
    destruct child as [| | | | |items|props];
      try (subst y; rewrite (findMediaObjects_from_guard _ _ _ Hf); exact Hf).
    apply in_flat_map. now exists y.
Qed.

(** X11: the deep search returns exactly the objects that pass its media
    test (a type name or an id-like field, and the video discriminator)
    and lie at most five levels below where it starts, an array of
    records counting for one level.  Started deeper than level 5, or on
    a value that is not an object, it returns nothing. *)
Theorem findMediaObjects_finds_media_within_five_levels : forall obj depth,
  (forall x,
      In x (GraphQLHandler.findMediaObjects obj depth) <->
      GraphQLHandler.is_media x = true
      /\ exists d, (depth + d <= 5)%nat /\ levels_below d obj x)
  /\ ((5 < depth)%nat -> GraphQLHandler.findMediaObjects obj depth = [])
  /\ (typeof_object obj = false -> GraphQLHandler.findMediaObjects obj depth = []).
Proof.
  intros obj depth. unfold GraphQLHandler.findMediaObjects.
  split; [|split].
  - intros x. split.
    + intros H. split.
      * pose proof (findMediaObjects_from_media (6 - depth) obj) as Hall.
        rewrite Forall_forall in Hall. now apply Hall.
      * destruct (findMediaObjects_from_below _ _ _ H) as (d & Hd & Hl).
        exists d. split; [lia | exact Hl].
    + intros (Hm & d & Hd & Hl). apply (levels_below_found d); [exact Hl | exact Hm | lia].
  - intros H. replace (6 - depth)%nat with 0%nat by lia. reflexivity.
  - intros H. destruct (6 - depth)%nat; simpl; [reflexivity|].
    now rewrite H, orb_true_r.
Qed.

Lemma findMediaObjects_finds_media_within_five_levels_witness :
  In (Samples.item "X")
    (GraphQLHandler.findMediaObjects (listed (Samples.item "X")) 0)
  /\ ~ In (VNum 7)
         (GraphQLHandler.findMediaObjects (listed (Samples.item "X")) 0).
Proof.
  destruct (findMediaObjects_finds_media_within_five_levels
              (listed (Samples.item "X")) 0) as (H & _ & _).
  split.
  - apply H. split; [reflexivity|]. exists 2%nat. split; [lia|].
    apply (levels_step 1 _ (VObj [("items", VArr [VNum 7; Samples.item "X"])])).
    + exists (VArr [VObj [("layout", VStr "grid")];
                    VObj [("items", VArr [VNum 7; Samples.item "X"])]]).
      split; [right; now left | right; now left].
    + apply (levels_step 0 _ (Samples.item "X")); [|constructor].
      exists (VArr [VNum 7; Samples.item "X"]).
      split; [now left | right; now left].
  - intros Hin. apply H in Hin as [Hm _]. discriminate Hm.
Defined.

(** *** Growth of the cache *)

Lemma cache_grows_refl : forall c, cache_grows c c.
Proof.
  intros c. split; [now split|].
  split; exists []; now rewrite app_nil_r.
Qed.

Lemma cache_grows_trans : forall a b c,
  cache_grows a b -> cache_grows b c -> cache_grows a c.
Proof.
  intros a b c (H1 & (m1 & A1) & (l1 & N1)) (H2 & (m2 & A2) & (l2 & N2)).
  split; [|split].
  - intros k Hk. destruct (H1 k Hk) as [Hb Eb]. destruct (H2 k Hb) as [Hc Ec].
    split; [exact Hc | congruence].
  - exists (m1 ++ m2). now rewrite A2, A1, app_assoc.
  - exists (l1 ++ l2). now rewrite N2, N1, app_assoc.
Qed.

Lemma addReel_cases : forall r c,
  snd (addReel r c) = c
  \/ (admissible r = true /\ hasReel (post_id r) c = false).
Proof.
  intros r c. unfold addReel, admissible, hasReel, post_id.
  destruct (truthy r); [|now left].
  destruct (truthy (get r "post_id")); [|now left]. cbn [negb orb].
  destruct (map_has (get r "post_id") (collectedReels c)); [now left | now right].
Qed.

Lemma cache_grows_addReel : forall r c, cache_grows c (snd (addReel r c)).
Proof.
  intros r c. destruct (addReel_cases r c) as [-> | [Ha Hh]];
    [apply cache_grows_refl|].
  rewrite (addReel_new r c Ha Hh).
  unfold cache_grows, hasReel, getReel, getAllReels, getNetworkReels.
  cbn [collectedReels networkReels].
  split; [|split].
  - intros k Hk. now rewrite map_has_snoc, map_get_snoc, Hk.
  - exists [r]. now rewrite map_app.
  - now exists [r].
Qed.

Lemma media_log_grows_refl : forall s, media_log_grows s s.
Proof.
  intros [s|]; simpl; [|exact I]. split; [reflexivity|].
  exists []. now rewrite app_nil_r.
Qed.

Lemma grows_refl : forall n, grows n n.
Proof.
  intros n. split; [apply cache_grows_refl|].
  split; [apply media_log_grows_refl|]. now split.
Qed.

Lemma grows_trans : forall a b c, grows a b -> grows b c -> grows a c.
Proof.
  intros a b c (C1 & L1 & N1 & G1) (C2 & L2 & N2 & G2).
  split; [eapply cache_grows_trans; eassumption|].
  split; [|split; [auto | congruence]].
  unfold media_log_grows in *.
  destruct (Node.storage a) as [sa|], (Node.storage b) as [sb|],
    (Node.storage c) as [sc|]; try contradiction; try exact I.
  destruct L1 as [R1 (m1 & M1)]. destruct L2 as [R2 (m2 & M2)].
  split; [congruence|]. exists (m1 ++ m2). now rewrite M2, M1, app_assoc.
Qed.

Lemma grows_save : forall u m d n, grows n (Node.saveRawPacket u m d n).
Proof.
  intros u m d n. unfold Node.saveRawPacket.
  destruct (Node.storage n) as [s|] eqn:Es; [|apply grows_refl].
  unfold grows, cache. cbn [Node.reelCollector Node.storage Node.graphqlHandler].
  split; [apply cache_grows_refl|]. rewrite Es.
  split; [|now split]. unfold Storage.saveRawPacket.
  destruct (Storage.appendErrors s) as [|[] rest]; simpl;
    (split; [reflexivity|]); [now eexists | exists []; now rewrite app_nil_r
                             | now eexists].
Qed.

Lemma grows_addReel : forall r n, grows n (Node.addReel r n).
Proof.
  intros r n. unfold Node.addReel.
  destruct (Node.reelCollector n) as [c|] eqn:Ec; [|apply grows_refl].
  unfold grows, cache. cbn [Node.reelCollector Node.storage Node.graphqlHandler].
  rewrite Ec. split; [apply cache_grows_addReel|].
  split; [apply media_log_grows_refl|]. split; [discriminate | reflexivity].
Qed.

Lemma grows_collect : forall u m media n,
  grows n (GraphQLHandler.collect u m media n).
Proof.
  intros u m media n. unfold GraphQLHandler.collect.
  destruct (_ && _); [|apply grows_save].
  eapply grows_trans; [apply grows_save | apply grows_addReel].
Qed.

Lemma grows_collect_edges : forall u m edges n,
  grows n (snd (GraphQLHandler.collect_edges u m edges n)).
Proof.
  intros u m. induction edges as [|edge edges IH]; intros n; simpl;
    [apply grows_refl|].
  destruct (get_strict edge "node") as [node|]; [|apply grows_refl].
  eapply grows_trans; [|apply IH].
  destruct (truthy (get node "media")); [apply grows_collect | apply grows_refl].
Qed.

Lemma grows_fold_collect : forall u m l n,
  grows n (fold_left (fun n' media => GraphQLHandler.collect u m media n') l n).
Proof.
  intros u m. induction l as [|media l IH]; intros n; simpl; [apply grows_refl|].
  eapply grows_trans; [apply grows_collect | apply IH].
Qed.

Lemma grows_process : forall parsedData url method n,
  grows n (snd (GraphQLHandler.processGraphQLResponse parsedData url method n)).
Proof.
  intros parsedData url method n. unfold GraphQLHandler.processGraphQLResponse.
  cbv zeta.
  destruct (negb (truthy parsedData) || negb (truthy (get parsedData "data")));
    [apply grows_refl|].
  destruct (truthy (get (get parsedData "data")
                      "xdt_api__v1__clips__home__connection_v2")).
  { destruct (iterate _) as [edges|]; [apply grows_collect_edges | apply grows_refl]. }
  destruct (truthy (get (get parsedData "data") "xdt_shortcode_media")
            || truthy (get (get parsedData "data") "shortcode_media")).
  { cbn [snd].
    set (n1 := if truthy _ then Node.saveRawPacket _ _ _ n else n).
    assert (H1 : grows n n1).
    { subst n1. destruct (truthy _); [apply grows_save | apply grows_refl]. }
    destruct (_ && _); [|exact H1].
    eapply grows_trans; [exact H1 | apply grows_addReel]. }
  destruct (truthy (get parsedData "data") && typeof_object (get parsedData "data"));
    [apply grows_fold_collect | apply grows_refl].
Qed.

(** X12: whatever the payload, [processGraphQLResponse] only adds: every
    id the cache held is still there with the record it had (the first
    record of an id is never replaced), both listings of the cache keep
    their order and are only appended to, the media log is only appended
    to, and the log of raw packets is not touched.  Without a collector
    none is created. *)
Theorem processGraphQLResponse_only_adds : forall parsedData url method n,
  let n' := snd (GraphQLHandler.processGraphQLResponse parsedData url method n) in
  (forall k, hasReel k (cache n) = true ->
             hasReel k (cache n') = true
             /\ getReel k (cache n') = getReel k (cache n))
  /\ (exists more, getAllReels (cache n') = getAllReels (cache n) ++ more)
  /\ (exists more,
        getNetworkReels (cache n') = getNetworkReels (cache n) ++ more)
  /\ media_log_grows (Node.storage n) (Node.storage n')
  /\ (Node.reelCollector n = None -> Node.reelCollector n' = None)
  /\ Node.graphqlHandler n' = Node.graphqlHandler n.
Proof.
  intros parsedData url method n n'.
  destruct (grows_process parsedData url method n)
    as ((H1 & H2 & H3) & H4 & H5 & H6).
  split; [exact H1|]. split; [exact H2|]. split; [exact H3|].
  split; [exact H4|]. split; [exact H5 | exact H6].
Qed.

(** *** Where the cached records come from *)

Lemma written_app : forall o1 o2 errors,
  written errors (o1 ++ o2)
  = written errors o1 ++ written (skipn (List.length o1) errors) o2.
Proof.
  induction o1 as [|media o1 IH]; intros o2 errors; simpl; [reflexivity|].
  destruct errors as [|[] errors]; simpl; rewrite IH; try reflexivity.
  now rewrite skipn_nil.
Qed.

Lemma written_reliable : forall offered errors,
  forallb negb errors = true -> written errors offered = offered.
Proof.
  induction offered as [|media offered IH]; intros errors R; simpl;
    [reflexivity|].
  destruct errors as [|[] errors]; simpl in *; try discriminate R;
    now rewrite IH.
Qed.

Lemma traced_refl : forall u m n, traced u m n n.
Proof.
  intros u m n. exists [], []. unfold traced_by. rewrite app_nil_r.
  split; [reflexivity|]. split; [constructor|].
  destruct (Node.storage n) as [s|]; [|reflexivity].
  exists s. simpl. now rewrite app_nil_r.
Qed.

Lemma extracted_from_more : forall l1 l2 r,
  extracted_from l1 r \/ extracted_from l2 r ->
  extracted_from (l1 ++ l2) r.
Proof.
  intros l1 l2 r [(media & Hin & E) | (media & Hin & E)];
    exists media; (split; [apply in_or_app; auto | exact E]).
Qed.

Lemma traced_trans : forall u m a b c,
  traced u m a b -> traced u m b c -> traced u m a c.
Proof.
  intros u m a b c (o1 & r1 & N1 & F1 & S1) (o2 & r2 & N2 & F2 & S2).
  exists (o1 ++ o2), (r1 ++ r2). unfold traced_by.
  split; [now rewrite N2, N1, app_assoc|].
  split.
  { apply Forall_app. split.
    - eapply Forall_impl; [|exact F1].
      intros r Hr. apply extracted_from_more. now left.
    - eapply Forall_impl; [|exact F2].
      intros r Hr. apply extracted_from_more. now right. }
  destruct (Node.storage a) as [sa|].
  - destruct S1 as (sb & Eb & Mb & Ab). rewrite Eb in S2.
    destruct S2 as (sc & Ec & Mc & Ac). exists sc.
    split; [exact Ec|]. split.
    + rewrite Mc, Mb, Ab, written_app. unfold entries.
      now rewrite map_app, app_assoc.
    + rewrite Ac, Ab, length_app, skipn_skipn. f_equal. apply Nat.add_comm.
  - rewrite S1 in S2. exact S2.
Qed.

Lemma traced_collect : forall u m media n,
  traced u m n (GraphQLHandler.collect u m media n).
Proof.
  intros u m media n. unfold GraphQLHandler.collect.
  set (n1 := Node.saveRawPacket u m media n).
  set (r := GraphQLExtractor.extractReelFromGraphQLItem media).
  assert (Hc1 : Node.reelCollector n1 = Node.reelCollector n).
  { subst n1. unfold Node.saveRawPacket. now destruct (Node.storage n). }
  assert (Hcache1 : cache n1 = cache n) by (unfold cache; now rewrite Hc1).
  assert (Hs1 : match Node.storage n with
                | Some s =>
                    exists s',
                      Node.storage n1 = Some s'
                      /\ Storage.mediaPackets s'
                         = Storage.mediaPackets s
                           ++ entries u m (written (Storage.appendErrors s) [media])
                      /\ Storage.appendErrors s'
                         = skipn 1 (Storage.appendErrors s)
                | None => Node.storage n1 = None
                end).
  { subst n1. unfold Node.saveRawPacket.
    destruct (Node.storage n) as [s|] eqn:Es; [|exact Es].
    eexists. split; [reflexivity|]. unfold Storage.saveRawPacket.
    destruct (Storage.appendErrors s) as [|[] rest]; simpl;
      rewrite ?app_nil_r; split; reflexivity. }
  assert (Hlog : extracted_from [media] r).
  { exists media. split; [now left | reflexivity]. }
  assert (Hnone : traced u m n n1).
  { exists [media], []. unfold traced_by. rewrite Hcache1, app_nil_r.
    split; [reflexivity|]. split; [constructor | exact Hs1]. }
  destruct (truthy r && truthy (get r "post_id")); [|exact Hnone].
  unfold Node.addReel. destruct (Node.reelCollector n1) as [c|] eqn:Ec;
    [|exact Hnone].
  assert (Hc : cache n1 = c) by (unfold cache; now rewrite Ec).
  destruct (addReel_cases r c) as [E | [Ha Hh]].
  - exists [media], []. unfold traced_by, cache at 1.
    cbn [Node.reelCollector Node.storage]. rewrite E, <- Hc, Hcache1, app_nil_r.
    split; [reflexivity|]. split; [constructor | exact Hs1].
  - exists [media], [r]. unfold traced_by, cache at 1.
    cbn [Node.reelCollector Node.storage].
    rewrite (addReel_new r c Ha Hh), <- Hcache1, Hc.
    split; [reflexivity|]. split; [now repeat constructor | exact Hs1].
Qed.

Lemma traced_collect_edges : forall u m edges n,
  traced u m n (snd (GraphQLHandler.collect_edges u m edges n)).
Proof.
  intros u m. induction edges as [|edge edges IH]; intros n; simpl;
    [apply traced_refl|].
  destruct (get_strict edge "node") as [node|]; [|apply traced_refl].
  eapply traced_trans; [|apply IH].
  destruct (truthy (get node "media")); [apply traced_collect | apply traced_refl].
Qed.

Lemma traced_fold_collect : forall u m l n,
  traced u m n (fold_left (fun n' media => GraphQLHandler.collect u m media n') l n).
Proof.
  intros u m. induction l as [|media l IH]; intros n; simpl; [apply traced_refl|].
  eapply traced_trans; [apply traced_collect | apply IH].
Qed.

Lemma single_item_collect : forall parsedData,
  truthy (get (get parsedData "data") "xdt_shortcode_media")
  || truthy (get (get parsedData "data") "shortcode_media") = true ->
  let mediaItem :=
    get (get parsedData "data") "xdt_shortcode_media"
      ||| get (get parsedData "data") "shortcode_media" in
  truthy mediaItem = true
  /\ GraphQLExtractor.extractReelFromGraphQL parsedData
     = GraphQLExtractor.extractReelFromGraphQLItem mediaItem.
Proof.
  intros parsedData H mediaItem. subst mediaItem.
  unfold GraphQLExtractor.extractReelFromGraphQL,
    GraphQLExtractor.extractReelFromGraphQLItem, GraphQLExtractor.select_items,
    or_else.
  cbv zeta.
  destruct (truthy (get (get parsedData "data") "xdt_shortcode_media")) eqn:E1.
  - split; [exact E1 | reflexivity].
  - cbn [orb] in H. split; [exact H|]. now rewrite !H.
Qed.

Lemma traced_process : forall parsedData url method n,
  traced url method n
    (snd (GraphQLHandler.processGraphQLResponse parsedData url method n)).
Proof.
  intros parsedData url method n. unfold GraphQLHandler.processGraphQLResponse.
  cbv zeta.
  destruct (negb (truthy parsedData) || negb (truthy (get parsedData "data")));
    [apply traced_refl|].
  destruct (truthy (get (get parsedData "data")
                      "xdt_api__v1__clips__home__connection_v2")).
  { destruct (iterate _) as [edges|];
      [apply traced_collect_edges | apply traced_refl]. }
  destruct (truthy (get (get parsedData "data") "xdt_shortcode_media")
            || truthy (get (get parsedData "data") "shortcode_media")) eqn:Es.
  { destruct (single_item_collect parsedData Es) as [Ht Ee].
    cbn [snd]. rewrite Ht, Ee.
    exact (traced_collect url method _ n). }
  destruct (truthy (get parsedData "data") && typeof_object (get parsedData "data"));
    [apply traced_fold_collect | apply traced_refl].
Qed.

(** X13: with a storage, every record [processGraphQLResponse] adds to
    the cache was extracted from a media object that the same call handed
    to [saveRawPacket], filed under the URL and method of the response.
    The media log gains these objects in the order they were handed
    over, except those whose append raised: a record is cached whether or
    not the write of its media object succeeded.  When no append raises,
    every record added to the cache was extracted from a media object
    that the same call appended to the media log. *)
Theorem cached_records_come_from_media_handed_to_log :
  forall parsedData url method n s,
  Node.storage n = Some s ->
  let n' := snd (GraphQLHandler.processGraphQLResponse parsedData url method n) in
  exists offered recs s',
    getNetworkReels (cache n') = getNetworkReels (cache n) ++ recs
    /\ Forall (extracted_from offered) recs
    /\ Node.storage n' = Some s'
    /\ Storage.mediaPackets s'
       = Storage.mediaPackets s
         ++ entries url method (written (Storage.appendErrors s) offered)
    /\ (reliable s = true ->
        Storage.mediaPackets s'
        = Storage.mediaPackets s ++ entries url method offered
        /\ Forall
             (fun r =>
                exists media,
                  In (url, method, media) (Storage.mediaPackets s')
                  /\ r = GraphQLExtractor.extractReelFromGraphQLItem media)
             recs).
Proof.
  intros parsedData url method n s Es n'.
  destruct (traced_process parsedData url method n)
    as (offered & recs & N & F & S).
  rewrite Es in S. destruct S as (s' & Es' & M & _).
  exists offered, recs, s'.
  split; [exact N|]. split; [exact F|]. split; [exact Es'|].
  split; [exact M|].
  intros R. rewrite (written_reliable offered _ R) in M.
  split; [exact M|].
  eapply Forall_impl; [|exact F].
  intros r (media & Hin & E). exists media. split; [|exact E].
  rewrite M. apply in_or_app. right. unfold entries.
  now apply (in_map (fun x => (url, method, x))).
Qed.

Lemma cached_records_come_from_media_handed_to_log_witness :
  let feed := Samples.feed [Samples.item "X"; Samples.item "Y"] in
  let on n :=
    snd (GraphQLHandler.processGraphQLResponse feed Samples.graphql_url
           (VStr "POST") n) in
  (exists recs log,
     getNetworkReels (cache (on Samples.fresh_node)) = recs
     /\ List.length recs = 2%nat
     /\ option_map Storage.mediaPackets (Node.storage (on Samples.fresh_node))
        = Some log
     /\ Forall
          (fun r =>
             exists media,
               In (Samples.graphql_url, VStr "POST", media) log
               /\ r = GraphQLExtractor.extractReelFromGraphQLItem media)
          recs)
  /\ List.length (getNetworkReels (cache (on GrowthSamples.failing_node)))
     = 2%nat
  /\ option_map (fun s => List.length (Storage.mediaPackets s))
       (Node.storage (on GrowthSamples.failing_node))
     = Some 1%nat.
Proof.
  cbv zeta. split; [|split; reflexivity].
  destruct (cached_records_come_from_media_handed_to_log
              (Samples.feed [Samples.item "X"; Samples.item "Y"])
              Samples.graphql_url (VStr "POST") Samples.fresh_node
              (Storage.mk [] [] []) eq_refl)
    as (offered & recs & s' & N & _ & Es' & _ & R).
  destruct (R eq_refl) as [_ F].
  exists recs, (Storage.mediaPackets s').
  cbn [cache Samples.fresh_node Node.reelCollector
    getNetworkReels empty networkReels app] in N.
  split; [exact N|]. split; [now rewrite <- N|].
  split; [now rewrite Es'|]. exact F.
Defined.

Lemma grows_process_body :
  forall (J : NetworkInterceptor.Json) url method data n,
  grows n (snd (NetworkInterceptor.process_body url method data n)).
Proof.
  intros J url method data n. unfold NetworkInterceptor.process_body.
  destruct (match data with VStr s => Some s | _ => NetworkInterceptor.JSON_stringify data end)
    as [text|]; [|apply grows_refl].
  destruct (NetworkInterceptor.JSON_parse _) as [parsedData|]; [|apply grows_refl].
  destruct (_ || _); [apply grows_refl|].
  destruct (Node.graphqlHandler n); [apply grows_process | apply grows_refl].
Qed.

Lemma grows_raw : forall n n',
  grows n n' ->
  option_map Storage.rawInterceptedPackets (Node.storage n')
  = option_map Storage.rawInterceptedPackets (Node.storage n).
Proof.
  intros n n' (_ & L & _). unfold media_log_grows in L.
  destruct (Node.storage n), (Node.storage n'); try contradiction; [|reflexivity].
  destruct L as [E _]. simpl. now rewrite E.
Qed.

(** X14: what the interception callback can change.  Whatever the packet
    and whatever [JSON.parse] and [JSON.stringify] do, the cache only
    grows; the only entry queued for the log of raw packets is the packet
    itself, when there is a storage and the packet has a truthy body; and
    a packet that is not a POST to the GraphQL endpoint leaves the cache
    and the media log exactly as they were. *)
Theorem sendDataToNode_effects :
  forall (J : NetworkInterceptor.Json) interceptedData n,
  let n' := snd (NetworkInterceptor.sendDataToNode interceptedData n) in
  cache_grows (cache n) (cache n')
  /\ option_map Storage.rawInterceptedPackets (Node.storage n')
     = option_map
         (fun s => Storage.rawInterceptedPackets s ++ raw_copy interceptedData)
         (Node.storage n)
  /\ (graphql_post interceptedData = false ->
      Node.reelCollector n' = Node.reelCollector n
      /\ option_map Storage.mediaPackets (Node.storage n')
         = option_map Storage.mediaPackets (Node.storage n))
  /\ (Node.reelCollector n = None -> Node.reelCollector n' = None).
Proof.
  intros J interceptedData n n'. subst n'.
  unfold NetworkInterceptor.sendDataToNode, raw_copy, graphql_post.
  destruct (nullish interceptedData) eqn:En.
  { cbn [snd]. split; [apply cache_grows_refl|].
    split; [|now split].
    destruct (Node.storage n); simpl; [now rewrite app_nil_r | reflexivity]. }
  cbv zeta.
  set (n1 := match Node.storage n with
             | Some s => if truthy (get interceptedData "data") then _ else n
             | None => n
             end).
  assert (H1 : Node.reelCollector n1 = Node.reelCollector n
               /\ option_map Storage.rawInterceptedPackets (Node.storage n1)
                  = option_map
                      (fun s => Storage.rawInterceptedPackets s
                                ++ (if truthy (get interceptedData "data")
                                    then [interceptedData] else []))
                      (Node.storage n)
               /\ option_map Storage.mediaPackets (Node.storage n1)
                  = option_map Storage.mediaPackets (Node.storage n)).
  { subst n1. destruct (Node.storage n) as [s|] eqn:Es.
    - destruct (truthy (get interceptedData "data")).
      + cbn [Node.reelCollector Node.storage]. now repeat split.
      + rewrite Es. simpl. now rewrite app_nil_r.
    - rewrite Es. now repeat split. }
  destruct H1 as (Hc & Hr & Hm).
  assert (Hcache : cache n1 = cache n) by (unfold cache; now rewrite Hc).
  assert (Hsame : cache_grows (cache n) (cache n1)
                  /\ option_map Storage.rawInterceptedPackets (Node.storage n1)
                     = option_map
                         (fun s => Storage.rawInterceptedPackets s
                                   ++ (if truthy (get interceptedData "data")
                                       then [interceptedData] else []))
                         (Node.storage n)
                  /\ (Node.reelCollector n1 = Node.reelCollector n
                      /\ option_map Storage.mediaPackets (Node.storage n1)
                         = option_map Storage.mediaPackets (Node.storage n))
                  /\ (Node.reelCollector n = None -> Node.reelCollector n1 = None)).
  { rewrite Hcache. split; [apply cache_grows_refl|]. split; [exact Hr|].
    split; [now split|]. intros H. now rewrite Hc. }
  destruct (get interceptedData "url") as [| | | |u| |] eqn:Eu;
    try (cbn [snd]; destruct Hsame as (A & B & C & D);
         split; [exact A|]; split; [exact B|]; split; [intros _; exact C | exact D]).
  destruct (includes "/graphql/query" u
            && value_eqb (get interceptedData "method") (VStr "POST")) eqn:Eg.
  - destruct (NetworkInterceptor.process_body (VStr u)
                (get interceptedData "method") (get interceptedData "data") n1)
      as [res n2] eqn:Ep.
    cbn [snd].
    pose proof (grows_process_body J (VStr u) (get interceptedData "method")
                  (get interceptedData "data") n1) as Hg.
    rewrite Ep in Hg. cbn [snd] in Hg.
    split; [rewrite <- Hcache; apply Hg|].
    split; [now rewrite (grows_raw _ _ Hg)|].
    split; [discriminate|].
    intros H. destruct Hg as (_ & _ & Hn & _). apply Hn. now rewrite Hc.
  - cbn [snd]. destruct Hsame as (A & B & C & D).
    split; [exact A|]. split; [exact B|]. split; [intros _; exact C | exact D].
Qed.

End PacketEffects.

(** ** ReelDataTransformer: transform and validate *)

Section Transforming.
Import JS ReelDataTransformer TransformSpec.

Lemma or_else_twice : forall a b, (a ||| b) ||| b = a ||| b.
Proof.
  intros a b. unfold or_else.
  destruct (truthy a) eqn:E; cbv iota; [now rewrite E | now destruct (truthy b)].
Qed.

Lemma parseInt_or_0_twice : forall v,
  parseInt_or_0 (parseInt_or_0 v) = parseInt_or_0 v.
Proof. intros v. unfold parseInt_or_0. now destruct (parseInt v). Qed.

Lemma parseInt_or_0_number : forall v, is_number (parseInt_or_0 v) = true.
Proof. intros v. unfold parseInt_or_0. now destruct (parseInt v). Qed.

Lemma array_or_empty_twice : forall v,
  (if isArray (if isArray v then v else VArr []) then
     (if isArray v then v else VArr []) else VArr [])
  = (if isArray v then v else VArr []).
Proof. intros v. destruct (isArray v) eqn:E; [now rewrite E | reflexivity]. Qed.

(** X15: [transform] normalizes.  On a record (any truthy value) whose
    counts [parseInt] reads exactly, the result passes [validate] exactly
    when the record has a truthy [post_id]; its two tag fields are
    arrays; and transforming it again, with the same source and at the
    same instant, changes nothing. *)
Theorem transform_normalizes : forall now reelData source,
  truthy reelData = true -> safe_counts reelData ->
  let t := transform now reelData source in
  validate t = truthy (get reelData "post_id")
  /\ isArray (get t "hashtags") = true
  /\ isArray (get t "hashtag_metadata") = true
  /\ transform now t source = t.
Proof.
  intros now reelData source Hr _ t. subst t.
  unfold transform. rewrite Hr. cbn [negb truthy].
  generalize (get reelData "post_id") (get reelData "author_username")
    (get reelData "caption") (get reelData "hashtags")
    (get reelData "hashtag_metadata") (get reelData "likes_count")
    (get reelData "comments_count") (get reelData "view_count")
    (get reelData "media_type") (get reelData "video_url")
    (get reelData "thumbnail_url") (get reelData "created_at")
    (get reelData "screenshot_path").
  intros f1 f2 f3 f4 f5 f6 f7 f8 f9 f10 f11 f12 f13.
  unfold validate.
  cbv beta iota delta [get lookup String.eqb Ascii.eqb Bool.eqb].
  rewrite !or_else_twice, !parseInt_or_0_twice, !parseInt_or_0_number,
    !array_or_empty_twice, truthy_or_null.
  cbn [truthy andb].
  rewrite !andb_true_r.
  repeat split.
  - now destruct (isArray f4) eqn:E.
  - now destruct (isArray f5) eqn:E.
Qed.

Lemma transform_normalizes_witness :
  let t := transform MergeSpec.now raw_record "dom" in
  validate t = true
  /\ get t "likes_count" = VNum 1200
  /\ get t "hashtags" = VArr []
  /\ transform MergeSpec.now t "dom" = t.
Proof.
  assert (Hs : safe_counts raw_record) by (repeat split).
  destruct (transform_normalizes MergeSpec.now raw_record "dom" eq_refl Hs)
    as (H1 & _ & _ & H4).
  split; [exact H1|]. split; [reflexivity|]. split; [reflexivity | exact H4].
Defined.

End Transforming.

(** ** The reel page and its id *)

Section ReelPage.
Import JS ReelNavigator.
Context `{Page}.

Lemma includes_cons : forall needle c rest,
  includes needle (String c rest)
  = startsWith needle (String c rest) || includes needle rest.
Proof. reflexivity. Qed.

Lemma includes_start : forall needle s,
  startsWith needle s = true -> includes needle s = true.
Proof. intros needle [|c s] E; simpl; now rewrite E. Qed.

Lemma matches_reels_path_cons : forall c rest,
  matches_reels_path rest = true -> matches_reels_path (String c rest) = true.
Proof.
  intros c rest E. cbn [matches_reels_path]. rewrite E. apply orb_true_r.
Qed.

Lemma every_id_prefix : forall s, every is_id_char (id_prefix s) = true.
Proof.
  induction s as [|c s IH]; simpl; [reflexivity|].
  destruct (is_id_char c) eqn:E; simpl; [now rewrite E | reflexivity].
Qed.

Lemma nonempty_some : forall s id, nonempty s = Some id -> s = id /\ id <> EmptyString.
Proof. intros [|c s] id E; [discriminate E|]. injection E as <-. now split. Qed.

(** What a match of the id pattern says about the address. *)
Lemma reel_id_of_found : forall url id,
  reel_id_of url = Some id ->
  id <> EmptyString /\ every is_id_char id = true
  /\ (includes "/reel/" url = true
      \/ (includes "/reels/" url = true /\ matches_reels_path url = true)).
Proof.
  induction url as [|c url IH]; intros id E.
  - discriminate E.
  - cbn [reel_id_of] in E.
    destruct (reel_id_here (String c url)) as [id'|] eqn:Eh.
    + injection E as ->. unfold reel_id_here in Eh.
      destruct (startsWith "/reels/" (String c url)) eqn:E1.
      * apply nonempty_some in Eh as [Ei Hn].
        split; [exact Hn|]. split; [rewrite <- Ei; apply every_id_prefix|].
        right. split; [now apply includes_start|].
        cbn [matches_reels_path]. rewrite E1. cbn [andb].
        destruct (drop 7 (String c url)) as [|d rest]; [now contradiction Hn; subst id|].
        simpl in Ei. destruct (is_id_char d) eqn:Ed; [|now contradiction Hn; subst id].
        unfold is_id_char in Ed. apply andb_prop in Ed as [Ed _]. now rewrite Ed.
      * destruct (startsWith "/reel/" (String c url)) eqn:E2; [|discriminate Eh].
        apply nonempty_some in Eh as [Ei Hn].
        split; [exact Hn|]. split; [rewrite <- Ei; apply every_id_prefix|].
        left. now apply includes_start.
    + destruct (IH id E) as (Hn & He & Hi). split; [exact Hn|]. split; [exact He|].
      destruct Hi as [Hi | [Hi Hm]].
      * left. rewrite includes_cons, Hi. apply orb_true_r.
      * right. split; [rewrite includes_cons, Hi; apply orb_true_r|].
        now apply matches_reels_path_cons.
Qed.

Lemma reels_path_not_feed : forall url,
  matches_reels_path url = true ->
  String.eqb url "https://www.instagram.com/reels/" = false.
Proof.
  intros url Hm. destruct (String.eqb_spec url "https://www.instagram.com/reels/") as [->|];
    [|reflexivity].
  vm_compute in Hm. discriminate Hm.
Qed.

(** X16: an address [getCurrentReelId] reads an id from is a reel page
    for both page checks.  The id is not empty and holds neither [/] nor
    [?]; [isOnReelPage] answers [true] on that address as soon as it
    names instagram.com; the check made before the loop answers [true];
    and that check accepts every address [isOnReelPage] accepts. *)
Theorem reel_id_means_reel_page : forall w id,
  fst (getCurrentReelId w) = Ok (Some id) ->
  exists url,
    page_url w = Ok url
    /\ id <> EmptyString
    /\ every is_id_char id = true
    /\ fst (isOnReelPage w) = Ok (includes "instagram.com" url)
    /\ Scraper.isAlreadyOnReel url = true
    /\ (forall other,
          on_reel_page other = true -> Scraper.isAlreadyOnReel other = true).
Proof.
  intros w id E. unfold getCurrentReelId in E. unfold isOnReelPage.
  destruct (page_url w) as [url|]; [|discriminate E].
  cbn [fst] in E. injection E as E.
  destruct (reel_id_of_found url id E) as (Hn & He & Hi).
  exists url. split; [reflexivity|]. split; [exact Hn|]. split; [exact He|].
  split; [|split].
  - cbn [fst]. f_equal. unfold on_reel_page.
    destruct Hi as [-> | [-> ->]]; cbn [orb andb]; [|rewrite orb_true_r];
      apply andb_true_r.
  - unfold Scraper.isAlreadyOnReel.
    destruct Hi as [-> | [-> Hm]]; [reflexivity|].
    rewrite (reels_path_not_feed url Hm). apply orb_true_r.
  - intros other Ho. unfold on_reel_page in Ho. unfold Scraper.isAlreadyOnReel.
    apply andb_prop in Ho as [_ Ho]. apply orb_prop in Ho as [-> | Ho];
      [reflexivity|].
    apply andb_prop in Ho as [-> Hm].
    rewrite (reels_path_not_feed other Hm). apply orb_true_r.
Qed.

End ReelPage.

Lemma reel_id_means_reel_page_witness :
  exists url,
    @ReelNavigator.page_url SimPage.page SimPage.start = JS.Ok url
    /\ fst (@ReelNavigator.isOnReelPage SimPage.page SimPage.start)
       = JS.Ok (JS.includes "instagram.com" url)
    /\ Scraper.isAlreadyOnReel url = true.
Proof.
  destruct (@reel_id_means_reel_page SimPage.page SimPage.start "AAA" eq_refl)
    as (url & H1 & _ & _ & H4 & H5 & _).
  exists url. split; [exact H1|]. split; [exact H4 | exact H5].
Defined.

(** ** Navigation never raises *)

Section Returning.
Import JS ReelNavigator ReturnSpec.
Context `{Page}.

Lemma returns_ret : forall A (a : A), returns (ret a).
Proof. intros A a w. now exists a. Qed.

Lemma returns_bind : forall A B (m : M A) (k : A -> M B),
  (forall a, returns (k a)) -> returns m -> returns (bind m k).
Proof.
  intros A B m k Hk Hm w. unfold bind.
  destruct (Hm w) as [a Ha]. destruct (m w) as [[a'|] w']; [|discriminate Ha].
  apply Hk.
Qed.

Lemma returns_try : forall A (m h : M A), returns h -> returns (try_catch m h).
Proof.
  intros A m h Hh w. unfold try_catch.
  destruct (m w) as [[a|] w']; [now exists a | apply Hh].
Qed.

Lemma returns_delay_if : forall c a b, returns (delay_if c a b).
Proof. intros [] a b w; now exists tt. Qed.

Lemma returns_verify : forall id maxWaitTime,
  returns (verifyNavigation id maxWaitTime).
Proof. intros id mx w. apply verify_polls_returns. Qed.

Lemma returns_attempts : forall body remaining attempt,
  (forall a, returns (body a)) -> returns (attempts body remaining attempt).
Proof.
  intros body. induction remaining as [|n IH]; intros attempt Hb; cbn [attempts].
  - apply returns_ret.
  - apply returns_bind; [|apply Hb].
    intros [b|]; [apply returns_ret | now apply IH].
Qed.

Lemma returns_key_attempt : forall key id attempt maxRetries,
  returns (key_attempt key id attempt maxRetries).
Proof.
  intros. unfold key_attempt. apply returns_try.
  apply returns_bind; [intros; apply returns_ret | apply returns_delay_if].
Qed.

Lemma returns_button_attempt : forall id attempt maxRetries,
  returns (button_attempt id attempt maxRetries).
Proof.
  intros. unfold button_attempt. apply returns_try.
  apply returns_bind; [intros; apply returns_ret | apply returns_delay_if].
Qed.

Lemma returns_strategy : forall id maxRetries strategy,
  In strategy (strategies_of id maxRetries) -> returns strategy.
Proof.
  intros id maxRetries strategy Hin. unfold strategies_of in Hin.
  destruct Hin as [<- | [<- | [<- | [<- | [<- | []]]]]].
  - apply returns_attempts. intros; apply returns_key_attempt.
  - apply returns_attempts. intros; apply returns_key_attempt.
  - apply returns_attempts. intros; apply returns_button_attempt.
  - apply returns_try, returns_ret.
  - apply returns_try, returns_ret.
Qed.

Lemma returns_try_strategies : forall l, returns (try_strategies l).
Proof.
  induction l as [|s l IH]; cbn [try_strategies]; [apply returns_ret|].
  apply returns_bind; [|apply returns_try, returns_ret].
  intros [|]; [apply returns_ret | exact IH].
Qed.

(** X17: navigation never raises, whatever the page does.  Each of the
    five strategies returns a boolean (its own [catch] absorbs every
    error of the page, so the [catch] of [navigateToNextReel] around it
    is never taken), and so do [navigateToNextReel], [verifyNavigation],
    [isOnReelPage] and [getCurrentReelId].  When the address cannot be
    read, or holds no reel id, [navigateToNextReel] returns [false]
    without touching the page. *)
Theorem navigation_never_raises : forall maxRetries,
  (forall id, Forall returns (strategies_of id maxRetries))
  /\ returns (navigateToNextReel maxRetries)
  /\ (forall id maxWaitTime, returns (verifyNavigation id maxWaitTime))
  /\ returns isOnReelPage
  /\ returns getCurrentReelId
  /\ (forall w, fst (getCurrentReelId w) = Ok None ->
                navigateToNextReel maxRetries w = (Ok false, w)).
Proof.
  intros maxRetries.
  assert (Hid : returns getCurrentReelId).
  { intros w. unfold getCurrentReelId.
    destruct (page_url w) as [url|]; [now exists (reel_id_of url) | now exists None]. }
  split; [|split; [|split; [|split; [|split]]]].
  - intros id. apply Forall_forall. intros s Hs. eapply returns_strategy, Hs.
  - unfold navigateToNextReel. apply returns_bind; [|exact Hid].
    intros [id|]; [apply returns_try_strategies | apply returns_ret].
  - apply returns_verify.
  - intros w. unfold isOnReelPage.
    destruct (page_url w) as [url|];
      [now exists (on_reel_page url) | now exists false].
  - exact Hid.
  - intros w E. unfold navigateToNextReel, bind.
    pose proof (getCurrentReelId_reads w) as Hw.
    destruct (getCurrentReelId w) as [[[id|]|] w']; cbn [fst snd] in *;
      try discriminate E. now subst w'.
Qed.

End Returning.

Lemma navigation_never_raises_witness :
  @ReelNavigator.navigateToNextReel BrokenPage.page 3 [] = (JS.Ok false, [])
  /\ Forall (@ReturnSpec.returns BrokenPage.page bool)
       (@ReelNavigator.strategies_of BrokenPage.page "AAA" 3).
Proof.
  destruct (@navigation_never_raises BrokenPage.page 3)
    as (H1 & _ & _ & _ & _ & H6).
  split; [apply H6; reflexivity | apply H1].
Defined.

(** ** The scrape loop: backoff, records and counters *)

Section LoopBackoff.
Import JS Scraper ScraperSpec.

(** X18: in every pass of every session, the backoff the pass waits for
    before it retries the advance is 2 or 4 seconds (before jitter): the
    delay is computed from the consecutive failures counted after the
    current record has been handled, and the pass gives up on the retry
    at the third consecutive failure, so the cap of 15 seconds is never
    reached. *)
Theorem backoff_in_loop_is_2s_or_4s : forall reelsToCollect es e d,
  snd (run reelsToCollect es) = true ->
  continues reelsToCollect (fst (run reelsToCollect es)) = true ->
  backoff reelsToCollect e (fst (run reelsToCollect es)) = Some d ->
  d = 2000 \/ d = 4000.
Proof.
  intros t es e d _ _ E.
  destruct (run_within t es) as [_ [Hlo _]].
  set (c := fst (run t es)) in *.
  unfold backoff in E. destruct (negb (isOnReelPage e)); [discriminate E|].
  destruct (drain_failures t e c) as [_ D].
  set (c1 := drain t e c) in *.
  assert (H1 : 0 <= consecutiveNavigationFailures (resolve e c1)).
  { unfold resolve.
    destruct (resolved e), (seen e), (saved e);
      cbn [negb consecutiveNavigationFailures]; lia. }
  set (c2 := resolve e c1) in *.
  unfold advance in E.
  destruct (reelsCollected c2 <? t); [|discriminate E].
  destruct (negb (navigated e)); [|discriminate E].
  destruct (consecutiveNavigationFailures c2 + 1 <? maxConsecutiveNavigationFailures)
    eqn:El; [|discriminate E].
  apply Z.ltb_lt in El. unfold maxConsecutiveNavigationFailures in El.
  cbn [snd] in E. injection E as <-.
  assert (Hc : consecutiveNavigationFailures c2 = 0
               \/ consecutiveNavigationFailures c2 = 1) by lia.
  destruct Hc as [-> | ->]; [left | right]; reflexivity.
Qed.

Lemma backoff_in_loop_is_2s_or_4s_witness :
  backoff 3 ScraperSamples.saved_then_stuck (fst (run 3 [])) = Some 2000
  /\ exists d,
       backoff 3 LoopSamples.seen_then_stuck
         (fst (run 3 [ScraperSamples.saved_then_stuck])) = Some d
       /\ d = 4000.
Proof.
  split; [reflexivity|]. exists 4000. split; [reflexivity|].
  destruct (backoff_in_loop_is_2s_or_4s 3 [ScraperSamples.saved_then_stuck]
              LoopSamples.seen_then_stuck 4000 eq_refl eq_refl eq_refl)
    as [E | E]; [discriminate E | exact E].
Defined.

End LoopBackoff.

Section SessionCache.
Import JS Scraper Session SessionSpec.

Lemma map_has_In : forall k m,
  ReelCollector.map_has k m = true <-> In k (map fst m).
Proof.
  intros k. induction m as [|[k0 v0] m IH]; simpl.
  - split; [discriminate | intros []].
  - rewrite orb_true_iff, IH, value_eqb_spec. intuition congruence.
Qed.

Lemma cache_ok_addReel : forall r c,
  cache_ok c -> cache_ok (snd (ReelCollector.addReel r c)).
Proof.
  intros r c (Hk & Hnd & Ht).
  destruct (addReel_cases r c) as [-> | [Ha Hh]]; [now repeat split|].
  rewrite (addReel_new r c Ha Hh).
  unfold cache_ok, ParserSpec.keyed, keys in *.
  cbn [ReelCollector.collectedReels]. rewrite map_app. cbn [map fst].
  split; [|split].
  - apply Forall_app. split; [exact Hk | now repeat constructor].
  - apply NoDup_snoc; [exact Hnd|].
    intros Hin. apply map_has_In in Hin.
    unfold ReelCollector.hasReel in Hh. congruence.
  - apply Forall_app. split; [exact Ht|]. constructor; [|constructor].
    unfold CollectorSpec.admissible in Ha. now apply andb_prop in Ha as [_ Ha].
Qed.

Lemma cache_ok_adds : forall l c, cache_ok c -> cache_ok (interceptor_adds l c).
Proof.
  unfold interceptor_adds. induction l as [|r l IH]; intros c Hc; simpl;
    [exact Hc | now apply IH, cache_ok_addReel].
Qed.

Lemma hasReel_adds : forall l k c,
  ReelCollector.hasReel k c = true ->
  ReelCollector.hasReel k (interceptor_adds l c) = true.
Proof.
  unfold interceptor_adds. induction l as [|r l IH]; intros k c Hc; simpl;
    [exact Hc | now apply IH, hasReel_addReel_mono].
Qed.

Lemma map_get_keyed : forall k m,
  Forall (fun e : value * value => fst e = post_id (snd e)) m ->
  ReelCollector.map_has k m = true ->
  post_id (ReelCollector.map_get k m) = k.
Proof.
  intros k. induction m as [|[k0 v0] m IH]; intros Hk Hh; simpl in *;
    [discriminate Hh|].
  inversion Hk as [|? ? H0 Hk']; subst.
  destruct (value_eqb k k0) eqn:E.
  - apply value_eqb_eq in E. subst k0. now symmetry.
  - now apply IH.
Qed.

Lemma getReel_keyed : forall k c,
  cache_ok c -> truthy k = true -> ReelCollector.hasReel k c = true ->
  post_id (ReelCollector.getReel k c) = k
  /\ truthy (ReelCollector.getReel k c) = true.
Proof.
  intros k c (Hk & _ & _) Ht Hh. unfold ReelCollector.getReel.
  pose proof (map_get_keyed k _ Hk Hh) as Hp.
  assert (Hv : truthy (ReelCollector.map_get k (ReelCollector.collectedReels c))
               = true).
  { apply (get_object_truthy _ "post_id" k); [exact Hp | exact Ht]. }
  unfold or_else. rewrite Hv. now split.
Qed.

Lemma resolve_ok : forall i c reelData c1,
  cache_ok c -> resolve i c = (reelData, c1) ->
  cache_ok c1
  /\ (forall k, ReelCollector.hasReel k c = true ->
                ReelCollector.hasReel k c1 = true)
  /\ (truthy reelData && truthy (post_id reelData) = true ->
      ReelCollector.hasReel (post_id reelData) c1 = true).
Proof.
  intros i c reelData c1 Hc E. unfold resolve in E.
  destruct (truthy (currentReelId i) && ReelCollector.hasReel (currentReelId i) c)
    eqn:Eb.
  - injection E as <- <-. apply andb_prop in Eb as [Ht Hh].
    split; [exact Hc|]. split; [auto|]. intros _.
    destruct (getReel_keyed _ _ Hc Ht Hh) as [-> _]. exact Hh.
  - cbv zeta in E.
    pose proof (cache_ok_adds (arrivedLate i) c Hc) as Hc'.
    pose proof (fun k => hasReel_adds (arrivedLate i) k c) as Hm.
    destruct (domData i) as [r|].
    + destruct (truthy r && truthy (post_id r)) eqn:Ea; injection E as <- <-.
      * split; [now apply cache_ok_addReel|].
        split; [intros k Hk; now apply hasReel_addReel_mono, Hm|].
        intros _. now apply addReel_has.
      * split; [exact Hc'|]. split; [exact Hm | congruence].
    + injection E as <- <-. split; [exact Hc'|].
      split; [exact Hm | intros H; discriminate H].
Qed.

Lemma NoDup_app_disjoint : forall (A : Type) (a b : list A),
  NoDup a -> NoDup b -> (forall k, In k a -> In k b -> False) ->
  NoDup (a ++ b).
Proof.
  intros A a b Ha Hb Hd. induction Ha as [|x a Hx Ha IH]; simpl; [exact Hb|].
  constructor.
  - rewrite in_app_iff. intros [H | H]; [now apply Hx|].
    apply (Hd x); [now left | exact H].
  - apply IH. intros k Hk. apply Hd. now right.
Qed.

Lemma NoDup_map_filter : forall (A B : Type) (f : A -> B) p l,
  NoDup (map f l) -> NoDup (map f (filter p l)).
Proof.
  intros A B f p. induction l as [|x l IH]; intros H; simpl; [constructor|].
  cbn [map] in H. inversion H as [|? ? Hx Hl]; subst.
  destruct (p x); [|now apply IH].
  cbn [map]. constructor; [|now apply IH].
  intros Hin. apply Hx. apply in_map_iff in Hin as (y & Ey & Hy).
  apply filter_In in Hy as [Hy _]. rewrite <- Ey. now apply in_map.
Qed.

Lemma keyed_ids : forall c,
  cache_ok c -> map post_id (ReelCollector.getAllReels c) = keys c.
Proof.
  intros c (Hk & _ & _). unfold ParserSpec.keyed in Hk.
  unfold ReelCollector.getAllReels, keys.
  induction Hk as [|e l He Hl IH]; simpl; [reflexivity|].
  f_equal; [symmetry; exact He | exact IH].
Qed.

Lemma unsavedReels_ok : forall rs c,
  cache_ok c ->
  let l := unsavedReels rs c in
  (forall r, In r l -> ~ In (post_id r) rs)
  /\ NoDup (map post_id l)
  /\ (forall r, In r l -> ReelCollector.hasReel (post_id r) c = true)
  /\ (forall k, ReelCollector.hasReel k c = true -> ~ In k rs ->
                In k (map post_id l)).
Proof.
  intros rs c Hc l. subst l. unfold unsavedReels.
  pose proof (keyed_ids c Hc) as Hids.
  destruct Hc as (Hk & Hnd & Ht).
  split; [|split; [|split]].
  - intros r Hr Hin. apply filter_In in Hr as [_ Hr].
    apply negb_true_iff in Hr. apply mem_In in Hin. congruence.
  - apply NoDup_map_filter. now rewrite Hids.
  - intros r Hr. apply filter_In in Hr as [Hr _].
    unfold ReelCollector.hasReel. apply map_has_In. fold (keys c).
    rewrite <- Hids. now apply in_map.
  - intros k Hh Hnot. unfold ReelCollector.hasReel in Hh.
    apply map_has_In in Hh. fold (keys c) in Hh. rewrite <- Hids in Hh.
    apply in_map_iff in Hh as (r & Er & Hr).
    apply in_map_iff. exists r. split; [exact Er|].
    apply filter_In. split; [exact Hr|].
    apply negb_true_iff. destruct (mem (post_id r) rs) eqn:Em; [|reflexivity].
    apply mem_In in Em. rewrite Er in Em. contradiction.
Qed.

End SessionCache.

Section SessionRecords.
Import JS Scraper Session SessionSpec.
Variable Store : Type.
Variable savePost : value -> Store -> bool * Store.

(** *** The counters of a pass are those of [Scraper.iteration] *)

Lemma advance_reads_navigation : forall t e e' c,
  navigated e = navigated e' -> retryNavigated e = retryNavigated e' ->
  advance t e c = advance t e' c.
Proof. intros t e e' c H1 H2. unfold advance. now rewrite H1, H2. Qed.

Lemma stored_all_length : forall t l st,
  List.length (stored_all Store savePost t l st) = List.length l.
Proof.
  intros t. induction l as [|r l IH]; intros st; simpl; [reflexivity|].
  now rewrite IH.
Qed.

Lemma save_unsaved_counters : forall t st r,
  counters (save_unsaved savePost t st r)
  = if (reelsCollected (counters st) <? t) && stored Store savePost t st r
    then mk (reelsCollected (counters st) + 1)
           (navigationFailures (counters st))
           (consecutiveNavigationFailures (counters st))
    else counters st.
Proof.
  intros t st r. unfold save_unsaved, stored.
  destruct (storage st) as [s|]; [|now rewrite andb_false_r].
  destruct (truthy (post_id r)); cbn [andb]; [|now rewrite andb_false_r].
  destruct (reelsCollected (counters st) <? t); cbn [andb]; [|reflexivity].
  destruct (savePost r s) as [[|] s']; reflexivity.
Qed.

Lemma fold_save_unsaved_counters : forall t l st,
  counters (fold_left (save_unsaved savePost t) l st)
  = fold_left
      (fun c' stored =>
         if (reelsCollected c' <? t) && stored
         then mk (reelsCollected c' + 1) (navigationFailures c')
                (consecutiveNavigationFailures c')
         else c')
      (stored_all Store savePost t l st) (counters st).
Proof.
  intros t. induction l as [|r l IH]; intros st; simpl; [reflexivity|].
  now rewrite IH, save_unsaved_counters.
Qed.

Lemma drain_counters : forall t st,
  counters (Session.drain savePost t st)
  = Scraper.drain t
      (mkEvents true (Ok false) true
         (stored_all Store savePost t
            (unsavedReels (reels st) (reelCollector st)) st)
         true true true true true)
      (counters st).
Proof.
  intros t st. unfold Session.drain, Scraper.drain. cbn [unsaved].
  rewrite stored_all_length.
  set (l := unsavedReels (reels st) (reelCollector st)).
  destruct (Nat.ltb 0 (ReelCollector.size (reelCollector st))) eqn:Es;
    cbn [andb].
  - destruct (reelsCollected (counters st) <? t) eqn:Et.
    + destruct ((0 <? Z.of_nat (List.length l))
                && (Z.of_nat (List.length l)
                    <=? Z.min 3 (t - reelsCollected (counters st))));
        [apply fold_save_unsaved_counters | reflexivity].
    + apply Z.ltb_ge in Et.
      destruct (0 <? Z.of_nat (List.length l)) eqn:E0; [|reflexivity].
      apply Z.ltb_lt in E0.
      destruct (Z.of_nat (List.length l)
                <=? Z.min 3 (t - reelsCollected (counters st))) eqn:E1;
        [|reflexivity].
      apply Z.leb_le in E1. lia.
  - apply Nat.ltb_ge in Es. unfold ReelCollector.size in Es.
    assert (Hl : l = []).
    { subst l. unfold unsavedReels, ReelCollector.getAllReels.
      destruct (ReelCollector.collectedReels (reelCollector st));
        [reflexivity | simpl in Es; lia]. }
    rewrite Hl. reflexivity.
Qed.

Lemma drain_reads_unsaved : forall t e e' c,
  unsaved e = unsaved e' -> Scraper.drain t e c = Scraper.drain t e' c.
Proof. intros t e e' c H. unfold Scraper.drain. now rewrite H. Qed.

Lemma session_iteration_counters : forall t i st,
  counters (fst (Session.iteration savePost t i st))
  = fst (Scraper.iteration t (observed Store savePost t i st) (counters st))
  /\ snd (Session.iteration savePost t i st)
     = snd (Scraper.iteration t (observed Store savePost t i st) (counters st)).
Proof.
  intros t i st. set (e := observed Store savePost t i st).
  unfold Session.iteration, Scraper.iteration.
  assert (E1 : Scraper.isOnReelPage e = Scraper.isOnReelPage (answers i))
    by reflexivity.
  assert (E2 : suspension e = suspension (answers i)) by reflexivity.
  assert (E3 : recovered e = recovered (answers i)) by reflexivity.
  rewrite E1, E2, E3. cbv zeta.
  destruct (Scraper.isOnReelPage (answers i)); cbn [negb].
  2: { destruct (suspension (answers i)) as [[|]|]; try (split; reflexivity).
       destruct (recovered (answers i)); split; reflexivity. }
  set (c0 := interceptor_adds (arrived i) (reelCollector st)).
  destruct (resolve i (reelCollector (with_collector st c0)))
    as [reelData c1] eqn:Er.
  cbn [fst snd with_counters counters].
  split; [|reflexivity].
  f_equal.
  rewrite (advance_reads_navigation t (answers i) e) by reflexivity.
  f_equal.
  assert (Hres : resolve i c0 = (reelData, c1)) by exact Er.
  set (st1 := with_collector (with_collector st c0) c1).
  set (st2 := Session.drain savePost t st1).
  assert (Hd : counters st2 = Scraper.drain t e (counters st)).
  { subst st2. rewrite drain_counters.
    apply drain_reads_unsaved. subst e. unfold observed. cbv zeta.
    fold c0. rewrite Hres. reflexivity. }
  assert (Hr : resolved e = truthy reelData && truthy (post_id reelData)).
  { subst e. unfold observed. cbv zeta. fold c0. now rewrite Hres. }
  assert (Hs : seen e = mem (post_id reelData) (reels st2)).
  { subst e. unfold observed. cbv zeta. fold c0. now rewrite Hres. }
  assert (Hv : saved e = match storage st2 with
                         | Some s => fst (savePost reelData s)
                         | None => false
                         end).
  { subst e. unfold observed. cbv zeta. fold c0. now rewrite Hres. }
  unfold Scraper.resolve. rewrite Hr, Hs, Hv, <- Hd.
  unfold save_current.
  destruct (truthy reelData && truthy (post_id reelData)); [|reflexivity].
  destruct (mem (post_id reelData) (reels st2)); cbn [negb]; [reflexivity|].
  destruct (storage st2) as [s|]; [|reflexivity].
  destruct (savePost reelData s) as [[|] s']; reflexivity.
Qed.

Lemma session_run_within : forall t passes (st : state Store * bool),
  ScraperSpec.within (counters (fst st)) ->
  ScraperSpec.within
    (counters (fst (fold_left (Session.pass savePost t) passes st))).
Proof.
  intros t. induction passes as [|i passes IH]; intros [st running] Hw;
    cbn [fold_left]; [exact Hw|].
  apply IH. unfold Session.pass.
  destruct (running && continues t (counters st)) eqn:Eg; [|exact Hw].
  apply andb_prop in Eg as [_ Eg].
  destruct (session_iteration_counters t i st) as [Ec _].
  destruct (Session.iteration savePost t i st) as [s' broke].
  cbn [fst] in *. rewrite Ec. now apply iteration_within.
Qed.

(** X19: the counters of a pass over the records are the counters of
    [Scraper.iteration] on the events the records give rise to (which
    unsaved reels were stored, whether the current record has an id, is
    already in [reels], and was stored), and the loop ends with [break]
    in the same passes.  So in every session over the records the two
    failure counters stay within their bounds: [navigationFailures]
    between 0 and 6, [consecutiveNavigationFailures] between 0 and 3. *)
Theorem session_counters_follow_events : forall reelsToCollect,
  (forall i st,
      let e := observed Store savePost reelsToCollect i st in
      counters (fst (Session.iteration savePost reelsToCollect i st))
      = fst (Scraper.iteration reelsToCollect e (counters st))
      /\ snd (Session.iteration savePost reelsToCollect i st)
         = snd (Scraper.iteration reelsToCollect e (counters st)))
  /\ (forall storage0 passes,
        let c :=
          counters (fst (Session.run savePost reelsToCollect storage0 passes)) in
        0 <= navigationFailures c <= 6
        /\ 0 <= consecutiveNavigationFailures c <= 3).
Proof.
  intros t. split.
  - intros i st e. apply session_iteration_counters.
  - intros storage0 passes c. subst c. unfold Session.run.
    apply (session_run_within t passes). cbn.
    unfold ScraperSpec.within, maxFailures, maxConsecutiveNavigationFailures.
    cbn. lia.
Qed.

(** *** What the loop maintains *)

Lemma save_unsaved_cases : forall t st r,
  let st' := save_unsaved savePost t st r in
  reelCollector st' = reelCollector st
  /\ ((reels st' = reels st
       /\ reelsCollected (counters st') = reelsCollected (counters st))
      \/ (reels st' = reels st ++ [post_id r]
          /\ truthy (post_id r) = true
          /\ reelsCollected (counters st')
             = reelsCollected (counters st) + 1)).
Proof.
  intros t st r. unfold save_unsaved.
  destruct (storage st) as [s|]; [|now split; [|left]].
  destruct (truthy (post_id r)) eqn:Et; cbn [andb]; [|now split; [|left]].
  destruct (reelsCollected (counters st) <? t); [|now split; [|left]].
  destruct (savePost r s) as [[|] s']; cbn; (split; [reflexivity|]);
    [right | left]; now repeat split.
Qed.

Lemma fold_save_unsaved_records : forall t l st,
  (forall r, In r l -> ~ In (post_id r) (reels st)) ->
  NoDup (map post_id l) ->
  let st' := fold_left (save_unsaved savePost t) l st in
  reelCollector st' = reelCollector st
  /\ exists pushed,
       reels st' = reels st ++ pushed
       /\ incl pushed (map post_id l)
       /\ NoDup pushed
       /\ Forall (fun id => truthy id = true) pushed
       /\ reelsCollected (counters st')
          = reelsCollected (counters st) + Z.of_nat (List.length pushed)
       /\ (List.length pushed <= List.length l)%nat
       /\ (forall k, In k (map post_id l) -> ~ In k pushed ->
                     (List.length pushed < List.length l)%nat).
Proof.
  intros t. induction l as [|r l IH]; intros st Hfresh Hnd; cbn [fold_left].
  - split; [reflexivity|]. exists []. rewrite app_nil_r.
    repeat split; try constructor; try (intros ? []); simpl; try lia.
  - cbn [map] in Hnd. inversion Hnd as [|? ? Hr Hnd']; subst.
    destruct (save_unsaved_cases t st r) as [Hc Hcase].
    set (st1 := save_unsaved savePost t st r) in *.
    assert (Hfresh1 : forall r', In r' l -> ~ In (post_id r') (reels st1)).
    { intros r' Hr' Hin.
      destruct Hcase as [[E _] | [E _]]; rewrite E in Hin.
      - apply (Hfresh r'); [now right | exact Hin].
      - apply in_app_iff in Hin as [Hin | [Hin | []]].
        + apply (Hfresh r'); [now right | exact Hin].
        + apply Hr. rewrite Hin. now apply in_map. }
    destruct (IH st1 Hfresh1 Hnd') as (Hc2 & pushed & E & Hi & Hn & Ht & Hcnt & Hlen & Hmiss).
    split; [congruence|].
    destruct Hcase as [[E1 C1] | [E1 [T1 C1]]].
    + exists pushed. rewrite E, E1, Hcnt, C1.
      split; [reflexivity|]. split; [now apply incl_tl|].
      split; [exact Hn|]. split; [exact Ht|]. split; [reflexivity|].
      split; [simpl; lia|].
      intros k [Hk | Hk] Hnot; [simpl; lia|].
      specialize (Hmiss k Hk Hnot). simpl. lia.
    + exists (post_id r :: pushed). rewrite E, E1, Hcnt, C1, <- app_assoc.
      split; [reflexivity|].
      split; [apply incl_cons; [now left | now apply incl_tl]|].
      split; [constructor; [intros Hin; apply Hr; now apply Hi | exact Hn]|].
      split; [now constructor|].
      split; [cbn [List.length]; lia|].
      split; [simpl; lia|].
      intros k [Hk | Hk] Hnot.
      * exfalso. apply Hnot. now left.
      * assert (Hnot' : ~ In k pushed) by (intros H; apply Hnot; now right).
        specialize (Hmiss k Hk Hnot'). simpl. lia.
Qed.

Lemma drain_sound : forall t st,
  cache_ok (reelCollector st) -> sound Store t st ->
  reelsCollected (counters st) < t ->
  let st' := Session.drain savePost t st in
  reelCollector st' = reelCollector st
  /\ sound Store t st'
  /\ (forall k, ReelCollector.hasReel k (reelCollector st) = true ->
                ~ In k (reels st') -> reelsCollected (counters st') < t).
Proof.
  intros t st Hc (Hnd & Hids & Hcnt & Hmax) Hlt st'. subst st'.
  assert (Hsame : reelCollector st = reelCollector st
                  /\ sound Store t st
                  /\ (forall k, ReelCollector.hasReel k (reelCollector st) = true ->
                                ~ In k (reels st) ->
                                reelsCollected (counters st) < t)).
  { split; [reflexivity|]. split; [now repeat split | auto]. }
  unfold Session.drain.
  destruct (Nat.ltb 0 (ReelCollector.size (reelCollector st))
            && (reelsCollected (counters st) <? t)); [|exact Hsame].
  cbv zeta.
  set (l := unsavedReels (reels st) (reelCollector st)).
  destruct ((0 <? Z.of_nat (List.length l))
            && (Z.of_nat (List.length l)
                <=? Z.min 3 (t - reelsCollected (counters st)))) eqn:Eg;
    [|exact Hsame].
  apply andb_prop in Eg as [_ Eg]. apply Z.leb_le in Eg.
  destruct (unsavedReels_ok (reels st) (reelCollector st) Hc)
    as (Hfresh & Hndl & Hcached & Hcover).
  fold l in Hfresh, Hndl, Hcached, Hcover.
  destruct (fold_save_unsaved_records t l st Hfresh Hndl)
    as (Hc' & pushed & E & Hi & Hn & Ht & Hcount & Hlen & Hmiss).
  split; [exact Hc'|]. split.
  - unfold sound. rewrite E, Hc', Hcount, length_app.
    split; [|split; [|split]].
    + apply NoDup_app_disjoint; [exact Hnd | exact Hn|].
      intros k Hk Hp. apply Hi in Hp. apply in_map_iff in Hp as (r & <- & Hr).
      now apply (Hfresh r).
    + apply Forall_app. split; [exact Hids|].
      apply Forall_forall. intros k Hk. rewrite Forall_forall in Ht.
      split; [now apply Ht|].
      apply Hi in Hk. apply in_map_iff in Hk as (r & <- & Hr). now apply Hcached.
    + lia.
    + lia.
  - intros k Hh Hnot. rewrite E in Hnot. rewrite Hcount.
    assert (Hk : In k (map post_id l)).
    { apply Hcover; [exact Hh|]. intros H. apply Hnot, in_or_app. now left. }
    assert (Hp : ~ In k pushed).
    { intros H. apply Hnot, in_or_app. now right. }
    specialize (Hmiss k Hk Hp). lia.
Qed.

Lemma sound_change : forall t (st st' : state Store),
  reels st' = reels st ->
  reelsCollected (counters st') = reelsCollected (counters st) ->
  (forall k, ReelCollector.hasReel k (reelCollector st) = true ->
             ReelCollector.hasReel k (reelCollector st') = true) ->
  sound Store t st -> sound Store t st'.
Proof.
  intros t st st' Er Ec Hm (Hnd & Hids & Hcnt & Hmax).
  unfold sound. rewrite Er, Ec. repeat split; try assumption; try lia.
  eapply Forall_impl; [|exact Hids]. intros k [Ht Hh]. split; [exact Ht | auto].
Qed.

Lemma save_current_sound : forall t reelData st,
  sound Store t st ->
  (truthy reelData && truthy (post_id reelData) = true ->
   ReelCollector.hasReel (post_id reelData) (reelCollector st) = true) ->
  (forall k, ReelCollector.hasReel k (reelCollector st) = true ->
             ~ In k (reels st) -> reelsCollected (counters st) < t) ->
  let st' := save_current savePost reelData st in
  reelCollector st' = reelCollector st /\ sound Store t st'.
Proof.
  intros t reelData st Hs Hcached Hroom st'. subst st'.
  unfold save_current.
  destruct (truthy reelData && truthy (post_id reelData)) eqn:Ea.
  2: { split; [reflexivity|]. now apply (sound_change t st). }
  specialize (Hcached eq_refl).
  destruct (mem (post_id reelData) (reels st)) eqn:Em; cbn [negb];
    [now split|].
  assert (Hnot : ~ In (post_id reelData) (reels st)).
  { intros H. apply mem_In in H. congruence. }
  pose proof (Hroom _ Hcached Hnot) as Hlt.
  apply andb_prop in Ea as [_ Hid].
  destruct Hs as (Hnd & Hids & Hcnt & Hmax).
  assert (Hpush : forall n c s,
            0 <= n <= reelsCollected (counters st) + 1 ->
            sound Store t
              (mkState (reels st ++ [post_id reelData]) (mk n c 0)
                 (reelCollector st) s)
            /\ forall f,
                 sound Store t
                   (mkState (reels st ++ [post_id reelData])
                      (mk (reelsCollected (counters st)) c f)
                      (reelCollector st) s)).
  { intros n c s Hn. split; [|intros f]; unfold sound;
      cbn [reels counters reelCollector reelsCollected];
      rewrite length_app; cbn [List.length].
    - split; [now apply NoDup_snoc|].
      split; [apply Forall_app; split; [exact Hids | now repeat constructor]|].
      lia.
    - split; [now apply NoDup_snoc|].
      split; [apply Forall_app; split; [exact Hids | now repeat constructor]|].
      lia. }
  destruct (storage st) as [s|].
  - destruct (savePost reelData s) as [[|] s']; (split; [reflexivity|]).
    + apply (Hpush (reelsCollected (counters st) + 1) 0 (Some s')). lia.
    + apply (Hpush 0 0 (Some s')). lia.
  - split; [reflexivity|]. apply (Hpush 0 0 None). lia.
Qed.

Lemma advance_collected : forall t e c,
  reelsCollected (fst (advance t e c)) = reelsCollected c.
Proof.
  intros t e c. unfold advance.
  destruct (reelsCollected c <? t); [|reflexivity].
  destruct (negb (navigated e)); [|reflexivity].
  destruct (_ <? maxConsecutiveNavigationFailures); [|reflexivity].
  now destruct (retryNavigated e).
Qed.

Lemma iteration_sound : forall t i st,
  cache_ok (reelCollector st) -> sound Store t st ->
  reelsCollected (counters st) < t ->
  let st' := fst (Session.iteration savePost t i st) in
  cache_ok (reelCollector st') /\ sound Store t st'.
Proof.
  intros t i st Hc Hs Hlt st'. subst st'. unfold Session.iteration. cbv zeta.
  set (c0 := interceptor_adds (arrived i) (reelCollector st)).
  assert (Hc0 : cache_ok c0) by now apply cache_ok_adds.
  assert (Hs0 : sound Store t (with_collector st c0)).
  { apply (sound_change t st); try reflexivity; [|exact Hs].
    intros k Hk. now apply hasReel_adds. }
  destruct (Scraper.isOnReelPage (answers i)); cbn [negb].
  2: { destruct (suspension (answers i)) as [[|]|];
         [| destruct (recovered (answers i)) |];
         cbn [fst with_counters reelCollector with_collector];
         (split; [exact Hc0|]);
         now apply (sound_change t (with_collector st c0)). }
  cbn [reelCollector with_collector].
  destruct (resolve i c0) as [reelData c1] eqn:Er.
  destruct (resolve_ok i c0 reelData c1 Hc0 Er) as (Hc1 & Hmono & Hcur).
  set (st1 := with_collector (with_collector st c0) c1).
  assert (Hs1 : sound Store t st1).
  { apply (sound_change t (with_collector st c0)); try reflexivity;
      [exact Hmono | exact Hs0]. }
  destruct (drain_sound t st1 Hc1 Hs1 Hlt) as (Hcd & Hsd & Hroom).
  set (st2 := Session.drain savePost t st1) in *.
  assert (Hcur2 : truthy reelData && truthy (post_id reelData) = true ->
                  ReelCollector.hasReel (post_id reelData) (reelCollector st2)
                  = true).
  { rewrite Hcd. exact Hcur. }
  assert (Hroom2 : forall k,
            ReelCollector.hasReel k (reelCollector st2) = true ->
            ~ In k (reels st2) -> reelsCollected (counters st2) < t).
  { rewrite Hcd. exact Hroom. }
  destruct (save_current_sound t reelData st2 Hsd Hcur2 Hroom2) as (Hc3 & Hs3).
  set (st3 := save_current savePost reelData st2) in *.
  cbn [fst with_counters reelCollector].
  split; [rewrite Hc3, Hcd; exact Hc1|].
  apply (sound_change t st3); try reflexivity; [|auto | exact Hs3].
  cbn [counters]. apply advance_collected.
Qed.

Lemma pass_sound : forall t i (st : state Store) running,
  cache_ok (reelCollector st) -> sound Store t st ->
  cache_ok (reelCollector (fst (Session.pass savePost t (st, running) i)))
  /\ sound Store t (fst (Session.pass savePost t (st, running) i)).
Proof.
  intros t i st running Hc Hs. unfold Session.pass.
  destruct (running && continues t (counters st)) eqn:Eg; [|now split].
  apply andb_prop in Eg as [_ Eg]. unfold continues in Eg.
  apply andb_prop in Eg as [Eg _]. apply andb_prop in Eg as [Eg _].
  apply Z.ltb_lt in Eg.
  pose proof (iteration_sound t i st Hc Hs Eg) as H.
  destruct (Session.iteration savePost t i st) as [s' broke]. exact H.
Qed.

Lemma run_sound : forall t passes (st : state Store * bool),
  cache_ok (reelCollector (fst st)) -> sound Store t (fst st) ->
  sound Store t (fst (fold_left (Session.pass savePost t) passes st)).
Proof.
  intros t. induction passes as [|i passes IH]; intros [st running] Hc Hs;
    cbn [fold_left]; [exact Hs|].
  destruct (pass_sound t i st running Hc Hs) as [Hc' Hs'].
  now apply IH.
Qed.

(** X20: whatever the storage, the interceptor and the page do during a
    session, after any number of passes the list [reels] holds no id
    twice, every id in it is truthy and cached, and the count of saved
    reels is at least 0, at most the length of [reels] and never beyond
    the target [reelsToCollect]. *)
Theorem session_never_exceeds_target : forall reelsToCollect storage0 passes,
  Forall by_value passes ->
  let st := fst (Session.run savePost reelsToCollect storage0 passes) in
  NoDup (reels st)
  /\ Forall (fun id => truthy id = true
                       /\ ReelCollector.hasReel id (reelCollector st) = true)
       (reels st)
  /\ 0 <= reelsCollected (counters st) <= Z.of_nat (List.length (reels st))
  /\ reelsCollected (counters st) <= Z.max 0 reelsToCollect.
Proof.
  intros t storage0 passes _ st. subst st. unfold Session.run.
  apply run_sound; cbn [fst reelCollector].
  - repeat split; try constructor.
  - unfold sound. cbn. repeat split; try constructor; try lia.
Qed.

End SessionRecords.

Lemma session_never_exceeds_target_witness :
  let st := fst (Session.run SessionSpec.scripted 2 (Some [true; true; true])
                   SessionSpec.two_passes) in
  Session.reels st = [JS.VStr "A"; JS.VStr "B"]
  /\ NoDup (Session.reels st)
  /\ Scraper.reelsCollected (Session.counters st) <= Z.max 0 2.
Proof.
  assert (Hv : Forall SessionSpec.by_value SessionSpec.two_passes).
  { repeat constructor. }
  destruct (session_never_exceeds_target (list bool) SessionSpec.scripted 2
              (Some [true; true; true]) SessionSpec.two_passes Hv)
    as (H1 & _ & _ & H4).
  split; [reflexivity|]. split; [exact H1 | exact H4].
Defined.

Section SessionTally.
Import JS Scraper Session SessionSpec.
Variable Store : Type.
Variable savePost : value -> Store -> bool * Store.

Lemma tallied_change : forall (st st' : state (Store * Z)),
  storage st' = storage st ->
  reelsCollected (counters st') = reelsCollected (counters st) ->
  tallied Store st -> tallied Store st'.
Proof. intros st st' Es Ec H. unfold tallied in *. now rewrite Es, Ec. Qed.

Lemma save_unsaved_tallied : forall t st r,
  tallied Store st -> tallied Store (save_unsaved (counting Store savePost) t st r).
Proof.
  intros t st r H. unfold save_unsaved, tallied in *.
  destruct (storage st) as [[s n]|] eqn:Es; [|now rewrite Es].
  destruct (truthy (post_id r)
            && (reelsCollected (counters st) <? t)); [|now rewrite Es].
  unfold counting. cbn [fst snd] in *.
  destruct (savePost r s) as [[|] s']; cbn; lia.
Qed.

Lemma fold_save_unsaved_tallied : forall t l st,
  tallied Store st ->
  tallied Store (fold_left (save_unsaved (counting Store savePost) t) l st).
Proof.
  intros t. induction l as [|r l IH]; intros st H; simpl; [exact H|].
  now apply IH, save_unsaved_tallied.
Qed.

Lemma drain_tallied : forall t st,
  tallied Store st -> tallied Store (Session.drain (counting Store savePost) t st).
Proof.
  intros t st H. unfold Session.drain.
  destruct (_ && _); [|exact H]. cbv zeta.
  destruct (_ && _); [|exact H].
  now apply fold_save_unsaved_tallied.
Qed.

Lemma save_current_tallied : forall reelData st,
  tallied Store st -> tallied Store (save_current (counting Store savePost) reelData st).
Proof.
  intros reelData st H. unfold save_current.
  destruct (_ && _); [|now apply (tallied_change st)].
  destruct (negb _); [|exact H].
  unfold tallied in *.
  destruct (storage st) as [[s n]|] eqn:Es; [|cbn; exact H].
  unfold counting. cbn [fst snd] in *.
  destruct (savePost reelData s) as [[|] s']; cbn; lia.
Qed.

Lemma iteration_tallied : forall t i st,
  tallied Store st -> tallied Store (fst (Session.iteration (counting Store savePost) t i st)).
Proof.
  intros t i st H. unfold Session.iteration. cbv zeta.
  set (st0 := with_collector st _).
  assert (H0 : tallied Store st0) by now apply (tallied_change st).
  destruct (negb (Scraper.isOnReelPage (answers i))).
  - destruct (suspension (answers i)) as [[|]|];
      [| destruct (recovered (answers i)) |];
      now apply (tallied_change st0).
  - destruct (resolve i (reelCollector st0)) as [reelData c1].
    cbn [fst].
    set (st3 := save_current (counting Store savePost) reelData _).
    assert (H3 : tallied Store st3).
    { subst st3. apply save_current_tallied, drain_tallied.
      now apply (tallied_change st0). }
    apply (tallied_change st3); [reflexivity | | exact H3].
    cbn [with_counters counters]. apply advance_collected.
Qed.

Lemma run_tallied : forall t passes (st : state (Store * Z) * bool),
  tallied Store (fst st) ->
  tallied Store (fst (fold_left (Session.pass (counting Store savePost) t) passes st)).
Proof.
  intros t. induction passes as [|i passes IH]; intros [st running] H;
    cbn [fold_left]; [exact H|].
  apply IH. unfold Session.pass.
  destruct (running && continues t (counters st)); [|exact H].
  pose proof (iteration_tallied t i st H) as Hi.
  now destruct (Session.iteration (counting Store savePost) t i st).
Qed.

(** X21: the count of collected reels is exactly the number of records
    the storage stored during the session, whatever the storage answers;
    a session without a storage counts nothing. *)
Theorem reelsCollected_counts_stored_records :
  forall reelsToCollect (storage0 : option Store) passes,
  let st :=
    fst (Session.run (counting Store savePost) reelsToCollect
           (option_map (fun s => (s, 0)) storage0) passes) in
  match storage st with
  | Some s => reelsCollected (counters st) = snd s
  | None => reelsCollected (counters st) = 0
  end.
Proof.
  intros t storage0 passes st.
  assert (H : tallied Store st).
  { subst st. unfold Session.run. apply run_tallied.
    unfold tallied. destruct storage0; reflexivity. }
  unfold tallied in H. destruct (storage st); [now symmetry | exact H].
Qed.

End SessionTally.

(** *** The record of the current reel *)

Section Resolution.
Import JS ReelCollector CollectorSpec SessionSpec GrowthSpec.

Lemma run_cache_ok : forall ops, cache_ok (run ops empty).
Proof.
  assert (H0 : cache_ok empty) by (repeat split; constructor).
  induction ops as [|o ops IH] using rev_ind; [exact H0|].
  rewrite run_snoc. destruct o as [r|]; [|exact H0].
  now apply cache_ok_addReel.
Qed.

(** X22: the record the loop works on is the cached one whenever the
    cache has the id of the page, whatever the DOM fallback would give,
    and the cache is then left as it is; otherwise it is what the
    fallback returns ([null] when it raises).  Either way the cache only
    grows, and a record that comes out with an id is in the cache under
    that id. *)
Theorem resolved_record_is_cached : forall ops currentReelId domData,
  primitive_ids ops ->
  let c := run ops empty in
  let reelData := fst (Scraper.resolveReelData currentReelId domData c) in
  let c' := snd (Scraper.resolveReelData currentReelId domData c) in
  cache_grows c c'
  /\ (truthy currentReelId = true -> hasReel currentReelId c = true ->
      reelData = getReel currentReelId c
      /\ post_id reelData = currentReelId /\ c' = c)
  /\ (truthy currentReelId && hasReel currentReelId c = false ->
      reelData = match domData with Ok r => r | Throw => VNull end)
  /\ (truthy reelData && truthy (post_id reelData) = true ->
      hasReel (post_id reelData) c' = true
      /\ post_id (getReel (post_id reelData) c') = post_id reelData).
Proof.
  intros ops cur domData _ c reelData c'.
  pose proof (run_cache_ok ops) as Hc. fold c in Hc.
  subst reelData c'. unfold Scraper.resolveReelData.
  destruct (truthy cur && hasReel cur c) eqn:Eb.
  - apply andb_prop in Eb as [Ht Hh]. cbn [fst snd].
    destruct (getReel_keyed cur c Hc Ht Hh) as [Hp Hv].
    unfold Session.post_id in Hp. unfold post_id.
    split; [apply cache_grows_refl|].
    split; [intros _ _; now repeat split|].
    split; [discriminate|].
    intros _. rewrite Hp. split; [exact Hh | exact Hp].
  - split; [|split; [|split]].
    + destruct domData as [r|]; [|apply cache_grows_refl].
      destruct (truthy r && truthy (get r "post_id"));
        [apply cache_grows_addReel | apply cache_grows_refl].
    + intros Ht Hh. now rewrite Ht, Hh in Eb.
    + intros _. destruct domData as [r|]; [|reflexivity].
      now destruct (truthy r && truthy (get r "post_id")).
    + destruct domData as [r|]; [|intros H; discriminate H].
      destruct (truthy r && truthy (get r "post_id")) eqn:Ea; cbn [fst snd];
        [|unfold post_id; congruence].
      intros _.
      assert (Hh : hasReel (post_id r) (snd (addReel r c)) = true)
        by now apply addReel_has.
      split; [exact Hh|].
      apply andb_prop in Ea as [_ Ea].
      exact (proj1 (getReel_keyed (post_id r) _ (cache_ok_addReel r c Hc) Ea Hh)).
Qed.

Lemma resolved_record_is_cached_witness :
  let c := run [AddReel (Samples.reel "A" 1)] empty in
  fst (Scraper.resolveReelData (VStr "A") (Ok (Samples.reel "A" 9)) c)
  = Samples.reel "A" 1
  /\ hasReel (VStr "B")
       (snd (Scraper.resolveReelData (VStr "B") (Ok (Samples.reel "B" 2)) c))
     = true.
Proof.
  assert (Hp : primitive_ids [AddReel (Samples.reel "A" 1)]).
  { repeat constructor. }
  destruct (resolved_record_is_cached [AddReel (Samples.reel "A" 1)] (VStr "A")
              (Ok (Samples.reel "A" 9)) Hp) as (_ & H2 & _).
  destruct (resolved_record_is_cached [AddReel (Samples.reel "A" 1)] (VStr "B")
              (Ok (Samples.reel "B" 2)) Hp) as (_ & _ & _ & H4).
  split.
  - destruct (H2 eq_refl eq_refl) as [E _]. rewrite E. reflexivity.
  - apply (H4 eq_refl).
Defined.

End Resolution.

(** ** The cells of a CSV row: escapeCSV and parseCSVLine *)

Section CsvCells.
Import JS CSVStorage CsvSpec.

Lemma append_nil_r : forall s, String.append s EmptyString = s.
Proof. induction s as [|c s IH]; simpl; congruence. Qed.

Lemma append_assoc : forall a b c,
  String.append (String.append a b) c = String.append a (String.append b c).
Proof. induction a as [|x a IH]; intros b c; simpl; [reflexivity | now rewrite IH]. Qed.

Lemma every_append : forall p a b,
  every p (String.append a b) = every p a && every p b.
Proof.
  intros p. induction a as [|c a IH]; intros b; simpl; [reflexivity|].
  now rewrite IH, andb_assoc.
Qed.

Lemma every_skip_spaces : forall p s, every p s = true -> every p (skip_spaces s) = true.
Proof.
  intros p. induction s as [|c s IH]; simpl; [reflexivity|].
  intros E. apply andb_prop in E as [Ec Es].
  destruct (is_space c); [now apply IH | simpl; now rewrite Ec, Es].
Qed.

Lemma every_trimEnd : forall p s, every p s = true -> every p (trimEnd s) = true.
Proof.
  intros p. induction s as [|c s IH]; simpl; [reflexivity|].
  intros E. apply andb_prop in E as [Ec Es]. specialize (IH Es).
  destruct (trimEnd s) as [|d t].
  - destruct (is_space c); simpl; [reflexivity | now rewrite Ec].
  - cbn [every] in *. now rewrite Ec, IH.
Qed.

Lemma space_or_not_break : forall c, is_space c = false -> no_line_break c = true.
Proof.
  intros [[] [] [] [] [] [] [] []]; simpl; intros E; try reflexivity; discriminate E.
Qed.

Lemma every_collapse : forall s inRun,
  every no_line_break (collapse_spaces inRun s) = true.
Proof.
  induction s as [|c s IH]; intros inRun; simpl; [reflexivity|].
  destruct (is_space c) eqn:E.
  - destruct inRun; [apply IH|]. cbn [every]. now rewrite IH.
  - cbn [every]. now rewrite (space_or_not_break c E), IH.
Qed.

Lemma every_replace_all : forall p c replacement s,
  every p replacement = true -> every p s = true ->
  every p (replace_all c replacement s) = true.
Proof.
  intros p c replacement. induction s as [|x s IH]; simpl; [reflexivity|].
  intros Hr E. apply andb_prop in E as [Ex Es].
  destruct (Ascii.eqb x c).
  - rewrite every_append, Hr. now apply IH.
  - cbn [every]. rewrite Ex. now apply IH.
Qed.

Lemma normalized_single_line : forall s,
  every no_line_break (normalized s) = true.
Proof.
  intros s. unfold normalized, trim.
  apply every_trimEnd, every_skip_spaces, every_collapse.
Qed.

Lemma quoted_single_line : forall s,
  every no_line_break s = true -> every no_line_break (quoted s) = true.
Proof.
  intros s E. unfold quoted. destruct (_ || _); [|exact E].
  rewrite !every_append. cbn [every dq andb].
  rewrite (every_replace_all no_line_break quote (String.append dq dq) s eq_refl E).
  reflexivity.
Qed.

(** X23: whatever the field, the cell [escapeCSV] writes holds no
    carriage return and no line feed, so a row stays on one line. *)
Theorem escapeCSV_single_line : forall field,
  every no_line_break (escapeCSV field) = true.
Proof.
  intros field. unfold escapeCSV. destruct (nullish field); [reflexivity|].
  apply quoted_single_line, normalized_single_line.
Qed.

(** *** Reading the cells back *)

Lemma includes_char : forall x c rest,
  includes (String x EmptyString) (String c rest)
  = Ascii.eqb x c || includes (String x EmptyString) rest.
Proof.
  intros x c rest. cbn [includes startsWith]. now rewrite andb_true_r.
Qed.

Lemma parse_plain : forall s tail current result,
  includes "," s = false -> includes dq s = false ->
  parse_from (String.append s tail) current false result
  = parse_from tail (String.append current s) false result.
Proof.
  induction s as [|c s IH]; intros tail current result Hc Hq.
  - now rewrite append_nil_r.
  - rewrite includes_char in Hc. unfold dq in Hq. rewrite includes_char in Hq.
    apply orb_false_elim in Hc as [Hc Hc']. apply orb_false_elim in Hq as [Hq Hq'].
    cbn [String.append parse_from].
    rewrite Ascii.eqb_sym, Hq, Ascii.eqb_sym, Hc. cbn [andb].
    rewrite IH by assumption.
    now rewrite append_assoc.
Qed.

Lemma parse_quoted : forall content tail current result,
  (tail = EmptyString \/ exists t, tail = String ","%char t) ->
  parse_from
    (String.append
       (replace_all quote (String quote (String quote EmptyString)) content)
       (String quote tail))
    current true result
  = parse_from tail (String.append current content) false result.
Proof.
  induction content as [|c s IH]; intros tail current result Ht.
  - rewrite append_nil_r. cbn [replace_all String.append parse_from].
    rewrite Ascii.eqb_refl.
    destruct Ht as [-> | (t & ->)]; reflexivity.
  - cbn [replace_all]. destruct (Ascii.eqb c quote) eqn:Ec.
    + apply Ascii.eqb_eq in Ec. subst c.
      cbn [String.append parse_from]. rewrite Ascii.eqb_refl.
      rewrite IH by exact Ht. now rewrite append_assoc.
    + cbn [String.append parse_from]. rewrite Ec.
      cbn [negb andb]. rewrite andb_false_r.
      rewrite IH by exact Ht. now rewrite append_assoc.
Qed.

Lemma parse_cell : forall s tail current result,
  (tail = EmptyString \/ exists t, tail = String ","%char t) ->
  parse_from (String.append (quoted s) tail) current false result
  = parse_from tail (String.append current s) false result.
Proof.
  intros s tail current result Ht. unfold quoted.
  destruct (includes "," s || includes dq s) eqn:E.
  - change (String.append dq dq) with (String quote (String quote EmptyString)).
    rewrite !append_assoc.
    change (String.append dq tail) with (String quote tail).
    change (String.append dq
              (String.append
                 (replace_all quote (String quote (String quote EmptyString)) s)
                 (String quote tail)))
      with (String quote
              (String.append
                 (replace_all quote (String quote (String quote EmptyString)) s)
                 (String quote tail))).
    cbn [parse_from]. rewrite Ascii.eqb_refl. cbn [negb].
    exact (parse_quoted s tail current result Ht).
  - apply orb_false_elim in E as [E1 E2]. now apply parse_plain.
Qed.

Lemma parse_cells : forall cells c result,
  parse_from (String.concat "," (map quoted (c :: cells))) EmptyString false
    result
  = result ++ c :: cells.
Proof.
  induction cells as [|d cells IH]; intros c result.
  - cbn [map String.concat].
    rewrite <- (append_nil_r (quoted c)).
    rewrite parse_cell by now left. reflexivity.
  - change (String.concat "," (map quoted (c :: d :: cells)))
      with (String.append (quoted c)
              (String ","%char (String.concat "," (map quoted (d :: cells))))).
    rewrite parse_cell by (right; eauto).
    cbn [String.append parse_from Ascii.eqb]. 
    rewrite IH. now rewrite <- app_assoc.
Qed.

Lemma escapeCSV_quotes_cell : forall field, escapeCSV field = quoted (cell field).
Proof.
  intros field. unfold escapeCSV, cell. now destruct (nullish field).
Qed.

(** X24: a row of escaped cells is read back cell by cell.  For any
    fields, at least one, [parseCSVLine] applied to the cells
    [escapeCSV] writes, joined by commas, returns one text for each
    field: the printed field with its white space normalized, commas and
    quotes included. *)
Theorem parseCSVLine_reads_back_escaped_cells : forall fields,
  fields <> [] ->
  parseCSVLine (String.concat "," (map escapeCSV fields)) = map cell fields.
Proof.
  intros [|f fields] Hne; [contradiction|].
  unfold parseCSVLine.
  rewrite (map_ext escapeCSV (fun x => quoted (cell x)) escapeCSV_quotes_cell).
  rewrite <- (map_map cell quoted).
  exact (parse_cells (map cell fields) (cell f) []).
Qed.

Lemma parseCSVLine_reads_back_escaped_cells_witness :
  parseCSVLine
    (String.concat "," (map escapeCSV [VStr "X"; caption; VNull; VNum 12]))
  = ["X"; cell caption; EmptyString; "12"].
Proof.
  rewrite (parseCSVLine_reads_back_escaped_cells
             [VStr "X"; caption; VNull; VNum 12]) by discriminate.
  reflexivity.
Defined.

(** *** The id of a saved row *)

Lemma parse_from_result_bounded : forall n line current inQuotes result,
  (String.length line <= n)%nat ->
  parse_from line current inQuotes result
  = result ++ parse_from line current inQuotes [].
Proof.
  induction n as [|n IH]; intros line current inQuotes result Hn.
  - destruct line; [simpl; reflexivity | simpl in Hn; lia].
  - destruct line as [|c rest]; [reflexivity|].
    cbn [String.length] in Hn.
    assert (Hrest : (String.length rest <= n)%nat) by lia.
    cbn [parse_from].
    destruct (Ascii.eqb c quote).
    + destruct inQuotes.
      * destruct rest as [|d rest']; [apply IH; exact Hrest|].
        destruct (Ascii.eqb d quote); [|apply IH; exact Hrest].
        apply IH. cbn [String.length] in Hrest. lia.
      * apply IH; exact Hrest.
    + destruct (Ascii.eqb c "," && negb inQuotes).
      * rewrite (IH rest EmptyString inQuotes (result ++ [current]) Hrest).
        rewrite (IH rest EmptyString inQuotes ([] ++ [current]) Hrest).
        now rewrite <- app_assoc.
      * apply IH; exact Hrest.
Qed.

Lemma parse_cells_then : forall cells c rest result,
  parse_from
    (String.append (String.concat "," (map quoted (c :: cells)))
       (String ","%char rest))
    EmptyString false result
  = parse_from rest EmptyString false (result ++ c :: cells).
Proof.
  induction cells as [|d cells IH]; intros c rest result.
  - cbn [map String.concat].
    rewrite parse_cell by (right; eauto).
    cbn [String.append parse_from Ascii.eqb]. reflexivity.
  - change (String.concat "," (map quoted (c :: d :: cells)))
      with (String.append (quoted c)
              (String ","%char (String.concat "," (map quoted (d :: cells))))).
    rewrite append_assoc. cbn [String.append].
    rewrite parse_cell by (right; eauto).
    cbn [String.append parse_from Ascii.eqb].
    rewrite IH. now rewrite <- app_assoc.
Qed.

Lemma quoted_plain : forall s,
  includes "," s = false -> includes dq s = false -> quoted s = s.
Proof. intros s H1 H2. unfold quoted. now rewrite H1, H2. Qed.

Lemma trimEnd_not_space : forall s, every not_space s = true -> trimEnd s = s.
Proof.
  induction s as [|c s IH]; simpl; [reflexivity|].
  intros E. apply andb_prop in E as [Ec Es].
  rewrite (IH Es). unfold not_space in Ec. apply negb_true_iff in Ec.
  destruct s; [now rewrite Ec | reflexivity].
Qed.

Lemma trim_not_space : forall s, every not_space s = true -> trim s = s.
Proof.
  intros s E. unfold trim.
  assert (Hs : skip_spaces s = s).
  { destruct s as [|c s]; [reflexivity|]. simpl in *.
    apply andb_prop in E as [Ec _]. unfold not_space in Ec.
    apply negb_true_iff in Ec. now rewrite Ec. }
  rewrite Hs. now apply trimEnd_not_space.
Qed.

Lemma not_space_chars : forall c,
  not_space c = true ->
  is_space c = false /\ Ascii.eqb c CR = false /\ Ascii.eqb c LF = false.
Proof.
  intros [[] [] [] [] [] [] [] []]; simpl; intros E; try (repeat split; reflexivity);
    discriminate E.
Qed.

Lemma replace_crlf_not_space : forall s,
  every not_space s = true -> replace_crlf s = s.
Proof.
  induction s as [|c s IH]; [reflexivity|].
  intros E. cbn [every] in E. apply andb_prop in E as [Ec Es].
  destruct (not_space_chars c Ec) as (_ & Hcr & _).
  cbn [replace_crlf]. destruct s as [|d s']; [reflexivity|].
  rewrite Hcr. cbn [andb]. now rewrite (IH Es).
Qed.

Lemma replace_all_absent : forall x replacement s,
  every (fun c => negb (Ascii.eqb c x)) s = true ->
  replace_all x replacement s = s.
Proof.
  intros x replacement. induction s as [|c s IH]; [reflexivity|].
  intros E. cbn [every] in E. apply andb_prop in E as [Ec Es].
  apply negb_true_iff in Ec. cbn [replace_all]. now rewrite Ec, (IH Es).
Qed.

Lemma every_weaken : forall (p q : ascii -> bool) s,
  (forall c, p c = true -> q c = true) -> every p s = true -> every q s = true.
Proof.
  intros p q. induction s as [|c s IH]; intros H E; [reflexivity|].
  cbn [every] in *. apply andb_prop in E as [Ec Es].
  now rewrite (H c Ec), (IH H Es).
Qed.

Lemma collapse_not_space : forall s,
  every not_space s = true -> collapse_spaces false s = s.
Proof.
  induction s as [|c s IH]; [reflexivity|].
  intros E. cbn [every] in E. apply andb_prop in E as [Ec Es].
  destruct (not_space_chars c Ec) as (Hs & _).
  cbn [collapse_spaces]. now rewrite Hs, (IH Es).
Qed.

Lemma normalized_not_space : forall s,
  every not_space s = true -> normalized s = s.
Proof.
  intros s E. unfold normalized.
  rewrite (replace_crlf_not_space s E).
  rewrite (replace_all_absent CR " " s).
  2: { apply (every_weaken not_space); [|exact E].
       intros c Hc. destruct (not_space_chars c Hc) as (_ & H & _). now rewrite H. }
  rewrite (replace_all_absent LF " " s).
  2: { apply (every_weaken not_space); [|exact E].
       intros c Hc. destruct (not_space_chars c Hc) as (_ & _ & H). now rewrite H. }
  rewrite (collapse_not_space s E). now apply trim_not_space.
Qed.

Lemma row_line_parts : forall now persona feedType postData rest,
  includes "," now = false -> includes dq now = false ->
  exists a1 a2 a3 a4 a5 a6 a8 a9 more,
    parseCSVLine (row_line now persona feedType postData rest)
    = [now; a1; a2; a3; a4; a5; a6;
       cell (get postData "post_id" ||| VStr EmptyString); a8; a9] ++ more.
Proof.
  intros now persona feedType postData rest H1 H2.
  assert (Hhead :
    String.concat "," (row_head now persona feedType postData)
    = String.concat ","
        (map quoted
           [now;
            cell (get persona "persona_id" ||| VStr "unknown");
            cell (get (get persona "demographics") "gender"
                    ||| get persona "gender" ||| VStr "unknown");
            cell (get (get persona "demographics") "age"
                    ||| get persona "age" ||| VStr "unknown");
            cell (get persona "region" ||| VStr "unknown");
            cell (get persona "political_spectrum" ||| VStr "unknown");
            cell feedType;
            cell (get postData "post_id" ||| VStr EmptyString);
            cell (get postData "author_username" ||| VStr EmptyString);
            cell (get postData "caption" ||| VStr EmptyString)])).
  { unfold row_head. rewrite !escapeCSV_quotes_cell. cbn [map].
    now rewrite (quoted_plain now H1 H2). }
  unfold row_line, parseCSVLine. rewrite Hhead.
  rewrite parse_cells_then.
  rewrite (parse_from_result_bounded (String.length rest)) by lia.
  cbn [app]. do 9 eexists. reflexivity.
Qed.

(** X25: the id of a saved row is read back.  Whatever the persona, the
    post and the cells that follow the first ten (counts and dates are
    written as they are), the line [savePost] appends is read by
    [parseCSVLine] with the cell of the [post_id] at index 7, where
    [getExistingPostIds] looks for it; and for a [post_id] that is a
    non-empty string without white space, the id taken from the line is
    that string. *)
Theorem saved_row_gives_back_its_id :
  forall now persona feedType postData rest,
  includes "," now = false -> includes dq now = false ->
  let line := row_line now persona feedType postData rest in
  nth 7 (parseCSVLine line) EmptyString
  = cell (get postData "post_id" ||| VStr EmptyString)
  /\ (8 <= List.length (parseCSVLine line))%nat
  /\ (forall id,
        get postData "post_id" = VStr id -> id <> EmptyString ->
        every not_space id = true ->
        line_post_id line = Some id).
Proof.
  intros now persona feedType postData rest H1 H2 line. subst line.
  destruct (row_line_parts now persona feedType postData rest H1 H2)
    as (a1 & a2 & a3 & a4 & a5 & a6 & a8 & a9 & more & E).
  split; [now rewrite E|]. split; [rewrite E; cbn [List.length app]; lia|].
  intros id Hid Hne Hsp. unfold line_post_id. rewrite E.
  cbn [List.length app Nat.leb nth]. rewrite Hid.
  assert (Hc : cell (VStr id ||| VStr EmptyString) = id).
  { unfold or_else. cbn [truthy].
    destruct (String.eqb_spec id EmptyString); [contradiction|].
    cbn [negb]. unfold cell. cbn [nullish toString].
    now apply normalized_not_space. }
  rewrite Hc, (trim_not_space id Hsp).
  destruct (String.eqb_spec id EmptyString); [contradiction | reflexivity].
Qed.

Lemma saved_row_gives_back_its_id_witness :
  line_post_id
    (row_line "2026-01-01T00:00:00.000Z" VNull (VStr "reels")
       (VObj [("post_id", VStr "C9x_y"); ("caption", caption)])
       "1,234,5,,,reel,")
  = Some "C9x_y".
Proof.
  destruct (saved_row_gives_back_its_id "2026-01-01T00:00:00.000Z" VNull
              (VStr "reels")
              (VObj [("post_id", VStr "C9x_y"); ("caption", caption)])
              "1,234,5,,,reel," eq_refl eq_refl) as (_ & _ & H).
  apply H; [reflexivity | discriminate | reflexivity].
Defined.

End CsvCells.
